(** * Liar's Bar client: chain-event synchronisation and card pipeline

    A shallow embedding of the TypeScript sources under [src/lib/solana]:
    the event reducer and transaction poller of [useGameEvents.ts], the
    connection-health hook that follows it in the same file, the
    program-event listeners of [eventListener.ts], and the card cache,
    the handle parser, [fetchTable], [joinTable], [decryptMyCards],
    [shuffleCards], [placeCards] and the event handler of the table hook
    ([gameTypes.ts], second document; [useTable.ts] holds the earlier
    variant of the same hook, whose [decryptMyCards] is embedded too).

    Conventions.  A JS [string | null] is an [option string]; a JS array is a
    [list]; React state is an explicit record threaded through the
    functions; an [await]ed remote call is a response value handed to the
    model, and every remote call that the code issues is recorded, in
    order, in a list of effects. *)

From stdpp Require Import gmap strings list fin_maps.
From Stdlib Require Import ZArith Lia DecimalString.

Local Open Scope string_scope.
Local Open Scope Z_scope.
Local Open Scope list_scope.

(* ===================================================================== *)
(** ** JavaScript values shared by the modules                            *)
(* ===================================================================== *)

Module Js.

(** What an [await]ed call or a call inside [try] gives back: it throws
    an [Error] with a message, or it returns a value. *)
Inductive outcome (A : Type) : Type :=
| Threw (message : string)
| Value (a : A).
Arguments Threw {A} message.
Arguments Value {A} a.

(** Sequencing inside a [try] block: the first throw ends it. *)
#[global] Instance outcome_bind : MBind outcome := λ A B k o,
  match o with
  | Threw m => Threw m
  | Value a => k a
  end.

(** Truthiness of a string: every string but the empty one. *)
Definition truthy (s : string) : bool := negb (String.eqb s "").

(** [x || fallback] on strings. *)
Definition orElse (s fallback : string) : string :=
  if truthy s then s else fallback.

(** [n.toString()] of a non-negative integer ([BN], [bigint]). *)
Definition decimal (n : N) : string := NilZero.string_of_uint (N.to_uint n).

End Js.

(* ===================================================================== *)
(** ** The event reducer ([useGameEvents.ts], [gameTypes.ts])             *)
(* ===================================================================== *)

Module Reducer.

(** [Move] of gameTypes.ts; [cardCount] is optional and never written by
    the reducer. *)
Record Move := mkMove { move_player : string; move_timestamp : Z }.

(** The normalised event union; [mapDecodedToPayload] also produces the
    [gameOver] and [gameWinner] shapes, which reach the reducer's
    [default] branch. *)
Inductive GameEventPayload :=
| liarsTableCreated (tableId : string)
| playerJoined (tableId player : string)
| suffleCardsForPlayer (tableId player next : string)
| roundStarted (tableId : string)
| tableTrun (tableId player : string)
| cardPlaced (tableId player : string)
| liarCalled (tableId caller : string)
| emptyBulletFired (tableId player : string)
| playerEleminated (tableId player : string)
| gameOver (tableId : string)
| gameWinner (tableId player : string).

Record GameState := mkGameState {
  tableId : string;
  players : list string;
  activePlayers : list string;
  currentTurn : option string;
  moves : list Move;
  roundActive : bool;
  liarCaller : option string;
  lastEvent : option GameEventPayload
}.

Definition createInitialGameState (tid : string) : GameState :=
  {| tableId := tid; players := []; activePlayers := [];
     currentTurn := None; moves := []; roundActive := false;
     liarCaller := None; lastEvent := None |}.

(** [Array.prototype.includes] on strings. *)
Definition includes (x : string) (l : list string) : bool :=
  bool_decide (x ∈ l).

(** [arr.filter((p) => p !== x)]. *)
Definition without (x : string) (l : list string) : list string :=
  filter (λ p, p ≠ x) l.

(** The updater that [updateGameState] hands to [setGameState], applied
    to the previous state.  [now] is the value of [Date.now()] read in
    the [cardPlaced] branch. *)
Definition updateGameState (now : Z) (payload : GameEventPayload)
    (prev : GameState) : GameState :=
  match payload with
  | playerJoined _ player =>
      let alreadyExists := includes player (players prev) in
      {| tableId := tableId prev;
         players := if alreadyExists then players prev
                    else players prev ++ [player];
         activePlayers := if alreadyExists then activePlayers prev
                          else activePlayers prev ++ [player];
         currentTurn := currentTurn prev;
         moves := moves prev;
         roundActive := roundActive prev;
         liarCaller := liarCaller prev;
         lastEvent := Some payload |}
  | roundStarted _ =>
      {| tableId := tableId prev;
         players := players prev;
         activePlayers := activePlayers prev;
         currentTurn := None;
         moves := [];
         roundActive := true;
         liarCaller := None;
         lastEvent := Some payload |}
  | suffleCardsForPlayer _ _ next =>
      {| tableId := tableId prev;
         players := players prev;
         activePlayers := activePlayers prev;
         currentTurn := Some next;
         moves := moves prev;
         roundActive := roundActive prev;
         liarCaller := liarCaller prev;
         lastEvent := Some payload |}
  | tableTrun _ player =>
      {| tableId := tableId prev;
         players := players prev;
         activePlayers := activePlayers prev;
         currentTurn := Some player;
         moves := moves prev;
         roundActive := roundActive prev;
         liarCaller := liarCaller prev;
         lastEvent := Some payload |}
  | cardPlaced _ player =>
      {| tableId := tableId prev;
         players := players prev;
         activePlayers := activePlayers prev;
         currentTurn := currentTurn prev;
         moves := moves prev ++ [mkMove player now];
         roundActive := roundActive prev;
         liarCaller := liarCaller prev;
         lastEvent := Some payload |}
  | liarCalled _ caller =>
      {| tableId := tableId prev;
         players := players prev;
         activePlayers := activePlayers prev;
         currentTurn := currentTurn prev;
         moves := moves prev;
         roundActive := roundActive prev;
         liarCaller := Some caller;
         lastEvent := Some payload |}
  | playerEleminated _ player =>
      {| tableId := tableId prev;
         players := players prev;
         activePlayers := without player (activePlayers prev);
         currentTurn := currentTurn prev;
         moves := moves prev;
         roundActive := roundActive prev;
         liarCaller := liarCaller prev;
         lastEvent := Some payload |}
  | _ =>
      {| tableId := tableId prev;
         players := players prev;
         activePlayers := activePlayers prev;
         currentTurn := currentTurn prev;
         moves := moves prev;
         roundActive := roundActive prev;
         liarCaller := liarCaller prev;
         lastEvent := Some payload |}
  end.

(** A decoded event together with the clock value read while it is
    applied. *)
Definition timed : Type := Z * GameEventPayload.

(** The reducer run over a sequence of events, oldest first. *)
Definition applyAll (evs : list timed) (s : GameState) : GameState :=
  foldl (λ st e, updateGameState e.1 e.2 st) s evs.

(** The identity a turn-setting event carries: [next] of a shuffle,
    [player] of a turn change. *)
Definition turnOf (e : GameEventPayload) : option string :=
  match e with
  | suffleCardsForPlayer _ _ next => Some next
  | tableTrun _ player => Some player
  | _ => None
  end.

Definition isJoinOrEliminate (e : GameEventPayload) : bool :=
  match e with
  | playerJoined _ _ | playerEleminated _ _ => true
  | _ => false
  end.

End Reducer.

(* ===================================================================== *)
(** ** The transaction poller ([useGameEvents.ts], [poll])                *)
(* ===================================================================== *)

Module Poller.
Import Js Reducer.

(** One entry of the answer of [getSignaturesForAddress]; [err] is the
    truthiness of its [err] field (a failed transaction). *)
Record SigInfo := mkSigInfo { signature : string; err : bool }.

(** [decoded.data] of an Anchor event: each field after [toString()],
    [None] when the field is absent. *)
Record EventData := mkEventData {
  d_tableId : option string;
  d_player : option string;
  d_next : option string;
  d_caller : option string
}.

Record Decoded := mkDecoded { name : string; data : EventData }.

(** [x.toString()] on a field that may be absent: a [TypeError] when it
    is. *)
Definition str (field : option string) : outcome string :=
  match field with
  | Some v => Value v
  | None => Threw "Cannot read properties of undefined"
  end.

(** [mapDecodedToPayload]: [Value None] is the [null] result. *)
Definition mapDecodedToPayload (decoded : Decoded) (tableId : string)
    : outcome (option GameEventPayload) :=
  let d := data decoded in
  let foreign :=
    match d_tableId d with
    | Some eventTableId =>
        truthy eventTableId && negb (String.eqb eventTableId tableId)
    | None => false
    end in
  if foreign then Value None
  else if String.eqb (name decoded) "liarsTableCreated" then
    t ← str (d_tableId d); Value (Some (liarsTableCreated t))
  else if String.eqb (name decoded) "playerJoined" then
    t ← str (d_tableId d); p ← str (d_player d);
    Value (Some (playerJoined t p))
  else if String.eqb (name decoded) "suffleCardsForPlayer" then
    t ← str (d_tableId d); p ← str (d_player d); n ← str (d_next d);
    Value (Some (suffleCardsForPlayer t p n))
  else if String.eqb (name decoded) "roundStarted" then
    t ← str (d_tableId d); Value (Some (roundStarted t))
  else if String.eqb (name decoded) "tableTrun" then
    t ← str (d_tableId d); p ← str (d_player d);
    Value (Some (tableTrun t p))
  else if String.eqb (name decoded) "cardPlaced" then
    t ← str (d_tableId d); p ← str (d_player d);
    Value (Some (cardPlaced t p))
  else if String.eqb (name decoded) "liarCalled" then
    t ← str (d_tableId d); c ← str (d_caller d);
    Value (Some (liarCalled t c))
  else if String.eqb (name decoded) "emptyBulletFired" then
    t ← str (d_tableId d); p ← str (d_player d);
    Value (Some (emptyBulletFired t p))
  else if String.eqb (name decoded) "playerEleminated" then
    t ← str (d_tableId d); p ← str (d_player d);
    Value (Some (playerEleminated t p))
  else if String.eqb (name decoded) "gameOver" then
    t ← str (d_tableId d); Value (Some (gameOver t))
  else if String.eqb (name decoded) "gameWinner" then
    t ← str (d_tableId d); p ← str (d_player d);
    Value (Some (gameWinner t p))
  else Value None.

(** The options object of [getSignaturesForAddress]. *)
Record SigRequest := mkSigRequest { until : option string; limit : nat }.

(** The answer to an [await]: the outcome, and whether the effect's
    cleanup ([isActive = false]) ran while the call was pending. *)
Record Awaited (A : Type) := mkAwaited {
  result : outcome A;
  cleanupRan : bool
}.
Arguments mkAwaited {A} result cleanupRan.
Arguments result {A} _.
Arguments cleanupRan {A} _.

(** The remote calls of one poll cycle.  [getTransaction] gives [None]
    for a missing transaction or one without [meta.logMessages];
    [eventParser_decode] is Anchor's event coder ([None] is its [null]). *)
Record Rpc := mkRpc {
  getSignaturesForAddress : SigRequest → Awaited (list SigInfo);
  getTransaction : string → Awaited (option (list string));
  eventParser_decode : string → outcome (option Decoded)
}.

(** The variables that the polling effect closes over. *)
Record PollState := mkPollState {
  isActive : bool;
  lastSignature : option string;
  isInitialized : bool
}.

(** A fresh subscription, as the effect sets it up. *)
Definition freshSubscription : PollState :=
  {| isActive := true; lastSignature := None; isInitialized := false |}.

(** What a cycle hands to the consumers: the shuffle callback for the
    current wallet, and a payload given to both [updateGameState] and the
    event handler. *)
Inductive Emission :=
| CardsShuffled (next : string)
| Deliver (payload : GameEventPayload).

Definition marker : string := "Program data: ".

(** The body of the loop over [tx.meta.logMessages] for one line.  Every
    throw inside it is caught by the innermost [catch] and skips the line;
    the consumers' callbacks are taken not to throw. *)
Definition processLog (rpc : Rpc) (tableId : string)
    (walletStr : option string) (log : string) : list Emission :=
  if negb (String.prefix marker log) then []
  else
    let base64Data :=
      String.substring (String.length marker)
        (String.length log - String.length marker) log in
    match eventParser_decode rpc base64Data with
    | Threw _ => []
    | Value None => []
    | Value (Some decoded) =>
        match mapDecodedToPayload decoded tableId with
        | Threw _ => []
        | Value None => []
        | Value (Some payload) =>
            (match payload, walletStr with
             | suffleCardsForPlayer _ player next, Some w =>
                 if truthy w && String.eqb player w
                 then [CardsShuffled next] else []
             | _, _ => []
             end) ++ [Deliver payload]
        end
    end.

(** The loop over [newSigs]; [active] is [isActive] as the loop reads
    it, and the result carries its value when the loop ends. *)
Fixpoint processBatch (rpc : Rpc) (tableId : string)
    (walletStr : option string) (newSigs : list SigInfo) (active : bool)
    : bool * list Emission :=
  match newSigs with
  | [] => (active, [])
  | sigInfo :: rest =>
      if err sigInfo || negb active
      then processBatch rpc tableId walletStr rest active
      else
        let tx := getTransaction rpc (signature sigInfo) in
        let active' := active && negb (cleanupRan tx) in
        let out :=
          match result tx with
          | Threw _ => []
          | Value None => []
          | Value (Some logMessages) =>
              flat_map (processLog rpc tableId walletStr) logMessages
          end in
        let r := processBatch rpc tableId walletStr rest active' in
        (r.1, out ++ r.2)
  end.

(** The request of a cycle: newer than the cursor, at most ten, or the
    single newest signature while there is no cursor. *)
Definition request (st : PollState) : SigRequest :=
  match lastSignature st with
  | Some s => if truthy s then mkSigRequest (Some s) 10
              else mkSigRequest None 1
  | None => mkSigRequest None 1
  end.

(** A cycle from the moment its listing call settles.  [st] holds the
    effect's variables as they are at that moment, not as they were when
    the cycle started: the interval starts cycles without waiting for the
    previous one, so another cycle may have assigned them meanwhile.
    [isInitialized] is read here, after the [await]. *)
Definition resume (rpc : Rpc) (tableId : string)
    (walletStr : option string) (listing : Awaited (list SigInfo))
    (st : PollState) : PollState * list Emission :=
  let active := isActive st && negb (cleanupRan listing) in
  match result listing with
  | Threw _ =>
      ({| isActive := active; lastSignature := lastSignature st;
          isInitialized := isInitialized st |}, [])
  | Value [] =>
      ({| isActive := active; lastSignature := lastSignature st;
          isInitialized := isInitialized st |}, [])
  | Value (newest :: older) =>
      if negb (isInitialized st) then
        ({| isActive := active;
            lastSignature := Some (signature newest);
            isInitialized := true |}, [])
      else
        let newSigs := reverse (newest :: older) in
        let r := processBatch rpc tableId walletStr newSigs active in
        ({| isActive := r.1;
            lastSignature := Some (signature newest);
            isInitialized := isInitialized st |}, r.2)
  end.

(** One call of [poll] that no other cycle overlaps: the request is
    built from the variables at the call, and they are the same when the
    listing settles. *)
Definition poll (rpc : Rpc) (tableId : string) (walletStr : option string)
    (st : PollState) : PollState * list Emission :=
  if negb (isActive st) then (st, [])
  else resume rpc tableId walletStr
         (getSignaturesForAddress rpc (request st)) st.

(** The polling effect with its cycles in flight: the variables, and the
    requests of the cycles whose listing has not settled yet, in the
    order in which the cycles started. *)
Record Polling := mkPolling {
  vars : PollState;
  waiting : list SigRequest
}.

(** What happens next: a cycle starts (the initial call, or the interval
    firing), or the listing of the cycle at position [k] of [waiting]
    settles and that cycle runs to its end; the transaction fetches of
    its batch are taken to settle before the next occurrence. *)
Inductive Occurrence :=
| Starts
| Settles (k : nat).

Definition occur (rpc : Rpc) (tableId : string)
    (walletStr : option string) (o : Occurrence) (p : Polling)
    : Polling * list Emission :=
  match o with
  | Starts =>
      if negb (isActive (vars p)) then (p, [])
      else ({| vars := vars p;
               waiting := waiting p ++ [request (vars p)] |}, [])
  | Settles k =>
      match waiting p !! k with
      | None => (p, [])
      | Some req =>
          let r := resume rpc tableId walletStr
                     (getSignaturesForAddress rpc req) (vars p) in
          ({| vars := r.1; waiting := delete k (waiting p) |}, r.2)
      end
  end.

(** A schedule of occurrences; the result lists what each occurrence
    handed to the consumers. *)
Fixpoint occurAll (rpc : Rpc) (tableId : string)
    (walletStr : option string) (os : list Occurrence) (p : Polling)
    : Polling * list (list Emission) :=
  match os with
  | [] => (p, [])
  | o :: rest =>
      let r := occur rpc tableId walletStr o p in
      let r' := occurAll rpc tableId walletStr rest r.1 in
      (r'.1, r.2 :: r'.2)
  end.

(** The entries of a newest-first history that come before signature
    [u]. *)
Fixpoint newerThan (u : string) (history : list SigInfo) : list SigInfo :=
  match history with
  | [] => []
  | i :: older =>
      if String.eqb (signature i) u then [] else i :: newerThan u older
  end.

(** The ledger side of [getSignaturesForAddress], from the RPC's
    contract: the signatures of the address newest first, cut at the
    [until] signature and at [limit] entries. *)
Definition listSignatures (history : list SigInfo) (req : SigRequest)
    : list SigInfo :=
  take (limit req)
    (match until req with
     | Some u => newerThan u history
     | None => history
     end).

(** What one listed transaction contributes to a batch while the
    subscription stays active. *)
Definition txEmissions (rpc : Rpc) (tableId : string)
    (walletStr : option string) (sigInfo : SigInfo) : list Emission :=
  if err sigInfo then []
  else match result (getTransaction rpc (signature sigInfo)) with
       | Threw _ => []
       | Value None => []
       | Value (Some logMessages) =>
           flat_map (processLog rpc tableId walletStr) logMessages
       end.

End Poller.

(* ===================================================================== *)
(** ** The connection-health hook ([useConnectionStatus])                 *)
(* ===================================================================== *)

Module Health.

Inductive ConnectionStatus := connected | disconnected | reconnecting.

(** How a [getSlot()] probe settles. *)
Inductive Probe := resolved | rejected.

#[global] Instance Probe_eq_dec : EqDecision Probe.
Proof. solve_decision. Defined.

(** The [status] state and the [failCountRef] counter. *)
Record Monitor := mkMonitor { status : ConnectionStatus; failCount : Z }.

(** [useState("connected")], [useRef(0)]. *)
Definition mounted : Monitor := {| status := connected; failCount := 0 |}.

(** The handlers of the check issued when the effect runs. *)
Definition initialCheck (p : Probe) (m : Monitor) : Monitor :=
  match p with
  | resolved => {| status := connected; failCount := 0 |}
  | rejected => {| status := disconnected; failCount := 1 |}
  end.

(** The handlers of a check issued by the interval. *)
Definition periodicCheck (p : Probe) (m : Monitor) : Monitor :=
  match p with
  | resolved => {| status := connected; failCount := 0 |}
  | rejected =>
      let n := failCount m + 1 in
      {| status := if 2 <=? n then disconnected else reconnecting;
         failCount := n |}
  end.

(** The hook over the probes of one mount, in the order they settle: the
    initial check first, the interval's checks after it. *)
Definition useConnectionStatus (probes : list Probe) : Monitor :=
  match probes with
  | [] => mounted
  | first :: later =>
      foldl (λ m p, periodicCheck p m) (initialCheck first mounted) later
  end.

(** The number of rejected probes in a row at the front of a list. *)
Fixpoint leadingRejected (probes : list Probe) : Z :=
  match probes with
  | rejected :: later => 1 + leadingRejected later
  | _ => 0
  end.

(** The number of consecutive failures that a sequence of probes ends
    with. *)
Definition failureStreak (probes : list Probe) : Z :=
  leadingRejected (reverse probes).

(** The classification that the spec words give for a streak. *)
Definition classify (streak : Z) : ConnectionStatus :=
  if streak =? 0 then connected
  else if streak =? 1 then reconnecting
  else disconnected.

End Health.

(* ===================================================================== *)
(** ** The card cache ([gameTypes.ts], second document)                   *)
(* ===================================================================== *)

Module CardCache.
Import Js.

(** The shapes in which the account decoder may hand over an encrypted
    128-bit handle, as [extractHandle] tells them apart: an object with a
    [_bn] field whose [toString()] is the number, a tuple struct holding
    the number under key ["0"], an array, or nothing. *)
Inductive Euint128 :=
| WithBn (n : N)
| Tuple (n : N)
| Wrapped (elements : list N)
| Absent.

Definition extractHandle (euint128 : Euint128) : N :=
  match euint128 with
  | WithBn n => n
  | Tuple n => n
  | Wrapped (first :: _) => first
  | Wrapped [] => 0%N
  | Absent => 0%N
  end.

(** [x?.toString?.()]: the decimal number of a [_bn] object, the
    default [Object.prototype.toString] of a plain tuple object, the
    comma-joined elements of an array, [undefined] for nothing. *)
Definition toStringOf (euint128 : Euint128) : option string :=
  match euint128 with
  | WithBn n => Some (decimal n)
  | Tuple _ => Some "[object Object]"
  | Wrapped elements => Some (String.concat "," (decimal <$> elements))
  | Absent => None
  end.

(** A held card as stored on chain: two encrypted handles. *)
Record EncryptedCard := mkEncryptedCard {
  card_shape : Euint128;
  card_value : Euint128
}.

Record DecryptedCard := mkDecryptedCard { shape : Z; value : Z }.

Record CardCache := mkCardCache {
  fingerprint : string;
  cards : list DecryptedCard
}.

(** What sits under a [localStorage] key, by what the code can do with
    it: the empty text (falsy), a text at which [JSON.parse] throws, or
    the text [JSON.stringify] wrote for a [CardCache]. *)
Inductive Stored :=
| EmptyText
| Malformed
| Json (cache : CardCache).

Definition getCardCacheKey (tableId wallet : string) : string :=
  "liar-cards-" +:+ tableId +:+ "-" +:+ wallet.

Definition getEncryptedFingerprint (encryptedCards : list EncryptedCard)
    : string :=
  String.concat "|"
    ((λ c, default "" (toStringOf (card_shape c)) +:+ ":" +:+
           default "" (toStringOf (card_value c))) <$> encryptedCards).

(** [loadCachedCards]: the result and the store it leaves. *)
Definition loadCachedCards (tableId wallet : string)
    (encryptedCards : list EncryptedCard)
    (localStorage : gmap string Stored)
    : option (list DecryptedCard) * gmap string Stored :=
  let key := getCardCacheKey tableId wallet in
  match localStorage !! key with
  | None => (None, localStorage)
  | Some EmptyText => (None, localStorage)
  | Some Malformed => (None, localStorage)
  | Some (Json cached) =>
      let currentFingerprint := getEncryptedFingerprint encryptedCards in
      if String.eqb (fingerprint cached) currentFingerprint
         && (0 <? Z.of_nat (length (cards cached)))
      then (Some (cards cached), localStorage)
      else (None, delete key localStorage)
  end.

Definition saveCachedCards (tableId wallet : string)
    (encryptedCards : list EncryptedCard) (decrypted : list DecryptedCard)
    (localStorage : gmap string Stored) : gmap string Stored :=
  let key := getCardCacheKey tableId wallet in
  let cache := {| fingerprint := getEncryptedFingerprint encryptedCards;
                  cards := decrypted |} in
  <[key := Json cache]> localStorage.

Definition clearCardCache (tableId wallet : string)
    (localStorage : gmap string Stored) : gmap string Stored :=
  delete (getCardCacheKey tableId wallet) localStorage.

(** The stores that the hook can leave behind.  The three helpers are
    private to the module and the only code that touches the card-cache
    keys.  [saveCachedCards] has a single call site, at the end of
    [decryptMyCards], reached only with a non-empty hand and one
    decrypted card pushed for each held card. *)
Inductive Written : gmap string Stored → Prop :=
| written_start store :
    (∀ tableId wallet, store !! getCardCacheKey tableId wallet = None) →
    Written store
| written_save tableId wallet held decrypted store :
    Written store →
    held ≠ [] →
    length decrypted = length held →
    Written (saveCachedCards tableId wallet held decrypted store)
| written_load tableId wallet encryptedCards store :
    Written store →
    Written (loadCachedCards tableId wallet encryptedCards store).2
| written_clear tableId wallet store :
    Written store →
    Written (clearCardCache tableId wallet store).

End CardCache.

(* ===================================================================== *)
(** ** The table hook ([useTable] in [gameTypes.ts], second document)     *)
(* ===================================================================== *)

Module Table.
Import Js CardCache.

(** Program-derived addresses, by the seeds they are derived from. *)
Inductive Address :=
| TablePda (tableId : string)
| PlayerPda (tableId owner : string)
| AllowancePda (handle : N) (allowedAddress : string).

(** The remote calls and waits of the hook's actions. *)
Inductive Effect :=
| GetAccountInfo (address : Address)
| FetchLiarsTable (address : Address)
| FetchPlayer (address : Address)
| BuildTransaction (method : string) (remainingAccounts : list Address)
| GetLatestBlockhash
| SimulateTransaction
| SignTransaction
| SendRawTransaction
| ConfirmTransaction
| Sleep (ms : Z)
| Decrypt (shapeHandle valueHandle : string).

(** The decoded [liarsTable] account.  [t_suffleTrun] is [None] when the
    field is not a number; [t_cardsOnTable] is the length of that array,
    [None] when the field is not an array. *)
Record LiarsTable := mkLiarsTable {
  t_tableId : string;
  t_players : list string;
  t_isOpen : bool;
  t_isOver : bool;
  t_tableCard : Z;
  t_trunToPlay : Z;
  t_suffleTrun : option Z;
  t_cardsOnTable : option Z
}.

(** The decoded [player] account. *)
Record Player := mkPlayer {
  p_characterId : option string;
  p_cards : option (list EncryptedCard)
}.

(** What the ledger answers at one moment; [getAccountInfo] tells
    whether the account exists. *)
Record Chain := mkChain {
  getAccountInfo : Address → outcome bool;
  fetchLiarsTable : Address → outcome LiarsTable;
  fetchPlayer : Address → outcome Player
}.

Record SimResult := mkSimResult {
  sim_err : option string;
  sim_logs : option (list string)
}.

(** The answers met while one transaction is built, signed and sent. *)
Record Submission := mkSubmission {
  built : outcome unit;
  latestBlockhash : outcome unit;
  simulated : outcome SimResult;
  signed : outcome unit;
  sent : outcome unit;
  confirmed : outcome unit
}.

(** The confidential network: the two plaintexts of a card, after
    [parseInt]. *)
Record Inco := mkInco { decrypt : string → string → outcome (Z * Z) }.

(** What the wallet adapter provides; a capability is present or not. *)
Record Wallet := mkWallet {
  publicKey : option string;
  anchorWallet : bool;
  sendTransaction : bool;
  signTransaction : bool;
  signMessage : bool
}.

Inductive GameState := lobby | playing | ended.

#[global] Instance GameState_eq_dec : EqDecision GameState.
Proof. solve_decision. Defined.

Record PlayerInfo := mkPlayerInfo {
  address : string;
  characterId : option string;
  encryptedCards : list EncryptedCard
}.

Record TableData := mkTableData {
  tableId : string;
  players : list string;
  playerInfos : list PlayerInfo;
  isOpen : bool;
  tableCard : Z;
  trunToPlay : Z;
  cardsOnTable : Z
}.

(** The state and refs of the hook that these actions read or write,
    and the browser's [localStorage]. *)
Record Hook := mkHook {
  tableData : option TableData;
  tableDataRef : option TableData;
  isLoading : bool;
  isJoining : bool;
  error : option string;
  gameState : GameState;
  currentTurnPlayer : option string;
  shuffleTurn : Z;
  isOver : bool;
  myCards : list DecryptedCard;
  isDecryptingCards : bool;
  decryptFailed : bool;
  cardHandleMap : gmap string DecryptedCard;
  localStorage : gmap string Stored
}.

Definition setTableData v h :=
  let 'mkHook _ b c d e f g i j k l m n o := h in
  mkHook v b c d e f g i j k l m n o.
Definition setTableDataRef v h :=
  let 'mkHook a _ c d e f g i j k l m n o := h in
  mkHook a v c d e f g i j k l m n o.
Definition setIsLoading v h :=
  let 'mkHook a b _ d e f g i j k l m n o := h in
  mkHook a b v d e f g i j k l m n o.
Definition setIsJoining v h :=
  let 'mkHook a b c _ e f g i j k l m n o := h in
  mkHook a b c v e f g i j k l m n o.
Definition setError v h :=
  let 'mkHook a b c d _ f g i j k l m n o := h in
  mkHook a b c d v f g i j k l m n o.
Definition setGameState v h :=
  let 'mkHook a b c d e _ g i j k l m n o := h in
  mkHook a b c d e v g i j k l m n o.
Definition setCurrentTurnPlayer v h :=
  let 'mkHook a b c d e f _ i j k l m n o := h in
  mkHook a b c d e f v i j k l m n o.
Definition setShuffleTurn v h :=
  let 'mkHook a b c d e f g _ j k l m n o := h in
  mkHook a b c d e f g v j k l m n o.
Definition setIsOver v h :=
  let 'mkHook a b c d e f g i _ k l m n o := h in
  mkHook a b c d e f g i v k l m n o.
Definition setMyCards v h :=
  let 'mkHook a b c d e f g i j _ l m n o := h in
  mkHook a b c d e f g i j v l m n o.
Definition setIsDecryptingCards v h :=
  let 'mkHook a b c d e f g i j k _ m n o := h in
  mkHook a b c d e f g i j k v m n o.
Definition setDecryptFailed v h :=
  let 'mkHook a b c d e f g i j k l _ n o := h in
  mkHook a b c d e f g i j k l v n o.
Definition setCardHandleMap v h :=
  let 'mkHook a b c d e f g i j k l m _ o := h in
  mkHook a b c d e f g i j k l m v o.
Definition setLocalStorage v h :=
  let 'mkHook a b c d e f g i j k l m n _ := h in
  mkHook a b c d e f g i j k l m n v.

(** The hook as [useTable] creates it. *)
Definition initialHook : Hook :=
  {| tableData := None; tableDataRef := None; isLoading := true;
     isJoining := false; error := None; gameState := lobby;
     currentTurnPlayer := None; shuffleTurn := -1; isOver := false;
     myCards := []; isDecryptingCards := false; decryptFailed := false;
     cardHandleMap := ∅; localStorage := ∅ |}.

(** An async action of the hook: from the state it starts in to what it
    returns or throws, the state it leaves, and the remote calls it
    made, in order. *)
Definition Async (A : Type) : Type :=
  Hook → outcome A * Hook * list Effect.

#[global] Instance Async_ret : MRet Async := λ A a h, (Value a, h, []).

#[global] Instance Async_bind : MBind Async := λ A B k c h,
  match c h with
  | (Threw m, h', es) => (Threw m, h', es)
  | (Value a, h', es) =>
      let '(r, h'', es') := k a h' in (r, h'', es ++ es')
  end.

(** A state setter. *)
Definition modify (f : Hook → Hook) : Async unit :=
  λ h, (Value (), f h, []).

(** Reading the state. *)
Definition current : Async Hook := λ h, (Value h, h, []).

(** An awaited remote call and its answer. *)
Definition call {A} (e : Effect) (answer : outcome A) : Async A :=
  λ h, (answer, h, [e]).

Definition throw {A} (message : string) : Async A :=
  λ h, (Threw message, h, []).

(** [try { body } catch (err) { handler(err.message) }]. *)
Definition tryCatch {A} (body : Async A) (handler : string → Async A)
    : Async A :=
  λ h, match body h with
       | (Threw m, h', es) =>
           let '(r, h'', es') := handler m h' in (r, h'', es ++ es')
       | done => done
       end.

(** [try { body } finally { cleanup }]. *)
Definition finally {A} (body : Async A) (cleanup : Hook → Hook)
    : Async A :=
  λ h, let '(r, h', es) := body h in (r, cleanup h', es).

(** [Promise.all(items.map(f))]. *)
Fixpoint forEach {A B} (f : A → Async B) (items : list A)
    : Async (list B) :=
  match items with
  | [] => mret []
  | x :: rest => y ← f x; ys ← forEach f rest; mret (y :: ys)
  end.

(** [x || null] on an optional string. *)
Definition orNull (s : option string) : option string :=
  match s with
  | Some v => if truthy v then Some v else None
  | None => None
  end.

(** The body of the [playerAddresses.map] callback in [fetchTable]. *)
Definition fetchPlayerInfo (tableIdString : string) (chain : Chain)
    (addr : string) : Async PlayerInfo :=
  tryCatch
    (playerAccount ← call (FetchPlayer (PlayerPda tableIdString addr))
                       (fetchPlayer chain (PlayerPda tableIdString addr));
     mret {| address := addr;
             characterId := orNull (p_characterId playerAccount);
             encryptedCards := default [] (p_cards playerAccount) |})
    (λ _, mret {| address := addr; characterId := None;
                  encryptedCards := [] |}).

Definition fetchTable (wallet : Wallet) (tableIdString : string)
    (chain : Chain) (isInitialFetch : bool) : Async unit :=
  finally
    (tryCatch
       ((if isInitialFetch then modify (setIsLoading true) else mret ());;
        accountInfo ← call (GetAccountInfo (TablePda tableIdString))
                        (getAccountInfo chain (TablePda tableIdString));
        if negb accountInfo then
          modify (setError (Some "Table not found"));;
          modify (setTableData None)
        else if negb (anchorWallet wallet) then mret ()
        else
          table ← call (FetchLiarsTable (TablePda tableIdString))
                    (fetchLiarsTable chain (TablePda tableIdString));
          let playerAddresses := t_players table in
          playerInfos ← forEach (fetchPlayerInfo tableIdString chain)
                          playerAddresses;
          let newTableData :=
            {| tableId := t_tableId table;
               players := playerAddresses;
               playerInfos := playerInfos;
               isOpen := t_isOpen table;
               tableCard := t_tableCard table;
               trunToPlay := t_trunToPlay table;
               cardsOnTable := default 0 (t_cardsOnTable table) |} in
          modify (setTableDataRef (Some newTableData));;
          modify (setTableData (Some newTableData));;
          modify (setShuffleTurn (default (-1) (t_suffleTrun table)));;
          modify (setIsOver (t_isOver table));;
          (if t_isOver table then modify (setGameState ended)
           else if t_isOpen table then modify (setGameState lobby)
           else if 0 <? Z.of_nat (length playerAddresses) then
             modify (setGameState playing);;
             (if (0 <=? t_trunToPlay table)
                 && (t_trunToPlay table
                       <? Z.of_nat (length playerAddresses))
              then modify (setCurrentTurnPlayer
                             (playerAddresses
                                !! Z.to_nat (t_trunToPlay table)))
              else mret ())
           else mret ());;
          modify (setError None))
       (λ message,
          modify (setError (Some (orElse message
                                    "Failed to fetch table")))))
    (λ h, if isInitialFetch then setIsLoading false h else h).

Definition newline : string := String (Ascii.ascii_of_nat 10) EmptyString.

(** The throw of the simulation step: [simResult.value.err] truthy. *)
Definition simulationFailure (r : SimResult) : option string :=
  match sim_err r with
  | Some err =>
      Some ("Simulation failed: " +:+ err +:+ newline +:+ "Logs: " +:+
            match sim_logs r with
            | Some logs => String.concat newline logs
            | None => "undefined"
            end)
  | None => None
  end.

Definition characterTaken : string :=
  "This character is already taken by another player".

(** [tableData?.playerInfos.filter(...).map(...) || []]. *)
Definition takenCharacters (h : Hook) : list string :=
  match tableData h with
  | Some td => omap characterId (playerInfos td)
  | None => []
  end.

(** [joinTable(characterId)].  [chain] is the ledger as the action finds
    it, [submission] the answers to the steps of its transaction, and
    [chainAfter] the ledger as the refetch after confirmation finds
    it. *)
Definition joinTable (wallet : Wallet) (tableIdString : string)
    (chain : Chain) (submission : Submission) (chainAfter : Chain)
    (characterId : string) : Async bool :=
  match publicKey wallet with
  | Some pk =>
      if negb (anchorWallet wallet && sendTransaction wallet) then
        modify (setError (Some "Wallet not connected"));; mret false
      else if negb (truthy characterId) then
        modify (setError (Some "Please select a character"));; mret false
      else
        h ← current;
        if bool_decide (characterId ∈ takenCharacters h) then
          modify (setError (Some characterTaken));;
          mret false
        else
          modify (setIsJoining true);;
          modify (setError None);;
          finally
            (tryCatch
               (let playerAddress := PlayerPda tableIdString pk in
                existingAccount ← call (GetAccountInfo playerAddress)
                                    (getAccountInfo chain playerAddress);
                if (existingAccount : bool) then
                  fetchTable wallet tableIdString chain false;;
                  mret true
                else
                  call (BuildTransaction "joinTable" [])
                    (built submission);;
                  call GetLatestBlockhash (latestBlockhash submission);;
                  simResult ← call SimulateTransaction
                                (simulated submission);
                  match simulationFailure simResult with
                  | Some message => throw message
                  | None =>
                      call SignTransaction
                        (if signTransaction wallet then signed submission
                         else Threw "signTransaction is not a function");;
                      call SendRawTransaction (sent submission);;
                      call ConfirmTransaction (confirmed submission);;
                      fetchTable wallet tableIdString chainAfter false;;
                      mret true
                  end)
               (λ message,
                  modify (setError (Some (orElse message
                                            "Failed to join table")));;
                  mret false))
            (setIsJoining false)
  | None =>
      modify (setError (Some "Wallet not connected"));; mret false
  end.

(** All the capabilities that [decryptMyCards] asks for. *)
Definition canDecrypt (wallet : Wallet) : bool :=
  bool_decide (is_Some (publicKey wallet))
  && signMessage wallet && signTransaction wallet
  && anchorWallet wallet && sendTransaction wallet.

(** The loop that decrypts one card at a time; [decryptedCards] is the
    local array built so far. *)
Fixpoint decryptEach (inco : Inco) (handles : list (string * string))
    (decryptedCards : list DecryptedCard) : Async (list DecryptedCard) :=
  match handles with
  | [] => mret decryptedCards
  | (shapeHandle, valueHandle) :: rest =>
      plain ← call (Decrypt shapeHandle valueHandle)
                (decrypt inco shapeHandle valueHandle);
      let decryptedCard := {| shape := plain.1; value := plain.2 |} in
      modify (λ h, setCardHandleMap
                     (<[shapeHandle +:+ ":" +:+ valueHandle
                          := decryptedCard]> (cardHandleMap h)) h);;
      modify (λ h, setMyCards (myCards h ++ [decryptedCard]) h);;
      decryptEach inco rest (decryptedCards ++ [decryptedCard])
  end.

(** The [try]/[catch]/[finally] block of [decryptMyCards], entered once
    [isDecryptingCards] has been set. *)
Definition decryptPipeline (tableIdString pk : string) (chain : Chain)
    (submission : Submission) (inco : Inco)
    : Async (list DecryptedCard) :=
  finally
    (tryCatch
       (let playerAddress := PlayerPda tableIdString pk in
        player ← call (FetchPlayer playerAddress)
                   (fetchPlayer chain playerAddress);
        match p_cards player with
        | None | Some [] => mret []
        | Some held =>
            let handles :=
              (λ card, (decimal (extractHandle (card_shape card)),
                        decimal (extractHandle (card_value card))))
                <$> held in
            let remainingAccounts :=
              flat_map
                (λ card,
                   [AllowancePda (extractHandle (card_shape card)) pk;
                    AllowancePda (extractHandle (card_value card)) pk])
                held in
            call (BuildTransaction "grantCardAccess" remainingAccounts)
              (built submission);;
            call GetLatestBlockhash (latestBlockhash submission);;
            call SignTransaction (signed submission);;
            call SendRawTransaction (sent submission);;
            call ConfirmTransaction (confirmed submission);;
            call (Sleep 3000) (Value ());;
            decryptedCards ← decryptEach inco handles [];
            modify (λ h, setLocalStorage
                           (saveCachedCards tableIdString pk held
                              decryptedCards (localStorage h)) h);;
            mret decryptedCards
        end)
       (λ _, modify (setDecryptFailed true);; mret []))
    (setIsDecryptingCards false).

(** [decryptMyCards()]. *)
Definition decryptMyCards (wallet : Wallet) (tableIdString : string)
    (chain : Chain) (submission : Submission) (inco : Inco)
    : Async (list DecryptedCard) :=
  match publicKey wallet with
  | Some pk =>
      if canDecrypt wallet then
        modify (setIsDecryptingCards true);;
        decryptPipeline tableIdString pk chain submission inco
      else mret []
  | None => mret []
  end.

(** The current player's encrypted cards as the hook derives them from
    [tableData]. *)
Definition myEncryptedCards (wallet : Wallet) (h : Hook)
    : list EncryptedCard :=
  match publicKey wallet, tableData h with
  | Some pk, Some td =>
      match list_find (λ p, address p = pk) (playerInfos td) with
      | Some (_, p) => encryptedCards p
      | None => []
      end
  | _, _ => []
  end.

(** A call of [decryptMyCards()] up to its first [await], which is all
    that runs when a caller does not await it: the capability check and
    [setIsDecryptingCards(true)].  The result is the public key with
    which the invocation then goes on to [decryptPipeline], or nothing
    when it has returned already. *)
Definition decryptCall (wallet : Wallet) : Async (option string) :=
  match publicKey wallet with
  | Some pk =>
      if canDecrypt wallet then
        modify (setIsDecryptingCards true);;
        mret (Some pk)
      else mret None
  | None => mret None
  end.

(** The hook's effect that loads the cached cards or starts the
    decryption.  [render] holds the values of the render that the effect
    belongs to: its guards read them, not what an earlier effect of the
    same commit has set since; only [localStorage] is read as it is.  The
    effect does not await [decryptMyCards]; the result is the invocation
    it leaves in flight, if any. *)
Definition autoDecrypt (wallet : Wallet) (tableIdString : string)
    (render : Hook) : Async (option string) :=
  match publicKey wallet with
  | None => mret None
  | Some pk =>
      if (length (myEncryptedCards wallet render) =? 0)%nat
         || (0 <? length (myCards render))%nat then mret None
      else if isDecryptingCards render || decryptFailed render
      then mret None
      else if negb (bool_decide (gameState render = playing))
      then mret None
      else
        h ← current;
        let loaded :=
          loadCachedCards tableIdString pk (myEncryptedCards wallet render)
            (localStorage h) in
        modify (setLocalStorage loaded.2);;
        match loaded.1 with
        | Some cached => modify (setMyCards cached);; mret None
        | None => decryptCall wallet
        end
  end.

(** The auto-decrypt effect of the table pages, which calls the hook's
    [decryptMyCards] from the values the hook returned to the render
    [render]; the call is not awaited either. *)
Definition pageAutoDecrypt (wallet : Wallet) (render : Hook)
    : Async (option string) :=
  if bool_decide (gameState render = playing)
     && (0 <? length (myEncryptedCards wallet render))%nat
     && (length (myCards render) =? 0)%nat
     && negb (isDecryptingCards render)
     && negb (decryptFailed render)
  then decryptCall wallet
  else mret None.

(** The effects of one commit in which both auto-decrypt effects run,
    the hook's before the page's, both on the values of the same render.
    The result lists the invocations of [decryptMyCards] that the commit
    leaves in flight. *)
Definition commitEffects (wallet : Wallet) (tableIdString : string)
    (render : Hook) : Async (list string) :=
  byHook ← autoDecrypt wallet tableIdString render;
  byPage ← pageAutoDecrypt wallet render;
  mret (omap id [byHook; byPage]).

(** The invocations in flight go on from their first [await] to their
    end, one after the other: the schedule in which the answers to one
    invocation all arrive before those to the next. *)
Fixpoint settle (tableIdString : string) (chain : Chain)
    (submission : Submission) (inco : Inco) (inFlight : list string)
    : Async (list (list DecryptedCard)) :=
  match inFlight with
  | [] => mret []
  | pk :: rest =>
      cards ← decryptPipeline tableIdString pk chain submission inco;
      others ← settle tableIdString chain submission inco rest;
      mret (cards :: others)
  end.

(** The calls that only read the ledger. *)
Definition isRead (e : Effect) : bool :=
  match e with
  | GetAccountInfo _ | FetchLiarsTable _ | FetchPlayer _ => true
  | _ => false
  end.

End Table.

(* ===================================================================== *)
(** ** The decryption pipeline of [useTable.ts]                           *)
(* ===================================================================== *)

Module UseTable.
Import Js CardCache Table.

(** The loop that decrypts one card at a time and reveals it. *)
Fixpoint decryptEach (inco : Inco) (handles : list (string * string))
    : Async unit :=
  match handles with
  | [] => mret ()
  | (shapeHandle, valueHandle) :: rest =>
      plain ← call (Decrypt shapeHandle valueHandle)
                (decrypt inco shapeHandle valueHandle);
      modify (λ h, setMyCards
                     (myCards h ++ [{| shape := plain.1;
                                       value := plain.2 |}]) h);;
      decryptEach inco rest
  end.

(** [decryptMyCards()] as [useTable.ts] has it.  The number of cards is
    logged before the guard, so a record without a card list throws
    there; the confirmation is awaited without a timeout; nothing is
    cached; the result is [myCards] as the callback closed over it,
    [closedOver]. *)
Definition decryptMyCards (wallet : Wallet) (tableIdString : string)
    (chain : Chain) (submission : Submission) (inco : Inco)
    (closedOver : list DecryptedCard) : Async (list DecryptedCard) :=
  match publicKey wallet with
  | Some pk =>
      if canDecrypt wallet then
        modify (setIsDecryptingCards true);;
        finally
          (tryCatch
             (let playerAddress := PlayerPda tableIdString pk in
              player ← call (FetchPlayer playerAddress)
                         (fetchPlayer chain playerAddress);
              match p_cards player with
              | None =>
                  throw "Cannot read properties of undefined (reading 'length')"
              | Some [] => mret []
              | Some held =>
                  let handles :=
                    (λ card, (decimal (extractHandle (card_shape card)),
                              decimal (extractHandle (card_value card))))
                      <$> held in
                  let remainingAccounts :=
                    flat_map
                      (λ card,
                         [AllowancePda (extractHandle (card_shape card)) pk;
                          AllowancePda (extractHandle (card_value card)) pk])
                      held in
                  call (BuildTransaction "grantCardAccess"
                          remainingAccounts)
                    (built submission);;
                  call GetLatestBlockhash (latestBlockhash submission);;
                  call SignTransaction (signed submission);;
                  call SendRawTransaction (sent submission);;
                  call ConfirmTransaction (confirmed submission);;
                  call (Sleep 3000) (Value ());;
                  decryptEach inco handles;;
                  mret closedOver
              end)
             (λ _, modify (setDecryptFailed true);; mret []))
          (setIsDecryptingCards false)
      else mret []
  | None => mret []
  end.

End UseTable.

(* ===================================================================== *)
(** ** The program-event listeners ([eventListener.ts])                   *)
(* ===================================================================== *)

Module Listener.
Import Js Reducer.

(** The typed events of the program, as the listeners receive them, each
    field after [toString()]. *)
Inductive ProgramEvent :=
| LiarsTableCreatedEvent (tableId : string)
| PlayerJoinedEvent (tableId player : string)
| SuffleCardsForPlayerEvent (tableId player next : string)
| RoundStartedEvent (tableId : string)
| TableTrunEvent (tableId player : string)
| CardPlacedEvent (tableId player : string)
| LiarCalledEvent (tableId caller : string)
| EmptyBulletFiredEvent (tableId player : string)
| PlayerEleminatedEvent (tableId player : string).

Inductive AnimationType :=
| card_placed | liar_called | empty_bullet | player_eliminated
| round_started | player_joined.

Record AnimationTrigger := mkAnimationTrigger {
  anim_type : AnimationType;
  anim_player : option string;
  anim_timestamp : Z
}.

(** What one listener call does: the state after its updater, and the
    calls to [onCardsShuffled], [onAnimation] and [onEvent]. *)
Record Handled := mkHandled {
  state : GameState;
  cardsShuffled : option string;
  animation : option AnimationTrigger;
  event : option GameEventPayload
}.

Definition eventTableId (ev : ProgramEvent) : string :=
  match ev with
  | LiarsTableCreatedEvent t | PlayerJoinedEvent t _
  | SuffleCardsForPlayerEvent t _ _ | RoundStartedEvent t
  | TableTrunEvent t _ | CardPlacedEvent t _ | LiarCalledEvent t _
  | EmptyBulletFiredEvent t _ | PlayerEleminatedEvent t _ => t
  end.

(** [isOurTable]. *)
Definition isOurTable (tableId eventTable : string) : bool :=
  String.eqb eventTable tableId.

(** [{ ...prev, lastEvent: payload }]. *)
Definition withLastEvent (payload : GameEventPayload) (prev : GameState)
    : GameState :=
  {| Reducer.tableId := Reducer.tableId prev;
     players := players prev;
     activePlayers := activePlayers prev;
     currentTurn := currentTurn prev;
     moves := moves prev;
     roundActive := roundActive prev;
     liarCaller := liarCaller prev;
     lastEvent := Some payload |}.

(** The listener registered for the event's name, called with the event.
    [now] is the clock read by the state updater, [nowAnimation] the one
    read for the animation trigger. *)
Definition listener (tableId : string) (walletPublicKey : option string)
    (now nowAnimation : Z) (ev : ProgramEvent) (prev : GameState)
    : Handled :=
  if negb (isOurTable tableId (eventTableId ev))
  then mkHandled prev None None None
  else
    match ev with
    | LiarsTableCreatedEvent t =>
        let payload := liarsTableCreated t in
        mkHandled (withLastEvent payload prev) None None (Some payload)
    | PlayerJoinedEvent t player =>
        let payload := playerJoined t player in
        let alreadyExists := includes player (players prev) in
        mkHandled
          {| Reducer.tableId := Reducer.tableId prev;
             players := if alreadyExists then players prev
                        else players prev ++ [player];
             activePlayers := if alreadyExists then activePlayers prev
                              else activePlayers prev ++ [player];
             currentTurn := currentTurn prev;
             moves := moves prev;
             roundActive := roundActive prev;
             liarCaller := liarCaller prev;
             lastEvent := Some payload |}
          None
          (Some (mkAnimationTrigger player_joined (Some player)
                   nowAnimation))
          (Some payload)
    | SuffleCardsForPlayerEvent t player next =>
        let payload := suffleCardsForPlayer t player next in
        mkHandled
          {| Reducer.tableId := Reducer.tableId prev;
             players := players prev;
             activePlayers := activePlayers prev;
             currentTurn := Some next;
             moves := moves prev;
             roundActive := roundActive prev;
             liarCaller := liarCaller prev;
             lastEvent := Some payload |}
          (match walletPublicKey with
           | Some w => if truthy w && String.eqb player w
                       then Some next else None
           | None => None
           end)
          None
          (Some payload)
    | RoundStartedEvent t =>
        let payload := roundStarted t in
        mkHandled
          {| Reducer.tableId := Reducer.tableId prev;
             players := players prev;
             activePlayers := activePlayers prev;
             currentTurn := None;
             moves := [];
             roundActive := true;
             liarCaller := None;
             lastEvent := Some payload |}
          None
          (Some (mkAnimationTrigger round_started None nowAnimation))
          (Some payload)
    | TableTrunEvent t player =>
        let payload := tableTrun t player in
        mkHandled
          {| Reducer.tableId := Reducer.tableId prev;
             players := players prev;
             activePlayers := activePlayers prev;
             currentTurn := Some player;
             moves := moves prev;
             roundActive := roundActive prev;
             liarCaller := liarCaller prev;
             lastEvent := Some payload |}
          None None (Some payload)
    | CardPlacedEvent t player =>
        let payload := cardPlaced t player in
        mkHandled
          {| Reducer.tableId := Reducer.tableId prev;
             players := players prev;
             activePlayers := activePlayers prev;
             currentTurn := currentTurn prev;
             moves := moves prev ++ [mkMove player now];
             roundActive := roundActive prev;
             liarCaller := liarCaller prev;
             lastEvent := Some payload |}
          None
          (Some (mkAnimationTrigger card_placed (Some player)
                   nowAnimation))
          (Some payload)
    | LiarCalledEvent t caller =>
        let payload := liarCalled t caller in
        mkHandled
          {| Reducer.tableId := Reducer.tableId prev;
             players := players prev;
             activePlayers := activePlayers prev;
             currentTurn := currentTurn prev;
             moves := moves prev;
             roundActive := roundActive prev;
             liarCaller := Some caller;
             lastEvent := Some payload |}
          None
          (Some (mkAnimationTrigger liar_called (Some caller)
                   nowAnimation))
          (Some payload)
    | EmptyBulletFiredEvent t player =>
        let payload := emptyBulletFired t player in
        mkHandled (withLastEvent payload prev) None
          (Some (mkAnimationTrigger empty_bullet (Some player)
                   nowAnimation))
          (Some payload)
    | PlayerEleminatedEvent t player =>
        let payload := playerEleminated t player in
        mkHandled
          {| Reducer.tableId := Reducer.tableId prev;
             players := players prev;
             activePlayers := without player (activePlayers prev);
             currentTurn := currentTurn prev;
             moves := moves prev;
             roundActive := roundActive prev;
             liarCaller := liarCaller prev;
             lastEvent := Some payload |}
          None
          (Some (mkAnimationTrigger player_eliminated (Some player)
                   nowAnimation))
          (Some payload)
    end.

(** The event as Anchor's coder hands it to the poller: its name and its
    data. *)
Definition asDecoded (ev : ProgramEvent) : Poller.Decoded :=
  match ev with
  | LiarsTableCreatedEvent t =>
      Poller.mkDecoded "liarsTableCreated"
        (Poller.mkEventData (Some t) None None None)
  | PlayerJoinedEvent t p =>
      Poller.mkDecoded "playerJoined"
        (Poller.mkEventData (Some t) (Some p) None None)
  | SuffleCardsForPlayerEvent t p n =>
      Poller.mkDecoded "suffleCardsForPlayer"
        (Poller.mkEventData (Some t) (Some p) (Some n) None)
  | RoundStartedEvent t =>
      Poller.mkDecoded "roundStarted"
        (Poller.mkEventData (Some t) None None None)
  | TableTrunEvent t p =>
      Poller.mkDecoded "tableTrun"
        (Poller.mkEventData (Some t) (Some p) None None)
  | CardPlacedEvent t p =>
      Poller.mkDecoded "cardPlaced"
        (Poller.mkEventData (Some t) (Some p) None None)
  | LiarCalledEvent t c =>
      Poller.mkDecoded "liarCalled"
        (Poller.mkEventData (Some t) None None (Some c))
  | EmptyBulletFiredEvent t p =>
      Poller.mkDecoded "emptyBulletFired"
        (Poller.mkEventData (Some t) (Some p) None None)
  | PlayerEleminatedEvent t p =>
      Poller.mkDecoded "playerEleminated"
        (Poller.mkEventData (Some t) (Some p) None None)
  end.

End Listener.

(* ===================================================================== *)
(** ** The event log and animations ([useGameEvents.ts], [handleEvent])   *)
(* ===================================================================== *)

Module EventLog.
Import Js Reducer Listener.

Record EventLogEntry := mkEventLogEntry {
  entry_type : string;
  entry_player : option string;
  entry_timestamp : Z;
  entry_message : string
}.

(** [ANIMATION_DURATIONS]. *)
Definition ANIMATION_DURATIONS (t : AnimationType) : Z :=
  match t with
  | card_placed => 1500
  | liar_called => 3000
  | empty_bullet => 2500
  | player_eliminated => 2000
  | round_started => 2000
  | player_joined => 1500
  end.

(** [s.slice(0, 4)] and [s.slice(-4)]. *)
Definition firstFour (s : string) : string := String.substring 0 4 s.
Definition lastFour (s : string) : string :=
  String.substring (String.length s - 4) 4 s.

Definition shorten (addr : string) : string :=
  firstFour addr +:+ "..." +:+ lastFour addr.

(** [arr.slice(-n)]: the last [n] elements. *)
Definition lastN {A} (n : nat) (l : list A) : list A :=
  drop (length l - n) l.

(** [event.type]. *)
Definition typeOf (e : GameEventPayload) : string :=
  match e with
  | liarsTableCreated _ => "liarsTableCreated"
  | playerJoined _ _ => "playerJoined"
  | suffleCardsForPlayer _ _ _ => "suffleCardsForPlayer"
  | roundStarted _ => "roundStarted"
  | tableTrun _ _ => "tableTrun"
  | cardPlaced _ _ => "cardPlaced"
  | liarCalled _ _ => "liarCalled"
  | emptyBulletFired _ _ => "emptyBulletFired"
  | playerEleminated _ _ => "playerEleminated"
  | gameOver _ => "gameOver"
  | gameWinner _ _ => "gameWinner"
  end.

(** The [switch] of [handleEvent]: message, player and animation type. *)
Definition describe (e : GameEventPayload)
    : string * option string * option AnimationType :=
  match e with
  | liarsTableCreated t => ("Table created: " +:+ shorten t, None, None)
  | playerJoined _ p =>
      (shorten p +:+ " joined the table", Some p, Some player_joined)
  | suffleCardsForPlayer _ p n =>
      ("Cards shuffled for " +:+ shorten p +:+ ", next: " +:+ shorten n,
       Some p, None)
  | roundStarted _ => ("Round started!", None, Some round_started)
  | tableTrun _ p => ("Turn changed to " +:+ shorten p, Some p, None)
  | cardPlaced _ p =>
      (shorten p +:+ " placed a card", Some p, Some card_placed)
  | liarCalled _ c =>
      (shorten c +:+ " called LIAR!", Some c, Some liar_called)
  | emptyBulletFired _ p =>
      (shorten p +:+ " fired an empty bullet - safe!", Some p,
       Some empty_bullet)
  | playerEleminated _ p =>
      (shorten p +:+ " was eliminated!", Some p, Some player_eliminated)
  | gameOver _ => ("Game over!", None, None)
  | gameWinner _ p => (shorten p +:+ " wins the game!", Some p, None)
  end.

(** The hook's [eventLog] and [activeAnimation]. *)
Record Panel := mkPanel {
  eventLog : list EventLogEntry;
  activeAnimation : option AnimationTrigger
}.

(** [handleEvent]; [now] is the clock read for the log entry,
    [nowAnimation] the one read for the trigger. *)
Definition handleEvent (now nowAnimation : Z) (e : GameEventPayload)
    (panel : Panel) : Panel :=
  let '(message, player, animationType) := describe e in
  {| eventLog :=
       lastN 49 (eventLog panel)
       ++ [mkEventLogEntry (typeOf e) player now message];
     activeAnimation :=
       match animationType with
       | Some t => Some (mkAnimationTrigger t player nowAnimation)
       | None => activeAnimation panel
       end |}.

(** The timeout callback that [handleAnimation] schedules for a trigger:
    it clears the animation only if it is still that trigger's. *)
Definition expire (trigger : AnimationTrigger) (panel : Panel) : Panel :=
  {| eventLog := eventLog panel;
     activeAnimation :=
       match activeAnimation panel with
       | Some current =>
           if anim_timestamp current =? anim_timestamp trigger
           then None else Some current
       | None => None
       end |}.

(** The handler run over a sequence of events, each with its clocks. *)
Definition handleAll (evs : list (Z * Z * GameEventPayload))
    (panel : Panel) : Panel :=
  foldl (λ p e, handleEvent e.1.1 e.1.2 e.2 p) panel evs.

End EventLog.

(* ===================================================================== *)
(** ** Reference functions for the reducer's histories                    *)
(* ===================================================================== *)

Module History.
Import Reducer.

(** The moves that a sequence of events leaves, read off the events: the
    players and clock values of the [cardPlaced] events that follow the
    last [roundStarted], added to [start] when no round started. *)
Definition placedSinceRoundStart (start : list Move) (evs : list timed)
    : list Move :=
  foldl (λ acc e,
           match e.2 with
           | roundStarted _ => []
           | cardPlaced _ player => acc ++ [mkMove player e.1]
           | _ => acc
           end) start evs.

End History.

(* ===================================================================== *)
(** ** Accessors used to state facts about payloads                       *)
(* ===================================================================== *)

Module Payload.
Import Reducer.

(** [payload.tableId]. *)
Definition payloadTableId (e : GameEventPayload) : string :=
  match e with
  | liarsTableCreated t | playerJoined t _ | suffleCardsForPlayer t _ _
  | roundStarted t | tableTrun t _ | cardPlaced t _ | liarCalled t _
  | emptyBulletFired t _ | playerEleminated t _ | gameOver t
  | gameWinner t _ => t
  end.

End Payload.

(* ===================================================================== *)
(** ** Handles as bytes ([gameTypes.ts], [config.ts])                     *)
(* ===================================================================== *)

Module Handles.
Import Js.

(** The byte that the loop of [deriveAllowancePDAFromHandle] (and of
    [deriveAllowancePDA] in config.ts) stores at index [i]:
    [Number((handle >> BigInt(i * 8)) & BigInt(0xff))]. *)
Definition byteAt (handle : Z) (i : nat) : Z :=
  Z.land (Z.shiftr handle (Z.of_nat i * 8)) 255.

(** The 16-byte buffer that loop fills. *)
Definition handleBuffer (handle : Z) : list Z := byteAt handle <$> seq 0 16.

(** The loop of [deriveAllowancePda] inside [decryptMyCards]: store
    [h & 0xff], then [h = h >> 8], [n] times. *)
Fixpoint shiftOut (n : nat) (h : Z) : list Z :=
  match n with
  | O => []
  | S n' => Z.land h 255 :: shiftOut n' (Z.shiftr h 8)
  end.

Definition handleBufferShifting (handle : Z) : list Z := shiftOut 16 handle.

(** [buffer[k]] of a [Buffer], inside its bounds. *)
Definition at_ (buffer : list Z) (k : nat) : Z := default 0 (buffer !! k).

(** The inner loop over the return data in [parseHandlesFromSimulation]:
    the little-endian value of the sixteen bytes from index [i]. *)
Definition readAt (buffer : list Z) (i : nat) : Z :=
  foldl (λ handleValue j,
           Z.lor handleValue
             (Z.shiftl (at_ buffer (i + j)) (Z.of_nat j * 8)))
    0 (seq 0 16).

(** The outer loop: [i = 0, 16, ...] while [i + 16 <= buffer.length],
    keeping the values that are not zero. *)
Definition returnDataHandles (buffer : list Z) : list Z :=
  filter (λ v, v ≠ 0)
    ((λ k, readAt buffer (16 * k)) <$> seq 0 (length buffer / 16)).

Definition code (c : Ascii.ascii) : nat := Ascii.nat_of_ascii c.

(** [\d] and [[0-9a-fA-F]]. *)
Definition isDigit (c : Ascii.ascii) : bool :=
  (48 <=? code c)%nat && (code c <=? 57)%nat.

Definition isHex (c : Ascii.ascii) : bool :=
  isDigit c
  || ((97 <=? code c)%nat && (code c <=? 102)%nat)
  || ((65 <=? code c)%nat && (code c <=? 70)%nat).

Definition hexValue (c : Ascii.ascii) : Z :=
  if isDigit c then Z.of_nat (code c) - 48
  else if (97 <=? code c)%nat then Z.of_nat (code c) - 87
  else Z.of_nat (code c) - 55.

(** [BigInt(s)] on a run of decimal digits, [BigInt("0x" + s)] on a run
    of hexadecimal digits. *)
Definition parseDecimal (s : string) : Z :=
  foldl (λ acc c, acc * 10 + (Z.of_nat (code c) - 48)) 0
    (String.list_ascii_of_string s).

Definition parseHex (s : string) : Z :=
  foldl (λ acc c, acc * 16 + hexValue c) 0 (String.list_ascii_of_string s).

(** The longest run of digits at the front of a string. *)
Fixpoint digitRun (s : string) : string :=
  match s with
  | String c rest => if isDigit c then String c (digitRun rest) else ""
  | EmptyString => ""
  end.

Fixpoint allHex (s : string) : bool :=
  match s with
  | String c rest => isHex c && allHex rest
  | EmptyString => true
  end.

(** [s.slice(n)]. *)
Definition sliceFrom (n : nat) (s : string) : string :=
  String.substring n (String.length s - n) s.

(** [log.matchAll(/result=(\d+)/g)]: the captured digit runs, left to
    right; after a match the search goes on behind it.  [skip] counts the
    characters still covered by the last match. *)
Fixpoint matchResults (skip : nat) (s : string) : list string :=
  match s with
  | EmptyString => []
  | String c rest =>
      match skip with
      | S k => matchResults k rest
      | O =>
          if String.prefix "result=" s then
            let digits := digitRun (sliceFrom 7 s) in
            if (0 <? String.length digits)%nat
            then digits :: matchResults (6 + String.length digits) rest
            else matchResults 0 rest
          else matchResults 0 rest
      end
  end.

(** [log.matchAll(/(?:0x)([0-9a-fA-F]{32})/g)]. *)
Fixpoint matchHex (skip : nat) (s : string) : list string :=
  match s with
  | EmptyString => []
  | String c rest =>
      match skip with
      | S k => matchHex k rest
      | O =>
          if String.prefix "0x" s then
            let captured := String.substring 2 32 s in
            if (String.length captured =? 32)%nat && allHex captured
            then captured :: matchHex 33 rest
            else matchHex 0 rest
          else matchHex 0 rest
      end
  end.

(** The handles that the two patterns find in one log line. *)
Definition logHandles (log : string) : list Z :=
  filter (λ v, v ≠ 0) (parseDecimal <$> matchResults 0 log)
  ++ filter (λ v, v ≠ 0) (parseHex <$> matchHex 0 log).

(** [[...new Set(handles.map(String))].map(BigInt)]: first occurrences,
    in order. *)
Fixpoint dedupe (seen : list Z) (handles : list Z) : list Z :=
  match handles with
  | [] => []
  | h :: rest =>
      if bool_decide (h ∈ seen) then dedupe seen rest
      else h :: dedupe (h :: seen) rest
  end.

(** [parseHandlesFromSimulation]; [logs] is [simulation.logs],
    [returnData] the bytes of [simulation.returnData.data] once decoded,
    each absent or present. *)
Definition parseHandlesFromSimulation (logs : option (list string))
    (returnData : option (list Z)) : list Z :=
  dedupe []
    (flat_map logHandles (default [] logs)
     ++ match returnData with
        | Some buffer => returnDataHandles buffer
        | None => []
        end).

End Handles.

(* ===================================================================== *)
(** ** Predicates on strings used to state facts about cache keys         *)
(* ===================================================================== *)

Module Text.

(** No character of [s] is [c]. *)
Fixpoint free (c : Ascii.ascii) (s : string) : bool :=
  match s with
  | EmptyString => true
  | String d rest => negb (Ascii.eqb d c) && free c rest
  end.

Definition hyphen : Ascii.ascii := Ascii.ascii_of_nat 45.

End Text.

(* ===================================================================== *)
(** ** Reference functions for the decryption pipeline                    *)
(* ===================================================================== *)

Module Pipeline.
Import Js CardCache Table.

(** The handle strings of a held card, as [decryptMyCards] passes them to
    the confidential network. *)
Definition handleStrings (card : EncryptedCard) : string * string :=
  (decimal (extractHandle (card_shape card)),
   decimal (extractHandle (card_value card))).

(** The card that a successful answer of the network stands for. *)
Definition plainOf (inco : Inco) (handles : string * string)
    : option DecryptedCard :=
  match decrypt inco handles.1 handles.2 with
  | Value plain => Some {| shape := plain.1; value := plain.2 |}
  | Threw _ => None
  end.

(** The cards revealed before the first failing answer. *)
Fixpoint revealedPrefix (inco : Inco) (handles : list (string * string))
    : list DecryptedCard :=
  match handles with
  | [] => []
  | hs :: rest =>
      match plainOf inco hs with
      | Some card => card :: revealedPrefix inco rest
      | None => []
      end
  end.

(** Every answer of the network for these handles is a success. *)
Definition allDecrypt (inco : Inco) (handles : list (string * string))
    : bool :=
  forallb (λ hs, bool_decide (is_Some (plainOf inco hs))) handles.

(** The steps of a submission all succeed. *)
Definition granted (submission : Submission) : Prop :=
  built submission = Value () ∧ latestBlockhash submission = Value () ∧
  signed submission = Value () ∧ sent submission = Value () ∧
  confirmed submission = Value ().

End Pipeline.

(* ===================================================================== *)
(** ** Reference functions for the table refetch                          *)
(* ===================================================================== *)

Module Refetch.
Import Js CardCache Table.

(** The entry that [fetchTable] builds for one player address: the
    account's character and cards, or neither when the account cannot be
    fetched. *)
Definition playerInfoOf (tableIdString : string) (chain : Chain)
    (addr : string) : PlayerInfo :=
  match fetchPlayer chain (PlayerPda tableIdString addr) with
  | Value playerAccount =>
      {| address := addr;
         characterId := orNull (p_characterId playerAccount);
         encryptedCards := default [] (p_cards playerAccount) |}
  | Threw _ => {| address := addr; characterId := None;
                  encryptedCards := [] |}
  end.

(** The table data built from a decoded table account. *)
Definition tableDataOf (tableIdString : string) (chain : Chain)
    (table : LiarsTable) : TableData :=
  {| tableId := t_tableId table;
     players := t_players table;
     playerInfos := playerInfoOf tableIdString chain <$> t_players table;
     isOpen := t_isOpen table;
     tableCard := t_tableCard table;
     trunToPlay := t_trunToPlay table;
     cardsOnTable := default 0 (t_cardsOnTable table) |}.

(** The game phase and turn that a decoded table account leads to. *)
Definition phaseOf (table : LiarsTable) (h : Hook) : Hook :=
  if t_isOver table then setGameState ended h
  else if t_isOpen table then setGameState lobby h
  else if 0 <? Z.of_nat (length (t_players table)) then
    if (0 <=? t_trunToPlay table)
       && (t_trunToPlay table <? Z.of_nat (length (t_players table)))
    then setCurrentTurnPlayer
           (t_players table !! Z.to_nat (t_trunToPlay table))
           (setGameState playing h)
    else setGameState playing h
  else h.

(** The state that a successful refetch leaves. *)
Definition applyTable (tableIdString : string) (chain : Chain)
    (table : LiarsTable) (h : Hook) : Hook :=
  let td := tableDataOf tableIdString chain table in
  setError None
    (phaseOf table
       (setIsOver (t_isOver table)
          (setShuffleTurn (default (-1) (t_suffleTrun table))
             (setTableData (Some td) (setTableDataRef (Some td) h))))).

(** The message that a catch block stores. *)
Definition failure (message fallback : string) : option string :=
  Some (orElse message fallback).

End Refetch.

(* ===================================================================== *)
(** ** The game actions of the table hook ([gameTypes.ts], second         *)
(** ** document): shuffle, place cards, event handling                    *)
(* ===================================================================== *)

Module Actions.
Import Js Reducer CardCache Table EventLog.

(** The state of the hook beyond [Hook]: the shuffle ref and flag, the
    placing flag, the last claim and liar caller, the hook's own event
    log, and the deadline of the pending debounce timer, if any. *)
Record Session := mkSession {
  hook : Hook;
  isShufflingRef : bool;
  isShuffling : bool;
  isPlacingCards : bool;
  lastClaimBy : option string;
  liarCaller : option string;
  eventLog : list EventLogEntry;
  fetchDebounce : option Z
}.

Definition setHook v s :=
  let 'mkSession _ b c d e f g i := s in mkSession v b c d e f g i.
Definition setIsShufflingRef v s :=
  let 'mkSession a _ c d e f g i := s in mkSession a v c d e f g i.
Definition setIsShuffling v s :=
  let 'mkSession a b _ d e f g i := s in mkSession a b v d e f g i.
Definition setIsPlacingCards v s :=
  let 'mkSession a b c _ e f g i := s in mkSession a b c v e f g i.
Definition setLastClaimBy v s :=
  let 'mkSession a b c d _ f g i := s in mkSession a b c d v f g i.
Definition setLiarCaller v s :=
  let 'mkSession a b c d e _ g i := s in mkSession a b c d e v g i.
Definition setEventLog v s :=
  let 'mkSession a b c d e f _ i := s in mkSession a b c d e f v i.
Definition setFetchDebounce v s :=
  let 'mkSession a b c d e f g _ := s in mkSession a b c d e f g v.

(** A setter of [Hook] applied inside the session. *)
Definition inHook (f : Hook → Hook) (s : Session) : Session :=
  setHook (f (hook s)) s.

Definition initialSession : Session :=
  {| hook := initialHook; isShufflingRef := false; isShuffling := false;
     isPlacingCards := false; lastClaimBy := None; liarCaller := None;
     eventLog := []; fetchDebounce := None |}.

(** The calls of the actions: those of [Table], and the wallet adapter's
    [sendTransaction]. *)
Inductive Call :=
| Hooked (e : Effect)
| SendTransaction.

Definition Act (A : Type) : Type :=
  Session → outcome A * Session * list Call.

#[global] Instance Act_ret : MRet Act := λ A a s, (Value a, s, []).

#[global] Instance Act_bind : MBind Act := λ A B k c s,
  match c s with
  | (Threw m, s', es) => (Threw m, s', es)
  | (Value a, s', es) =>
      let '(r, s'', es') := k a s' in (r, s'', es ++ es')
  end.

(** The calls through the wallet adapter. *)
Definition isSend (c : Call) : bool :=
  match c with
  | SendTransaction => true
  | Hooked _ => false
  end.

Definition update (f : Session → Session) : Act unit :=
  λ s, (Value (), f s, []).

Definition session : Act Session := λ s, (Value s, s, []).

Definition request {A} (c : Call) (answer : outcome A) : Act A :=
  λ s, (answer, s, [c]).

(** An action of [Table] run on the session's hook. *)
Definition lift {A} (c : Async A) : Act A :=
  λ s, let '(r, h', es) := c (hook s) in (r, setHook h' s, Hooked <$> es).

Definition attempt {A} (body : Act A) (handler : string → Act A) : Act A :=
  λ s, match body s with
       | (Threw m, s', es) =>
           let '(r, s'', es') := handler m s' in (r, s'', es ++ es')
       | done => done
       end.

Definition ensuring {A} (body : Act A) (cleanup : Session → Session)
    : Act A :=
  λ s, let '(r, s', es) := body s in (r, cleanup s', es).

(** The answers met during one [shuffleCards]: the steps of the simulated
    and of the real transaction; [confirmation] tells whether
    [confirmation.value.err] is set; [expired] tells whether the error
    thrown in this run, if any, is a
    [TransactionExpiredBlockheightExceededError]. *)
Record ShuffleAnswers := mkShuffleAnswers {
  sim_built : outcome unit;
  sim_blockhash : outcome unit;
  simulation : outcome unit;
  tx_built : outcome unit;
  tx_blockhash : outcome unit;
  tx_sent : outcome unit;
  confirmation : outcome bool;
  expired : bool
}.

(** [shuffleCards()].  The handles parsed from the simulation and the
    allowance addresses derived from them are computed and not used by
    the transaction that is sent; they leave no trace here. *)
Definition shuffleCards (wallet : Wallet) (tableIdString : string)
    (chain : Chain) (answers : ShuffleAnswers) : Act bool :=
  if negb (bool_decide (is_Some (publicKey wallet))
           && anchorWallet wallet && sendTransaction wallet)
  then mret false
  else
    s ← session;
    if isShufflingRef s then mret false
    else
      update (setIsShufflingRef true);;
      update (setIsShuffling true);;
      ensuring
        (attempt
           (request (Hooked (BuildTransaction "suffleCards" []))
              (sim_built answers);;
            request (Hooked GetLatestBlockhash) (sim_blockhash answers);;
            request (Hooked SimulateTransaction) (simulation answers);;
            request (Hooked (BuildTransaction "suffleCards" []))
              (tx_built answers);;
            request (Hooked GetLatestBlockhash) (tx_blockhash answers);;
            request SendTransaction (tx_sent answers);;
            failed ← request (Hooked ConfirmTransaction)
                       (confirmation answers);
            if (failed : bool) then mret false
            else
              lift (fetchTable wallet tableIdString chain false);;
              mret true)
           (λ _,
              (if expired answers
               then lift (fetchTable wallet tableIdString chain false)
               else mret ());;
              mret false))
        (λ s, setIsShuffling false (setIsShufflingRef false s)).

(** The key under which [cardHandleMap] holds a card. *)
Definition handleKey (card : EncryptedCard) : string :=
  decimal (extractHandle (card_shape card)) +:+ ":" +:+
  decimal (extractHandle (card_value card)).

Definition handEmpty : string :=
  "Your hand is empty — cards haven't been dealt yet. Please wait for the shuffle to complete.".

Definition outOfSync : string :=
  "Card selection is out of sync. Refreshing table data...".

Definition waitingForShuffle : string :=
  "Waiting for all players to finish shuffling cards.".

(** The guard of [placeCards] on the shuffle turn.  [tableDataRef] is
    read as it is; [shuffleTurn] is the value of the render that the
    callback belongs to, which is the current one when the user acts on
    what is shown. *)
Definition shufflePending (h : Hook) : bool :=
  let playersCount :=
    match tableDataRef h with
    | Some td => Z.of_nat (length (players td))
    | None => 0
    end in
  (0 <? playersCount) && (0 <=? shuffleTurn h)
  && (shuffleTurn h <? playersCount).

(** [placeCards(pickedIndices)].  [chain] is the ledger before the
    transaction, [chainAfter] the ledger once it is confirmed. *)
Definition placeCards (wallet : Wallet) (tableIdString : string)
    (chain : Chain) (submission : Submission) (chainAfter : Chain)
    (pickedIndices : list Z) : Act bool :=
  match publicKey wallet with
  | Some pk =>
      if negb (anchorWallet wallet && signTransaction wallet) then
        update (inHook (setError (Some "Wallet not connected")));;
        mret false
      else if (length pickedIndices =? 0)%nat then
        update (inHook (setError (Some "Select at least one card to play")));;
        mret false
      else
        s ← session;
        if shufflePending (hook s) then
          update (inHook (setError (Some waitingForShuffle)));;
          mret false
        else
          update (setIsPlacingCards true);;
          update (inHook (setError None));;
          ensuring
            (attempt
               (let playerAddress := PlayerPda tableIdString pk in
                playerAccount ← request (Hooked (FetchPlayer playerAddress))
                                  (fetchPlayer chain playerAddress);
                match p_cards playerAccount with
                | None | Some [] =>
                    update (inHook (setError (Some handEmpty)));;
                    update (inHook (setMyCards []));;
                    mret false
                | Some held =>
                    let n := Z.of_nat (length held) in
                    if (n <? Z.of_nat (length pickedIndices))
                       || existsb (λ idx, n <=? idx) pickedIndices
                    then
                      update (inHook (setError (Some outOfSync)));;
                      update (inHook (setMyCards []));;
                      lift (fetchTable wallet tableIdString chain false);;
                      mret false
                    else
                      request (Hooked (BuildTransaction "placeCards" []))
                        (built submission);;
                      request (Hooked GetLatestBlockhash)
                        (latestBlockhash submission);;
                      request (Hooked SignTransaction)
                        (signed submission);;
                      request (Hooked SendRawTransaction)
                        (sent submission);;
                      request (Hooked ConfirmTransaction)
                        (confirmed submission);;
                      freshPlayer ← request
                                      (Hooked (FetchPlayer playerAddress))
                                      (fetchPlayer chainAfter playerAddress);
                      s' ← session;
                      let freshMyCards :=
                        omap (λ card, cardHandleMap (hook s') !! handleKey card)
                          (default [] (p_cards freshPlayer)) in
                      update (inHook (setMyCards freshMyCards));;
                      lift (fetchTable wallet tableIdString chainAfter
                              false);;
                      mret true
                end)
               (λ message,
                  update (inHook
                            (setError (Some (orElse message
                                               "Failed to place cards"))));;
                  mret false))
            (setIsPlacingCards false)
  | None =>
      update (inHook (setError (Some "Wallet not connected")));;
      mret false
  end.

(** [addEventLog(type, message, player)]. *)
Definition addEventLog (now : Z) (type message : string)
    (player : option string) (s : Session) : Session :=
  setEventLog
    (lastN 49 (eventLog s) ++ [mkEventLogEntry type player now message]) s.

(** [debouncedFetchTable()]: any pending timer is cleared and a new one
    is set to fire 400 ms later. *)
Definition debouncedFetchTable (now : Z) (s : Session) : Session :=
  setFetchDebounce (Some (now + 400)) s.

(** [handleGameEvent(event)]; [now] is the time of the call. *)
Definition handleGameEvent (wallet : Wallet) (tableIdString : string)
    (now : Z) (event : GameEventPayload) (s : Session) : Session :=
  debouncedFetchTable now
    match event with
    | playerJoined _ player =>
        addEventLog now "playerJoined"
          (shorten player +:+ " joined the table") (Some player) s
    | roundStarted _ =>
        let s1 := inHook (setGameState playing) s in
        let s2 := inHook (setMyCards []) s1 in
        let s3 := inHook (setDecryptFailed false) s2 in
        let s4 := setLiarCaller None s3 in
        let s5 := setLastClaimBy None s4 in
        let s6 :=
          match publicKey wallet with
          | Some pk =>
              inHook (λ h, setLocalStorage
                             (clearCardCache tableIdString pk
                                (localStorage h)) h) s5
          | None => s5
          end in
        addEventLog now "roundStarted" "Round started!" None s6
    | tableTrun _ player =>
        addEventLog now "tableTrun"
          ("It's " +:+ shorten player +:+ "'s turn") (Some player)
          (inHook (setCurrentTurnPlayer (Some player)) s)
    | cardPlaced _ player =>
        addEventLog now "cardPlaced"
          (shorten player +:+ " placed a card") (Some player)
          (setLastClaimBy (Some player) s)
    | liarCalled _ caller =>
        addEventLog now "liarCalled"
          (shorten caller +:+ " called LIAR!") (Some caller)
          (setLiarCaller (Some caller) s)
    | playerEleminated _ player =>
        addEventLog now "playerEleminated"
          (shorten player +:+ " was eliminated!") (Some player) s
    | suffleCardsForPlayer _ player next =>
        addEventLog now "suffleCardsForPlayer"
          ("Cards shuffled for " +:+ shorten player +:+ ", next: "
           +:+ shorten next) (Some player)
          (inHook (setCurrentTurnPlayer (Some next)) s)
    | emptyBulletFired _ player =>
        addEventLog now "emptyBulletFired"
          (shorten player +:+ " fired an empty bullet - safe!")
          (Some player) s
    | liarsTableCreated _ =>
        addEventLog now "liarsTableCreated" "Table created" None s
    | gameOver _ =>
        addEventLog now "gameOver" "Game over!" None
          (inHook (setGameState ended) (inHook (setIsOver true) s))
    | gameWinner _ player =>
        addEventLog now "gameWinner"
          (shorten player +:+ " wins the game!") (Some player) s
    end.

(** The handler run over a sequence of events, each with the time at
    which it arrives. *)
Definition handleGameEvents (wallet : Wallet) (tableIdString : string)
    (evs : list (Z * GameEventPayload)) (s : Session) : Session :=
  foldl (λ s e, handleGameEvent wallet tableIdString e.1 e.2 s) s evs.

(** [myPlayerIndex]: [findIndex], or -1. *)
Definition myPlayerIndex (wallet : Wallet) (h : Hook) : Z :=
  match publicKey wallet, tableData h with
  | Some pk, Some td =>
      match list_find (λ p, p = pk) (players td) with
      | Some (i, _) => Z.of_nat i
      | None => -1
      end
  | _, _ => -1
  end.

Definition shouldShowShuffleButton (wallet : Wallet) (h : Hook) : bool :=
  let playersCount :=
    match tableData h with
    | Some td => Z.of_nat (length (players td))
    | None => 0
    end in
  (0 <=? shuffleTurn h) && (shuffleTurn h <? playersCount)
  && (0 <=? myPlayerIndex wallet h)
  && (myPlayerIndex wallet h =? shuffleTurn h).

End Actions.

(* ===================================================================== *)
(** ** Concrete ledgers, wallets and stores used by the examples          *)
(* ===================================================================== *)

Module Samples.
Import Js Reducer Poller CardCache Table.

(** A ledger with three transactions on the table address; the RPC
    node refuses the fetch of ["s2"]. *)
Definition sampleHistory : list SigInfo :=
  [mkSigInfo "s3" false; mkSigInfo "s2" false; mkSigInfo "s1" false].

Definition sampleRpc : Rpc :=
  {| getSignaturesForAddress := λ req,
       mkAwaited (Value (listSignatures sampleHistory req)) false;
     getTransaction := λ sig,
       if String.eqb sig "s2"
       then mkAwaited (Threw "429 Too Many Requests") false
       else mkAwaited (Value (Some ["Program log: x";
                                    "Program data: " +:+ sig])) false;
     eventParser_decode := λ base64Data,
       Value (Some (mkDecoded "tableTrun"
                      (mkEventData (Some "7") (Some base64Data)
                         None None))) |}.


(** A fresh polling effect, no cycle started yet. *)
Definition freshPolling : Polling :=
  {| vars := freshSubscription; waiting := [] |}.

Definition polling (cursor : string) : PollState :=
  {| isActive := true; lastSignature := Some cursor;
     isInitialized := true |}.

Definition hand : list EncryptedCard :=
  [mkEncryptedCard (WithBn 11) (WithBn 12);
   mkEncryptedCard (WithBn 21) (WithBn 22)].

Definition otherHand : list EncryptedCard :=
  [mkEncryptedCard (WithBn 31) (WithBn 32)].

Definition plain : list DecryptedCard :=
  [mkDecryptedCard 0 1; mkDecryptedCard 3 13].

Definition alice : Wallet :=
  {| publicKey := Some "alice"; anchorWallet := true;
     sendTransaction := true; signTransaction := true;
     signMessage := true |}.

Definition tupleHand : list EncryptedCard :=
  [mkEncryptedCard (Tuple 11) (Tuple 12)].

(** A ledger on which table 7 is being played by alice and bob, alice
    holding [held]. *)
Definition ledger (held : list EncryptedCard) : Chain :=
  {| getAccountInfo := λ _, Value true;
     fetchLiarsTable := λ _,
       Value (mkLiarsTable "7" ["alice"; "bob"] false false 1 0
                (Some (-1)) (Some 0));
     fetchPlayer := λ a,
       match a with
       | PlayerPda _ "alice" => Value (mkPlayer (Some "bull") (Some held))
       | PlayerPda _ _ => Value (mkPlayer (Some "cat") (Some []))
       | _ => Threw "Account does not exist"
       end |}.

Definition accepted : Submission :=
  {| built := Value (); latestBlockhash := Value ();
     simulated := Value (mkSimResult None None);
     signed := Value (); sent := Value (); confirmed := Value () |}.

Definition network : Inco := {| decrypt := λ _ _, Value (2, 5) |}.

(** The state in which a first invocation of [decryptMyCards] waits for
    its first answer. *)
Definition inFlight : Hook := setIsDecryptingCards true initialHook.

(** The hook once table 7 has been fetched during play: alice holds one
    encrypted card, nothing is revealed yet and nothing is cached. *)
Definition dealt : Hook :=
  (fetchTable alice "7" (ledger tupleHand) true initialHook).1.2.

(** A ledger on which alice's player account exists while the RPC node
    refuses the lookup of the table account. *)
Definition throttled : Chain :=
  {| getAccountInfo := λ a,
       match a with
       | PlayerPda _ _ => Value true
       | _ => Threw "429 Too Many Requests"
       end;
     fetchLiarsTable := λ _, Threw "429 Too Many Requests";
     fetchPlayer := λ _, Threw "429 Too Many Requests" |}.

End Samples.

(* ===================================================================== *)
(** ** Further concrete inputs                                            *)
(* ===================================================================== *)

Module MoreSamples.
Import Js Reducer Poller.

(** A node whose single new transaction carries a shuffle event for
    alice, naming bob as next. *)
Definition shuffleRpc : Rpc :=
  {| getSignaturesForAddress := λ _,
       mkAwaited (Value [mkSigInfo "s1" false]) false;
     getTransaction := λ _,
       mkAwaited (Value (Some ["Program data: AAAA"])) false;
     eventParser_decode := λ _,
       Value (Some (mkDecoded "suffleCardsForPlayer"
                      (mkEventData (Some "7") (Some "alice") (Some "bob")
                         None))) |}.

(** The node of [sampleRpc], with the subscription torn down while the
    listing is pending. *)
Definition stoppedRpc : Rpc :=
  {| getSignaturesForAddress := λ req,
       mkAwaited (Value (listSignatures Samples.sampleHistory req)) true;
     getTransaction := getTransaction Samples.sampleRpc;
     eventParser_decode := eventParser_decode Samples.sampleRpc |}.

(** A hand of two cards, and a confidential network that answers for
    the first card only. *)
Definition twoCards : list CardCache.EncryptedCard :=
  [CardCache.mkEncryptedCard (CardCache.Tuple 11) (CardCache.Tuple 12);
   CardCache.mkEncryptedCard (CardCache.Tuple 21) (CardCache.Tuple 22)].

Definition failsOnSecond : Table.Inco :=
  {| Table.decrypt := λ shapeHandle _,
       if String.eqb shapeHandle "11" then Value (2, 5)
       else Threw "Decryption request rejected" |}.

End MoreSamples.

(** ** A session with a cached hand *)

Module CachedSamples.
Import Js CardCache Table Samples.

(** The hook once the table has been fetched during play, alice's hand
    being in the cache already. *)
Definition cachedSession : Hook :=
  setLocalStorage
    (saveCachedCards "7" "alice" tupleHand [mkDecryptedCard 2 5] ∅)
    (fetchTable alice "7" (ledger tupleHand) true initialHook).1.2.

End CachedSamples.

(** ** A ledger before alice joined *)

Module JoinSamples.
Import Js CardCache Table Samples.

(** The table exists; no player account has been created yet. *)
Definition newcomerLedger : Chain :=
  {| getAccountInfo := λ a,
       match a with
       | PlayerPda _ _ => Value false
       | _ => Value true
       end;
     fetchLiarsTable := fetchLiarsTable (ledger []);
     fetchPlayer := λ _, Threw "Account does not exist" |}.

End JoinSamples.

(** ** A player record without a card list *)

Module UseTableSamples.
Import Js CardCache Table Samples.

(** The ledger of table 7 with a player record for alice that carries
    no card list. *)
Definition unlisted : Chain :=
  {| getAccountInfo := λ _, Value true;
     fetchLiarsTable := fetchLiarsTable (ledger []);
     fetchPlayer := λ _, Value (mkPlayer (Some "bull") None) |}.

End UseTableSamples.

Module ReducerFacts.
Import Reducer.

Example join_twice :
  players (updateGameState 2 (playerJoined "7" "alice")
             (updateGameState 1 (playerJoined "7" "alice")
                (createInitialGameState "7"))) = ["alice"].
Proof. reflexivity. Qed.

Example shuffle_before_join :
  let s := updateGameState 1 (suffleCardsForPlayer "7" "alice" "bob")
             (createInitialGameState "7") in
  currentTurn s = Some "bob" ∧ players s = [].
Proof. split; reflexivity. Qed.

Lemma includes_true x l : includes x l = true ↔ x ∈ l.
Proof. unfold includes. apply bool_decide_eq_true. Qed.

Lemma includes_false x l : includes x l = false ↔ x ∉ l.
Proof. unfold includes. apply bool_decide_eq_false. Qed.

Lemma elem_of_without x y l : y ∈ without x l ↔ y ≠ x ∧ y ∈ l.
Proof. unfold without. by rewrite list_elem_of_filter. Qed.

Lemma without_idem x l : without x (without x l) = without x l.
Proof.
  unfold without. induction l as [|a l IH]; [done|].
  rewrite filter_cons. case_decide as Ha.
  - rewrite filter_cons. rewrite decide_True by done. by rewrite IH.
  - exact IH.
Qed.

(** What one step keeps: the subset relation between the two rosters. *)
Lemma step_active_subset now e s :
  activePlayers s ⊆ players s →
  activePlayers (updateGameState now e s)
    ⊆ players (updateGameState now e s).
Proof.
  intros Hsub. destruct e; simpl; try exact Hsub.
  - destruct (includes player (players s)); [exact Hsub|].
    intros x Hx. apply elem_of_app in Hx as [Hx|Hx]; apply elem_of_app;
      [left; by apply Hsub | by right].
  - intros x Hx. apply elem_of_without in Hx as [_ Hx]. by apply Hsub.
Qed.

Lemma step_players now e s p :
  p ∈ players (updateGameState now e s) ↔
  p ∈ players s ∨ ∃ tid, e = playerJoined tid p.
Proof.
  destruct e as [t|t q|t q n|t|t q|t q|t c|t q|t q|t|t q]; simpl;
    try (split; [by left | intros [H|[? H]]; [done | discriminate H]]).
  destruct (includes q (players s)) eqn:Hin.
  - apply includes_true in Hin. split; [by left|].
    intros [H|[? H]]; [done|]. by simplify_eq.
  - rewrite elem_of_app, list_elem_of_singleton. split.
    + intros [H|H]; [by left | right; exists t; by rewrite H].
    + intros [H|[? H]]; [by left | right; by simplify_eq].
Qed.

Lemma step_turn now e s t :
  currentTurn (updateGameState now e s) = Some t →
  turnOf e = Some t ∨ currentTurn s = Some t.
Proof. destruct e; simpl; intros H; (by left) || (by right). Qed.

Lemma applyAll_snoc evs e s :
  applyAll (evs ++ [e]) s = updateGameState e.1 e.2 (applyAll evs s).
Proof. unfold applyAll. by rewrite foldl_app. Qed.

Lemma applyAll_active_subset evs s :
  activePlayers s ⊆ players s →
  activePlayers (applyAll evs s) ⊆ players (applyAll evs s).
Proof.
  intros Hs. induction evs as [|e evs IH] using rev_ind; [exact Hs|].
  rewrite applyAll_snoc. by apply step_active_subset.
Qed.

Lemma applyAll_players evs s p :
  p ∈ players (applyAll evs s) ↔
  p ∈ players s ∨ ∃ tid, playerJoined tid p ∈ evs.*2.
Proof.
  induction evs as [|e evs IH] using rev_ind.
  - simpl. split; [by left|]. intros [H|[? H]]; [done|]. by inversion H.
  - rewrite applyAll_snoc, step_players, IH, fmap_app. simpl. split.
    + intros [[H|[tid H]]|[tid H]]; [by left| |].
      * right. exists tid. apply elem_of_app. by left.
      * right. exists tid. apply elem_of_app. right.
        rewrite H. apply list_elem_of_singleton. done.
    + intros [H|[tid H]]; [left; by left|].
      apply elem_of_app in H as [H|H].
      * left. right. by exists tid.
      * apply list_elem_of_singleton in H. right. by exists tid.
Qed.

Lemma applyAll_turn evs s t :
  currentTurn (applyAll evs s) = Some t →
  currentTurn s = Some t ∨ ∃ e, e ∈ evs.*2 ∧ turnOf e = Some t.
Proof.
  induction evs as [|e evs IH] using rev_ind; [by left|].
  rewrite applyAll_snoc. intros H. apply step_turn in H as [H|H].
  - right. exists e.2. split; [|done].
    rewrite fmap_app. apply elem_of_app. right. simpl.
    by apply list_elem_of_singleton.
  - destruct (IH H) as [?|[e' [He' Ht]]]; [by left|].
    right. exists e'. split; [|done].
    rewrite fmap_app. apply elem_of_app. by left.
Qed.

(** C2, as the code has it.  From the initial state and for every event
    sequence: [activePlayers] stays a subset of [players]; [players] holds
    exactly the identities of the [playerJoined] events seen; and
    [currentTurn], when set, is the identity carried by a shuffle or
    turn-change event of the sequence.  The reducer stores that identity
    without looking it up in [players], so it is a member of [players]
    exactly when a join for it was also seen. *)
Theorem reducer_rosters_and_turn (evs : list timed) (tid : string) :
  let s := applyAll evs (createInitialGameState tid) in
  activePlayers s ⊆ players s ∧
  (∀ t, currentTurn s = Some t →
        (∃ e, e ∈ evs.*2 ∧ turnOf e = Some t) ∧
        (t ∈ players s ↔ ∃ tid', playerJoined tid' t ∈ evs.*2)).
Proof.
  simpl. split.
  - apply applyAll_active_subset. done.
  - intros t Ht. split.
    + apply applyAll_turn in Ht as [Ht|Ht]; [discriminate Ht | exact Ht].
    + rewrite applyAll_players. simpl. split.
      * intros [H|H]; [by inversion H | exact H].
      * intros H. by right.
Qed.

(** C2 as worded fails: a shuffle event that arrives before any join sets
    [currentTurn] to an identity that is not in [players]. *)
Lemma turn_member_refuted :
  ¬ (∀ (evs : list timed) (tid : string),
       let s := applyAll evs (createInitialGameState tid) in
       activePlayers s ⊆ players s ∧
       (∀ t, currentTurn s = Some t → t ∈ players s)).
Proof.
  intros H.
  destruct (H [(1, suffleCardsForPlayer "7" "alice" "bob")] "7") as [_ Hin].
  specialize (Hin "bob" eq_refl). simpl in Hin. by inversion Hin.
Qed.

(** C5.  Applying the same [playerJoined] or [playerEleminated] event a
    second time (at any later clock value) gives the state that one
    application gives. *)
Theorem join_eliminate_idempotent (now1 now2 : Z) (e : GameEventPayload)
    (s : GameState) :
  isJoinOrEliminate e = true →
  updateGameState now2 e (updateGameState now1 e s)
    = updateGameState now1 e s.
Proof.
  intros He. destruct e; try discriminate He; simpl.
  - destruct (includes player (players s)) eqn:Hin.
    + by rewrite Hin.
    + assert (includes player (players s ++ [player]) = true) as ->; [|done].
      apply includes_true, elem_of_app. right.
      by apply list_elem_of_singleton.
  - by rewrite without_idem.
Qed.

Lemma join_eliminate_idempotent_witness :
  isJoinOrEliminate (playerJoined "7" "alice") = true ∧
  updateGameState 2 (playerJoined "7" "alice")
    (updateGameState 1 (playerJoined "7" "alice")
       (createInitialGameState "7"))
  = updateGameState 1 (playerJoined "7" "alice")
      (createInitialGameState "7").
Proof.
  split; [reflexivity|].
  apply (join_eliminate_idempotent 1 2 (playerJoined "7" "alice")
           (createInitialGameState "7")).
  reflexivity.
Defined.

(** C9.  A shuffle event naming [x] as next, followed at once by a
    turn-change event naming [y], leaves [currentTurn] at [y]. *)
Theorem turn_change_overrides_shuffle (now1 now2 : Z)
    (tid1 tid2 p x y : string) (s : GameState) :
  currentTurn
    (updateGameState now2 (tableTrun tid2 y)
       (updateGameState now1 (suffleCardsForPlayer tid1 p x) s))
  = Some y.
Proof. reflexivity. Qed.

End ReducerFacts.

Module PollerFacts.
Import Js Reducer Poller Samples.

Example sample_first_poll :
  poll sampleRpc "7" None freshSubscription
  = ({| isActive := true; lastSignature := Some "s3";
        isInitialized := true |}, []).
Proof. reflexivity. Qed.

Example sample_second_poll :
  poll sampleRpc "7" None (polling "s1")
  = (polling "s3", [Deliver (tableTrun "7" "s3")]).
Proof. reflexivity. Qed.

Example foreign_table_dropped :
  mapDecodedToPayload
    (mkDecoded "playerJoined" (mkEventData (Some "8") (Some "a") None None))
    "7" = Value None.
Proof. reflexivity. Qed.

(** While no cleanup runs, the loop over the batch is the concatenation
    of what each listed transaction contributes; a transaction that
    failed on chain or could not be fetched contributes nothing and the
    loop goes on. *)
Lemma processBatch_active rpc tableId walletStr newSigs :
  (∀ sig, cleanupRan (getTransaction rpc sig) = false) →
  processBatch rpc tableId walletStr newSigs true
  = (true, flat_map (txEmissions rpc tableId walletStr) newSigs).
Proof.
  intros Hrun. induction newSigs as [|sigInfo rest IH]; [done|].
  simpl. unfold txEmissions at 1.
  destruct (err sigInfo); simpl; [exact IH|].
  rewrite Hrun. simpl. rewrite IH. reflexivity.
Qed.

Example overlapped_first_cycles :
  (occurAll sampleRpc "7" None [Starts; Starts; Settles 1; Settles 0]
     freshPolling).2
  = [[]; []; []; [Deliver (tableTrun "7" "s3")]].
Proof. reflexivity. Qed.




(** C4.  After baselining, a cycle whose listing returns at least one
    signature ends with the cursor at the newest signature listed,
    whatever the transaction fetches and the decoder answer.  While the
    subscription is not torn down during the cycle, the events handed
    over are those of each listed transaction, oldest first, a failed
    fetch adding none and stopping nothing. *)
Theorem cursor_advances (rpc : Rpc) (tableId : string)
    (walletStr : option string) (st : PollState)
    (newest : SigInfo) (older : list SigInfo) :
  isActive st = true →
  isInitialized st = true →
  result (getSignaturesForAddress rpc (request st))
    = Value (newest :: older) →
  let r := poll rpc tableId walletStr st in
  lastSignature r.1 = Some (signature newest) ∧
  (cleanupRan (getSignaturesForAddress rpc (request st)) = false →
   (∀ sig, cleanupRan (getTransaction rpc sig) = false) →
   r.2 = flat_map (txEmissions rpc tableId walletStr)
           (reverse (newest :: older))).
Proof.
  intros Hact Hinit Hlist. simpl. unfold poll, resume.
  rewrite Hact, Hinit, Hlist. simpl. split; [reflexivity|].
  intros Hl Hrun. rewrite Hl. simpl.
  by rewrite processBatch_active.
Qed.

Lemma cursor_advances_witness :
  lastSignature (poll sampleRpc "7" None (polling "s1")).1 = Some "s3" ∧
  (poll sampleRpc "7" None (polling "s1")).2
    = [Deliver (tableTrun "7" "s3")].
Proof.
  destruct (cursor_advances sampleRpc "7" None (polling "s1")
              (mkSigInfo "s3" false) [mkSigInfo "s2" false]
              eq_refl eq_refl eq_refl) as [Hcur Hout].
  split; [exact Hcur|].
  rewrite Hout; [reflexivity | reflexivity |].
  intros sig. simpl. by destruct (String.eqb sig "s2").
Defined.

End PollerFacts.

Module HealthFacts.
Import Health.

Example one_periodic_failure :
  status (useConnectionStatus [resolved; rejected]) = reconnecting.
Proof. reflexivity. Qed.

Example failed_initial_check :
  useConnectionStatus [rejected] = mkMonitor disconnected 1.
Proof. reflexivity. Qed.

Example recovered :
  useConnectionStatus [rejected; rejected; resolved] = mkMonitor connected 0.
Proof. reflexivity. Qed.

Lemma leadingRejected_nonneg probes : 0 ≤ leadingRejected probes.
Proof. induction probes as [|[] later IH]; simpl; lia. Qed.

Lemma failureStreak_snoc probes p :
  failureStreak (probes ++ [p])
  = match p with
    | rejected => 1 + failureStreak probes
    | resolved => 0
    end.
Proof.
  unfold failureStreak. rewrite reverse_app. simpl. by destruct p.
Qed.

Lemma useConnectionStatus_snoc first later p :
  useConnectionStatus ((first :: later) ++ [p])
  = periodicCheck p (useConnectionStatus (first :: later)).
Proof. simpl. by rewrite foldl_app. Qed.

(** C7, as the code has it.  The monitor starts [connected]; its counter
    is the number of consecutive failures the probes end with; a success
    resets it and sets [connected]; two or more failures in a row set
    [disconnected]; one failure sets [reconnecting] when an interval
    probe reported it, and [disconnected] when it is the check made on
    mount. *)
Theorem health_classification (probes : list Probe) :
  let m := useConnectionStatus probes in
  failCount m = failureStreak probes ∧
  status m = if decide (probes = [rejected]) then disconnected
             else classify (failureStreak probes).
Proof.
  simpl. induction probes as [|p probes IH] using rev_ind; [done|].
  destruct probes as [|first later]; [by destruct p|].
  rewrite useConnectionStatus_snoc, failureStreak_snoc.
  destruct IH as [Hcount Hstatus].
  rewrite decide_False by (simpl; intros H; by destruct later).
  destruct p; [done|].
  unfold periodicCheck. cbn [failCount status].
  rewrite Hcount.
  pose proof (leadingRejected_nonneg (reverse (first :: later))) as Hge.
  fold (failureStreak (first :: later)) in Hge.
  split; [lia|].
  unfold classify.
  destruct (Z.leb_spec 2 (failureStreak (first :: later) + 1));
    destruct (Z.eqb_spec (1 + failureStreak (first :: later)) 0);
    destruct (Z.eqb_spec (1 + failureStreak (first :: later)) 1);
    (done || lia).
Qed.

(** C7 as worded fails: a failure of the check made on mount is a single
    failure, and it sets [disconnected], not [reconnecting]. *)
Lemma single_failure_refuted :
  ¬ (∀ probes : list Probe,
       status (useConnectionStatus probes)
       = classify (failureStreak probes)).
Proof. intros H. specialize (H [rejected]). discriminate H. Qed.

End HealthFacts.

Module CardCacheFacts.
Import Js CardCache Samples.

Example hand_fingerprint : getEncryptedFingerprint hand = "11:12|21:22".
Proof. reflexivity. Qed.

Example save_then_load :
  (loadCachedCards "7" "alice" hand
     (saveCachedCards "7" "alice" hand plain ∅)).1 = Some plain.
Proof. reflexivity. Qed.

Example load_after_reshuffle :
  loadCachedCards "7" "alice" otherHand
    (saveCachedCards "7" "alice" hand plain ∅) = (None, ∅).
Proof. vm_compute. reflexivity. Qed.

Lemma nonempty_length {A} (l : list A) :
  (0 <? Z.of_nat (length l)) = true ↔ l ≠ [].
Proof.
  destruct l; simpl; [by split|].
  split; [done|]. intros _. apply Z.ltb_lt. lia.
Qed.

(** [loadCachedCards] on any parsed entry.  With [stored] the cache entry
    under the key of (table, wallet), if any: when its fingerprint equals the one
    computed from the current handles and its card list is not empty,
    [loadCachedCards] returns that list and keeps the entry; when the
    fingerprints differ or the list is empty it returns none and deletes
    the entry; when there is no entry it returns none and leaves the
    store as it is.  Whenever it returns none for such a store, no entry
    is left under the key. *)
Theorem load_cached_cards (tableId wallet : string)
    (encryptedCards : list EncryptedCard)
    (localStorage : gmap string Stored) (stored : option CardCache) :
  localStorage !! getCardCacheKey tableId wallet = Json <$> stored →
  let key := getCardCacheKey tableId wallet in
  let r := loadCachedCards tableId wallet encryptedCards localStorage in
  (∀ c, stored = Some c →
        fingerprint c = getEncryptedFingerprint encryptedCards →
        cards c ≠ [] →
        r = (Some (cards c), localStorage)) ∧
  (∀ c, stored = Some c →
        fingerprint c ≠ getEncryptedFingerprint encryptedCards
        ∨ cards c = [] →
        r = (None, delete key localStorage)) ∧
  (stored = None → r = (None, localStorage)) ∧
  (r.1 = None → r.2 !! key = None).
Proof.
  intros Hget. simpl. unfold loadCachedCards. rewrite Hget.
  destruct stored as [c|]; simpl; [|done].
  assert ((0 <? Z.of_nat (length (cards c))) = false → cards c = [])
    as Hempty.
  { intros Hlen. destruct (cards c); [done|]. simpl in Hlen.
    apply Z.ltb_ge in Hlen. lia. }
  destruct (String.eqb_spec (fingerprint c)
              (getEncryptedFingerprint encryptedCards)) as [Hfp|Hfp];
    destruct (0 <? Z.of_nat (length (cards c))) eqn:Hlen; simpl;
    try apply nonempty_length in Hlen;
    try specialize (Hempty eq_refl);
    (split; [|split; [|split]]);
    try (intros c' [= <-]); intros; simpl;
    try done; try (by apply lookup_delete_eq); try tauto.
Qed.

Lemma load_cached_cards_witness :
  loadCachedCards "7" "alice" hand
    (saveCachedCards "7" "alice" hand plain ∅)
  = (Some plain, saveCachedCards "7" "alice" hand plain ∅) ∧
  loadCachedCards "7" "alice" otherHand
    (saveCachedCards "7" "alice" hand plain ∅)
  = (None, delete (getCardCacheKey "7" "alice")
             (saveCachedCards "7" "alice" hand plain ∅)).
Proof.
  pose proof (load_cached_cards "7" "alice" hand
                (saveCachedCards "7" "alice" hand plain ∅)
                (Some (mkCardCache (getEncryptedFingerprint hand) plain))
                eq_refl) as [Hhit _].
  pose proof (load_cached_cards "7" "alice" otherHand
                (saveCachedCards "7" "alice" hand plain ∅)
                (Some (mkCardCache (getEncryptedFingerprint hand) plain))
                eq_refl) as [_ [Hmiss _]].
  split.
  - apply (Hhit _ eq_refl); [reflexivity | discriminate].
  - apply (Hmiss _ eq_refl). left. discriminate.
Defined.

(** An entry whose fingerprint matches but whose card list is empty,
    which the hook never writes, is not returned; it is deleted. *)
Lemma empty_entry_refuted :
  ¬ (∀ (tableId wallet : string) (encryptedCards : list EncryptedCard)
       (localStorage : gmap string Stored) (c : CardCache),
       localStorage !! getCardCacheKey tableId wallet = Some (Json c) →
       fingerprint c = getEncryptedFingerprint encryptedCards →
       (loadCachedCards tableId wallet encryptedCards localStorage).1
       = Some (cards c)).
Proof.
  intros H.
  specialize (H "7" "alice" hand
                (saveCachedCards "7" "alice" hand [] ∅)
                (mkCardCache (getEncryptedFingerprint hand) [])
                eq_refl eq_refl).
  discriminate H.
Qed.

End CardCacheFacts.

Module TableFacts.
Import Js CardCache Table Samples.

Example decrypt_run_effects :
  (decryptMyCards alice "7" (ledger tupleHand) accepted network initialHook).2
  = [FetchPlayer (PlayerPda "7" "alice");
     BuildTransaction "grantCardAccess"
       [AllowancePda 11 "alice"; AllowancePda 12 "alice"];
     GetLatestBlockhash; SignTransaction; SendRawTransaction;
     ConfirmTransaction; Sleep 3000; Decrypt "11" "12"].
Proof. vm_compute. reflexivity. Qed.

Example decrypt_run_result :
  (decryptMyCards alice "7" (ledger tupleHand) accepted network initialHook).1.1
  = Value [mkDecryptedCard 2 5].
Proof. vm_compute. reflexivity. Qed.

Example second_invocation_runs :
  let r := decryptMyCards alice "7" (ledger tupleHand) accepted network
             inFlight in
  r.1.1 = Value [mkDecryptedCard 2 5] ∧
  myCards r.1.2 = [mkDecryptedCard 2 5] ∧
  SendRawTransaction ∈ r.2.
Proof.
  vm_compute. repeat split. do 4 apply list_elem_of_further.
  apply list_elem_of_here.
Qed.

Example join_again_same_character :
  let h := (fetchTable alice "7" (ledger tupleHand) true initialHook).1.2 in
  let r := joinTable alice "7" (ledger tupleHand) accepted (ledger tupleHand)
             "bull" h in
  r.1.1 = Value false ∧
  error r.1.2 = Some "This character is already taken by another player".
Proof. vm_compute. split; reflexivity. Qed.

(** *** The decryption pipeline *)

Lemma setIsDecryptingCards_twice a b h :
  setIsDecryptingCards a (setIsDecryptingCards b h)
  = setIsDecryptingCards a h.
Proof. by destruct h. Qed.

Lemma canDecrypt_publicKey wallet :
  canDecrypt wallet = true → ∃ pk, publicKey wallet = Some pk.
Proof.
  unfold canDecrypt. intros H.
  repeat (apply andb_prop in H as [H _]).
  apply bool_decide_eq_true in H as [pk Hpk]. by exists pk.
Qed.

Lemma decryptMyCards_call wallet tableIdString chain submission inco h :
  decryptMyCards wallet tableIdString chain submission inco h
  = (started ← decryptCall wallet;
     match started with
     | Some pk => decryptPipeline tableIdString pk chain submission inco
     | None => mret []
     end) h.
Proof.
  unfold decryptMyCards, decryptCall.
  destruct (publicKey wallet) as [pk|]; [|reflexivity].
  destruct (canDecrypt wallet); [|reflexivity].
  unfold mbind, Async_bind, modify, mret, Async_ret.
  by destruct (decryptPipeline _ _ _ _ _ _) as [[r h'] es].
Qed.

Example dealt_hand :
  gameState dealt = playing ∧ myEncryptedCards alice dealt = tupleHand ∧
  myCards dealt = [] ∧ isDecryptingCards dealt = false ∧
  decryptFailed dealt = false ∧ localStorage dealt = ∅.
Proof. by vm_compute. Qed.

(** C1.  The code at the failing input: table 7 during play, alice
    holding one encrypted card, nothing revealed or cached, no
    decryption running.  In the commit of that render the hook's effect
    calls [decryptMyCards], which sets [isDecryptingCards] and waits for
    the player record; the page's effect of the same commit still reads
    the flag as false from its render and calls [decryptMyCards] again.
    No check stops the second invocation: both fetch the player record,
    both submit a grant transaction, both return the decrypted card, and
    the card is appended to [myCards] twice. *)
Theorem reentry_double_grant :
  let started := commitEffects alice "7" dealt dealt in
  let r := (inFlight ← commitEffects alice "7" dealt;
            settle "7" (ledger tupleHand) accepted network inFlight)
             dealt in
  started = (Value ["alice"; "alice"], setIsDecryptingCards true dealt, [])
  ∧ r.1.1 = Value [[mkDecryptedCard 2 5]; [mkDecryptedCard 2 5]]
  ∧ myCards r.1.2 = [mkDecryptedCard 2 5; mkDecryptedCard 2 5]
  ∧ r.2 = [FetchPlayer (PlayerPda "7" "alice");
           BuildTransaction "grantCardAccess"
             [AllowancePda 11 "alice"; AllowancePda 12 "alice"];
           GetLatestBlockhash; SignTransaction; SendRawTransaction;
           ConfirmTransaction; Sleep 3000; Decrypt "11" "12";
           FetchPlayer (PlayerPda "7" "alice");
           BuildTransaction "grantCardAccess"
             [AllowancePda 11 "alice"; AllowancePda 12 "alice"];
           GetLatestBlockhash; SignTransaction; SendRawTransaction;
           ConfirmTransaction; Sleep 3000; Decrypt "11" "12"].
Proof. by vm_compute. Qed.

(** [decryptMyCards] does not look at [isDecryptingCards]: invoked
    while a first invocation is in flight it fetches the player record,
    submits a grant transaction and appends to [myCards]. *)
Lemma reentry_refuted :
  ¬ (∀ (wallet : Wallet) (tableIdString : string) (chain : Chain)
       (submission : Submission) (inco : Inco) (h : Hook),
       isDecryptingCards h = true →
       decryptMyCards wallet tableIdString chain submission inco h
       = (Value [], h, [])).
Proof.
  intros H.
  specialize (H alice "7" (ledger tupleHand) accepted network inFlight eq_refl).
  apply (f_equal snd) in H. vm_compute in H. discriminate H.
Qed.

(** C8, as the code has it.  When the fetched player record holds an
    empty card list, [decryptMyCards] returns the empty list after that
    one fetch: it builds and submits nothing, decrypts nothing, leaves
    [decryptFailed] as it was and ends with [isDecryptingCards] reset.
    The variant of [useTable.ts] does the same. *)
Theorem empty_hand_returns_empty (wallet : Wallet) (pk : string)
    (tableIdString : string) (chain : Chain) (submission : Submission)
    (inco : Inco) (h : Hook) (player : Player)
    (closedOver : list DecryptedCard) :
  canDecrypt wallet = true →
  publicKey wallet = Some pk →
  fetchPlayer chain (PlayerPda tableIdString pk) = Value player →
  p_cards player = Some [] →
  let r := decryptMyCards wallet tableIdString chain submission inco h in
  r = (Value [], setIsDecryptingCards false h,
       [FetchPlayer (PlayerPda tableIdString pk)]) ∧
  decryptFailed r.1.2 = decryptFailed h ∧
  isDecryptingCards r.1.2 = false ∧
  UseTable.decryptMyCards wallet tableIdString chain submission inco
    closedOver h = r.
Proof.
  intros Hcan Hpk Hfetch Hempty. simpl.
  assert (decryptMyCards wallet tableIdString chain submission inco h
          = (Value [], setIsDecryptingCards false h,
             [FetchPlayer (PlayerPda tableIdString pk)])) as ->.
  { unfold decryptMyCards. rewrite Hpk, Hcan.
    unfold decryptPipeline, finally, tryCatch, call, modify, mbind,
      Async_bind.
    rewrite Hfetch, Hempty. simpl. by rewrite setIsDecryptingCards_twice. }
  split; [done|]. split; [by destruct h|]. split; [by destruct h|].
  unfold UseTable.decryptMyCards. rewrite Hpk, Hcan.
  unfold finally, tryCatch, call, modify, mbind, Async_bind.
  rewrite Hfetch, Hempty. simpl. by rewrite setIsDecryptingCards_twice.
Qed.

Lemma empty_hand_returns_empty_witness :
  decryptMyCards alice "7" (ledger []) accepted network initialHook
  = (Value [], setIsDecryptingCards false initialHook,
     [FetchPlayer (PlayerPda "7" "alice")]) ∧
  decryptFailed
    (decryptMyCards alice "7" (ledger []) accepted network
       initialHook).1.2 = false ∧
  UseTable.decryptMyCards alice "7" (ledger []) accepted network []
    initialHook
  = decryptMyCards alice "7" (ledger []) accepted network initialHook.
Proof.
  destruct (empty_hand_returns_empty alice "alice" "7" (ledger [])
              accepted network initialHook (mkPlayer (Some "bull") (Some []))
              [] eq_refl eq_refl eq_refl eq_refl)
    as (Hrun & Hflag & _ & Hold).
  split; [exact Hrun|]. split; [exact Hflag | exact Hold].
Defined.

(** C8 as worded fails: with an empty hand the pipeline ends without
    raising [decryptFailed]. *)
Lemma empty_hand_flag_refuted :
  ¬ (∀ (wallet : Wallet) (pk tableIdString : string) (chain : Chain)
       (submission : Submission) (inco : Inco) (h : Hook),
       canDecrypt wallet = true →
       publicKey wallet = Some pk →
       fetchPlayer chain (PlayerPda tableIdString pk)
       = Value (mkPlayer None (Some [])) →
       decryptFailed
         (decryptMyCards wallet tableIdString chain submission inco
            h).1.2 = true).
Proof.
  intros H.
  specialize (H alice "alice" "7"
                (mkChain (λ _, Value true) (λ _, Threw "unused")
                   (λ _, Value (mkPlayer None (Some []))))
                accepted network initialHook eq_refl eq_refl eq_refl).
  discriminate H.
Qed.

(** *** Joining a table *)

Lemma fetchPlayerInfo_run tid chain a h :
  ∃ info, fetchPlayerInfo tid chain a h
          = (Value info, h, [FetchPlayer (PlayerPda tid a)]).
Proof.
  unfold fetchPlayerInfo, tryCatch, call, mbind, Async_bind, mret,
    Async_ret.
  destruct (fetchPlayer chain (PlayerPda tid a)); eexists; reflexivity.
Qed.

Lemma forEach_fetchPlayerInfo tid chain l h :
  ∃ infos, forEach (fetchPlayerInfo tid chain) l h
           = (Value infos, h, (λ a, FetchPlayer (PlayerPda tid a)) <$> l).
Proof.
  induction l as [|a l [infos IH]]; [by eexists|].
  destruct (fetchPlayerInfo_run tid chain a h) as [info Hinfo].
  exists (info :: infos). simpl.
  unfold mbind, Async_bind at 1. rewrite Hinfo.
  unfold mbind, Async_bind at 1. rewrite IH.
  unfold mret, Async_ret. simpl. by rewrite app_nil_r.
Qed.

(** [fetchTable] never throws, only reads the ledger, and does not touch
    [isJoining]; it leaves [error] cleared when the table account and
    its decoding are both obtained. *)
Lemma fetchTable_run wallet tid chain h :
  ∃ h' es,
    fetchTable wallet tid chain false h = (Value (), h', es) ∧
    Forall (λ e, isRead e = true) es ∧
    isJoining h' = isJoining h ∧
    (∀ t, anchorWallet wallet = true →
          getAccountInfo chain (TablePda tid) = Value true →
          fetchLiarsTable chain (TablePda tid) = Value t →
          error h' = None).
Proof.
  unfold fetchTable, finally, tryCatch.
  unfold mbind at 1 2. unfold Async_bind at 1 2.
  unfold mret at 1, Async_ret at 1, call at 1.
  destruct (getAccountInfo chain (TablePda tid)) as [m|[|]] eqn:Hinfo.
  - do 2 eexists. split; [reflexivity|].
    split; [by repeat constructor|]. split; [by destruct h|]. done.
  - destruct (anchorWallet wallet) eqn:Hw; simpl.
    + unfold mbind at 1, Async_bind at 1, call at 1.
      destruct (fetchLiarsTable chain (TablePda tid)) as [m|t] eqn:Ht.
      * do 2 eexists. split; [reflexivity|].
        split; [by repeat constructor|]. split; [by destruct h|]. done.
      * unfold mbind at 1, Async_bind at 1.
        destruct (forEach_fetchPlayerInfo tid chain (t_players t) h)
          as [infos ->].
        unfold modify, mbind, Async_bind, mret, Async_ret.
        destruct (t_isOver t), (t_isOpen t),
          (0 <? Z.of_nat (length (t_players t))),
          ((0 <=? t_trunToPlay t)
           && (t_trunToPlay t <? Z.of_nat (length (t_players t))));
          simpl;
          (do 2 eexists; split; [reflexivity|];
           split;
           [ rewrite ?app_nil_r;
             repeat (apply Forall_cons; split; [reflexivity|]);
             apply Forall_fmap, Forall_true; done
           | split; [by destruct h | intros; by destruct h] ]).
    + do 2 eexists. split; [reflexivity|].
      split; [by repeat constructor|]. split; [by destruct h|]. done.
  - simpl. do 2 eexists. split; [reflexivity|].
    split; [by repeat constructor|]. split; [by destruct h|]. done.
Qed.

Example join_existing_refetch_fails :
  let r := joinTable alice "7" throttled accepted throttled "cat"
             initialHook in
  r.1.1 = Value true ∧ error r.1.2 = Some "429 Too Many Requests".
Proof. vm_compute. split; reflexivity. Qed.

(** C10, as the code has it.  For a call that passes the checks made
    before the lookup (wallet connected, a character id given and not in
    the taken list) and finds the caller's player account on chain,
    [joinTable] returns true; it clears [error], looks the account up,
    runs [fetchTable] and resets [isJoining], and makes no other call:
    nothing is built, simulated, signed or sent.  [error] ends as the
    refetch leaves it, cleared when the table account is found and
    decoded. *)
Theorem join_existing_account (wallet : Wallet) (pk : string)
    (tableIdString : string) (chain : Chain) (submission : Submission)
    (chainAfter : Chain) (characterId : string) (h : Hook) :
  publicKey wallet = Some pk →
  anchorWallet wallet = true →
  sendTransaction wallet = true →
  truthy characterId = true →
  characterId ∉ takenCharacters h →
  getAccountInfo chain (PlayerPda tableIdString pk) = Value true →
  let r := joinTable wallet tableIdString chain submission chainAfter
             characterId h in
  let refetch := fetchTable wallet tableIdString chain false
                   (setError None (setIsJoining true h)) in
  r = (Value true, setIsJoining false refetch.1.2,
       GetAccountInfo (PlayerPda tableIdString pk) :: refetch.2) ∧
  Forall (λ e, isRead e = true) r.2 ∧
  isJoining r.1.2 = false ∧
  (∀ t, getAccountInfo chain (TablePda tableIdString) = Value true →
        fetchLiarsTable chain (TablePda tableIdString) = Value t →
        error r.1.2 = None).
Proof.
  intros Hpk Hwallet Hsend Hid Hfree Hexists. simpl.
  destruct (fetchTable_run wallet tableIdString chain
              (setError None (setIsJoining true h)))
    as (h' & es & Hrun & Hreads & _ & Hclear).
  assert (joinTable wallet tableIdString chain submission chainAfter
            characterId h
          = (Value true, setIsJoining false h',
             GetAccountInfo (PlayerPda tableIdString pk) :: es)) as ->.
  { unfold joinTable. rewrite Hpk, Hwallet, Hsend, Hid.
    cbn [negb andb].
    unfold current, modify, finally, tryCatch, call, mbind, Async_bind,
      mret, Async_ret.
    rewrite bool_decide_eq_false_2 by done.
    cbn beta iota zeta. rewrite Hexists.
    cbn beta iota zeta. rewrite Hrun.
    cbn [app]. by rewrite app_nil_r. }
  rewrite Hrun. simpl. repeat split.
  - apply Forall_cons. by split.
  - by destruct h'.
  - intros t Htable Hdecode.
    rewrite <- (Hclear t Hwallet Htable Hdecode). by destruct h'.
Qed.

Lemma join_existing_account_witness :
  let r := joinTable alice "7" (ledger tupleHand) accepted
             (ledger tupleHand) "lion" initialHook in
  r.1.1 = Value true ∧
  Forall (λ e, isRead e = true) r.2 ∧
  error r.1.2 = None.
Proof.
  destruct (join_existing_account alice "alice" "7" (ledger tupleHand)
              accepted (ledger tupleHand) "lion" initialHook
              eq_refl eq_refl eq_refl eq_refl)
    as (Hrun & Hreads & _ & Hclear).
  - simpl. apply not_elem_of_nil.
  - reflexivity.
  - split; [by rewrite Hrun|]. split; [exact Hreads|].
    apply (Hclear (mkLiarsTable "7" ["alice"; "bob"] false false 1 0
                     (Some (-1)) (Some 0))); reflexivity.
Defined.

(** C10 as worded fails: the refetch may set [error] (here the table
    lookup is refused), and [joinTable] still returns true. *)
Lemma join_error_cleared_refuted :
  ¬ (∀ (wallet : Wallet) (pk tableIdString : string) (chain : Chain)
       (submission : Submission) (chainAfter : Chain)
       (characterId : string) (h : Hook),
       publicKey wallet = Some pk →
       getAccountInfo chain (PlayerPda tableIdString pk) = Value true →
       let r := joinTable wallet tableIdString chain submission
                  chainAfter characterId h in
       r.1.1 = Value true ∧
       Forall (λ e, isRead e = true) r.2 ∧
       error r.1.2 = None).
Proof.
  intros H.
  destruct (H alice "alice" "7" throttled accepted throttled "cat"
              initialHook eq_refl eq_refl) as (_ & _ & Herr).
  vm_compute in Herr. discriminate Herr.
Qed.

End TableFacts.

Module ReducerHistoryFacts.
Import Reducer History ReducerFacts.

Lemma step_players_NoDup now e s :
  NoDup (players s) → NoDup (players (updateGameState now e s)).
Proof.
  intros Hnd. destruct e; simpl; try exact Hnd.
  destruct (includes player (players s)) eqn:Hin; [exact Hnd|].
  apply includes_false in Hin.
  apply NoDup_app. repeat split; [exact Hnd| |apply NoDup_singleton].
  intros x Hx Hx'. apply list_elem_of_singleton in Hx'. by subst.
Qed.

Lemma step_active_NoDup now e s :
  activePlayers s ⊆ players s →
  NoDup (activePlayers s) →
  NoDup (activePlayers (updateGameState now e s)).
Proof.
  intros Hsub Hnd. destruct e; simpl; try exact Hnd.
  - destruct (includes player (players s)) eqn:Hin; [exact Hnd|].
    apply includes_false in Hin.
    apply NoDup_app. repeat split; [exact Hnd| |apply NoDup_singleton].
    intros x Hx Hx'. apply list_elem_of_singleton in Hx'. subst.
    by apply Hin, Hsub.
  - unfold without. by apply NoDup_filter.
Qed.

(** The rosters never hold an identity twice: from the initial state and
    for every sequence of events, [players] and [activePlayers] are free of
    duplicates. *)
Theorem rosters_never_duplicate (evs : list timed) (tid : string) :
  let s := applyAll evs (createInitialGameState tid) in
  NoDup (players s) ∧ NoDup (activePlayers s).
Proof.
  simpl.
  assert (activePlayers (applyAll evs (createInitialGameState tid))
            ⊆ players (applyAll evs (createInitialGameState tid))
          ∧ NoDup (players (applyAll evs (createInitialGameState tid)))
          ∧ NoDup (activePlayers
                     (applyAll evs (createInitialGameState tid))))
    as (_ & H1 & H2); [|by split].
  induction evs as [|e evs IH] using rev_ind.
  - simpl. repeat split; [done | apply NoDup_nil_2 | apply NoDup_nil_2].
  - rewrite applyAll_snoc. destruct IH as (Hsub & Hp & Ha).
    repeat split.
    + by apply step_active_subset.
    + by apply step_players_NoDup.
    + by apply step_active_NoDup.
Qed.

Lemma step_keeps_eliminated now e s q :
  q ∈ players s → q ∉ activePlayers s →
  q ∈ players (updateGameState now e s)
  ∧ q ∉ activePlayers (updateGameState now e s).
Proof.
  intros Hin Hout. destruct e; simpl; try (by split).
  - destruct (includes player (players s)) eqn:Hinc; [by split|].
    apply includes_false in Hinc. split.
    + apply elem_of_app. by left.
    + intros Hq. apply elem_of_app in Hq as [Hq|Hq]; [done|].
      apply list_elem_of_singleton in Hq. by subst.
  - split; [done|]. intros Hq. apply elem_of_without in Hq as [_ Hq]. done.
Qed.

(** An eliminated player stays out.  After a [playerEleminated] event for
    an identity that had joined, no later sequence of events (a repeated
    join included) puts it back into [activePlayers], and it stays in
    [players]. *)
Theorem eliminated_stays_out (now : Z) (tid q : string) (evs : list timed)
    (s : GameState) :
  q ∈ players s →
  let s' := applyAll evs (updateGameState now (playerEleminated tid q) s) in
  q ∈ players s' ∧ q ∉ activePlayers s'.
Proof.
  intros Hin. simpl.
  induction evs as [|e evs IH] using rev_ind.
  - simpl. split; [done|].
    intros Hq. apply elem_of_without in Hq as [Hne _]. done.
  - rewrite applyAll_snoc. destruct IH as [Hp Ha].
    by apply step_keeps_eliminated.
Qed.

Lemma eliminated_stays_out_witness :
  let s := applyAll [(1, playerJoined "7" "alice")]
             (createInitialGameState "7") in
  let s' := applyAll [(3, playerJoined "7" "alice")]
              (updateGameState 2 (playerEleminated "7" "alice") s) in
  "alice" ∈ players s' ∧ "alice" ∉ activePlayers s'.
Proof.
  apply (eliminated_stays_out 2 "7" "alice" [(3, playerJoined "7" "alice")]
           (applyAll [(1, playerJoined "7" "alice")]
              (createInitialGameState "7"))).
  simpl. apply list_elem_of_here.
Defined.

Lemma placedSinceRoundStart_snoc start evs e :
  placedSinceRoundStart start (evs ++ [e])
  = match e.2 with
    | roundStarted _ => []
    | cardPlaced _ player =>
        placedSinceRoundStart start evs ++ [mkMove player e.1]
    | _ => placedSinceRoundStart start evs
    end.
Proof. unfold placedSinceRoundStart. by rewrite foldl_app. Qed.

(** [moves] is the record of the current round: after every sequence of
    events it lists, in order and with their clock values, exactly the
    [cardPlaced] events that came after the last [roundStarted]. *)
Theorem moves_record_current_round (evs : list timed) (s : GameState) :
  moves (applyAll evs s) = placedSinceRoundStart (moves s) evs.
Proof.
  induction evs as [|e evs IH] using rev_ind; [done|].
  rewrite applyAll_snoc, placedSinceRoundStart_snoc.
  destruct e as [now e]. destruct e; simpl; try exact IH; [done|].
  by rewrite IH.
Qed.

End ReducerHistoryFacts.

Module ListenerFacts.
Import Js Reducer Poller Listener.

Example listener_drops_empty_table_id :
  event (listener "7" None 1 1 (RoundStartedEvent "") 
           (createInitialGameState "7")) = None ∧
  mapDecodedToPayload (asDecoded (RoundStartedEvent "")) "7"
  = Value (Some (roundStarted "")).
Proof. split; reflexivity. Qed.


End ListenerFacts.

Module EventLogFacts.
Import Js Reducer Listener EventLog.

Example shorten_address :
  shorten "F618XAoLrCWU7vx5ccd9HB1x85ttjqWwb77FG4TSVWE6" = "F618...VWE6".
Proof. reflexivity. Qed.

Example shorten_short : shorten "ab" = "ab...ab".
Proof. reflexivity. Qed.

Lemma lastN_all {A} (n : nat) (l : list A) :
  (length l ≤ n)%nat → lastN n l = l.
Proof.
  intros H. unfold lastN. replace (length l - n)%nat with 0%nat by lia.
  done.
Qed.

Lemma lastN_length {A} (n : nat) (l : list A) :
  length (lastN n l) = Nat.min n (length l).
Proof. unfold lastN. rewrite length_drop. lia. Qed.

Lemma lastN_snoc {A} (n : nat) (l : list A) (x : A) :
  lastN (S n) (l ++ [x]) = lastN n l ++ [x].
Proof.
  unfold lastN. rewrite length_app. simpl.
  replace (length l + 1 - S n)%nat with (length l - n)%nat by lia.
  rewrite drop_app_le by lia. done.
Qed.

Lemma lastN_lastN {A} (n m : nat) (l : list A) :
  (n ≤ m)%nat → lastN n (lastN m l) = lastN n l.
Proof.
  intros H. unfold lastN. rewrite length_drop, drop_drop. f_equal. lia.
Qed.

Lemma lastN_fmap {A B} (f : A → B) (n : nat) (l : list A) :
  f <$> lastN n l = lastN n (f <$> l).
Proof. unfold lastN. by rewrite fmap_drop, length_fmap. Qed.

Lemma handleAll_snoc evs e panel :
  handleAll (evs ++ [e]) panel
  = handleEvent e.1.1 e.1.2 e.2 (handleAll evs panel).
Proof. unfold handleAll. by rewrite foldl_app. Qed.

Lemma handleEvent_log now nowAnimation e panel :
  entry_type <$> eventLog (handleEvent now nowAnimation e panel)
  = lastN 49 (entry_type <$> eventLog panel) ++ [typeOf e].
Proof.
  unfold handleEvent. destruct (describe e) as [[message player] anim].
  simpl. by rewrite fmap_app, lastN_fmap.
Qed.

(** The event log is a window on the last fifty events: after every
    sequence of handled events it holds one entry per event, oldest first,
    for the last fifty of them and no other. *)
Theorem event_log_window (evs : list (Z * Z * GameEventPayload)) :
  let log := eventLog (handleAll evs (mkPanel [] None)) in
  entry_type <$> log = lastN 50 (typeOf <$> evs.*2) ∧
  length log = Nat.min 50 (length evs).
Proof.
  simpl.
  assert (entry_type <$> eventLog (handleAll evs (mkPanel [] None))
          = lastN 50 (typeOf <$> evs.*2)) as Hlog.
  { induction evs as [|e evs IH] using rev_ind; [done|].
    rewrite handleAll_snoc, handleEvent_log, IH.
    rewrite lastN_lastN by lia.
    rewrite !fmap_app. simpl. by rewrite lastN_snoc. }
  split; [exact Hlog|].
  apply (f_equal length) in Hlog.
  rewrite length_fmap, lastN_length, !length_fmap in Hlog. exact Hlog.
Qed.

End EventLogFacts.

Module PollerFilterFacts.
Import Js Reducer Poller Payload Samples MoreSamples.

Ltac solve_payload H Hf :=
  repeat match type of H with
         | context [str ?f] => destruct f; simpl in H
         end;
  try discriminate H;
  injection H as <-; simpl;
  apply andb_false_iff in Hf as [Hf|Hf];
  [ right; unfold truthy in Hf; apply negb_false_iff in Hf;
    by apply String.eqb_eq in Hf
  | left; apply negb_false_iff in Hf; by apply String.eqb_eq in Hf ].

Lemma mapDecodedToPayload_table decoded tableId payload :
  mapDecodedToPayload decoded tableId = Value (Some payload) →
  payloadTableId payload = tableId ∨ payloadTableId payload = "".
Proof.
  unfold mapDecodedToPayload. intros H.
  destruct (d_tableId (data decoded)) as [t|] eqn:Ht.
  - destruct (truthy t && negb (String.eqb t tableId)) eqn:Hf;
      [discriminate H|].
    repeat match type of H with
           | context [if String.eqb (name decoded) ?b then _ else _] =>
               destruct (String.eqb (name decoded) b);
               [ unfold mbind, outcome_bind in H; simpl in H;
                 solve_payload H Hf |]
           end.
    discriminate H.
  - repeat match type of H with
           | context [if String.eqb (name decoded) ?b then _ else _] =>
               destruct (String.eqb (name decoded) b);
               [ discriminate H |]
           end.
    discriminate H.
Qed.

Lemma processLog_deliver rpc tableId walletStr log payload :
  Deliver payload ∈ processLog rpc tableId walletStr log →
  payloadTableId payload = tableId ∨ payloadTableId payload = "".
Proof.
  unfold processLog.
  destruct (negb (String.prefix marker log)); [by intros H; inversion H|].
  destruct (eventParser_decode rpc _) as [m|[decoded|]];
    try (by intros H; inversion H).
  destruct (mapDecodedToPayload decoded tableId) as [m|[p|]] eqn:Hmap;
    try (by intros H; inversion H).
  intros H. apply elem_of_app in H as [H|H].
  - destruct p; try (by inversion H).
    destruct walletStr as [w|]; [|by inversion H].
    destruct (truthy w && String.eqb player w); [|by inversion H].
    apply list_elem_of_singleton in H. discriminate H.
  - apply list_elem_of_singleton in H. injection H as ->.
    by apply (mapDecodedToPayload_table decoded).
Qed.

Lemma processLog_shuffled rpc tableId walletStr log next :
  CardsShuffled next ∈ processLog rpc tableId walletStr log →
  ∃ t w, walletStr = Some w ∧ w ≠ "" ∧
         processLog rpc tableId walletStr log
         = [CardsShuffled next; Deliver (suffleCardsForPlayer t w next)].
Proof.
  unfold processLog.
  destruct (negb (String.prefix marker log)); [by intros H; inversion H|].
  destruct (eventParser_decode rpc _) as [m|[decoded|]];
    try (by intros H; inversion H).
  destruct (mapDecodedToPayload decoded tableId) as [m|[p|]] eqn:Hmap;
    try (by intros H; inversion H).
  intros H.
  destruct p; simpl in H;
    try (apply list_elem_of_singleton in H; discriminate H).
  destruct walletStr as [w|];
    [|apply list_elem_of_singleton in H; discriminate H].
  destruct (truthy w && String.eqb player w) eqn:Hw;
    [|apply list_elem_of_singleton in H; discriminate H].
  apply andb_prop in Hw as [Hw1 Hw2].
  apply String.eqb_eq in Hw2 as ->.
  apply elem_of_cons in H as [H|H].
  - injection H as ->. eexists _, w. repeat split.
    intros ->. discriminate Hw1.
  - apply list_elem_of_singleton in H. discriminate H.
Qed.

Lemma processBatch_from_log rpc tableId walletStr newSigs active e :
  e ∈ (processBatch rpc tableId walletStr newSigs active).2 →
  ∃ log, e ∈ processLog rpc tableId walletStr log ∧
         processLog rpc tableId walletStr log
           ⊆ (processBatch rpc tableId walletStr newSigs active).2.
Proof.
  revert active. induction newSigs as [|sigInfo rest IH]; intros active.
  - simpl. by intros H; inversion H.
  - simpl. destruct (err sigInfo || negb active); [apply IH|].
    simpl. intros H. apply elem_of_app in H as [H|H].
    + destruct (result (getTransaction rpc (signature sigInfo)))
        as [m|[logs|]]; try (by inversion H).
      pose proof H as H'.
      apply list_elem_of_In, in_flat_map in H' as (log & Hlog & H').
      exists log. split; [by apply list_elem_of_In|].
      intros x Hx. apply elem_of_app. left.
      apply list_elem_of_In, in_flat_map. exists log.
      split; [done | by apply list_elem_of_In].
    + destruct (IH _ H) as (log & Hlog & Hsub).
      exists log. split; [done|].
      intros x Hx. apply elem_of_app. right. by apply Hsub.
Qed.

Lemma resume_from_log rpc tableId walletStr listing st e :
  e ∈ (resume rpc tableId walletStr listing st).2 →
  ∃ log, e ∈ processLog rpc tableId walletStr log ∧
         processLog rpc tableId walletStr log
           ⊆ (resume rpc tableId walletStr listing st).2.
Proof.
  unfold resume.
  destruct (result listing)
    as [m|[|newest older]]; try (by intros H; inversion H).
  destruct (negb (isInitialized st)); [by intros H; inversion H|].
  apply processBatch_from_log.
Qed.

(** The table filter holds for a whole cycle, whatever its listing
    brings and whatever other cycles did to the cursor meanwhile: every
    payload that a poll cycle hands to the consumers carries the
    subscribed table id, or an empty table id (an empty id is falsy and
    passes the filter). *)
Theorem poll_delivers_own_table (rpc : Rpc) (tableId : string)
    (walletStr : option string) (listing : Awaited (list SigInfo))
    (st : PollState) (payload : GameEventPayload) :
  Deliver payload ∈ (resume rpc tableId walletStr listing st).2 →
  payloadTableId payload = tableId ∨ payloadTableId payload = "".
Proof.
  intros H. apply resume_from_log in H as (log & H & _).
  by apply (processLog_deliver rpc tableId walletStr log).
Qed.

Lemma poll_delivers_own_table_witness :
  payloadTableId (tableTrun "7" "s3") = "7"
  ∨ payloadTableId (tableTrun "7" "s3") = "".
Proof.
  apply (poll_delivers_own_table sampleRpc "7" None
           (getSignaturesForAddress sampleRpc (request (polling "s1")))
           (polling "s1")).
  vm_compute. apply list_elem_of_here.
Defined.

(** The shuffle callback fires only for the connected wallet's own
    shuffles: a call with [next] in a cycle means a wallet is connected
    and the cycle also delivers a shuffle event for that wallet with that
    [next]. *)
Theorem shuffle_callback_own_wallet (rpc : Rpc) (tableId : string)
    (walletStr : option string) (listing : Awaited (list SigInfo))
    (st : PollState) (next : string) :
  CardsShuffled next ∈ (resume rpc tableId walletStr listing st).2 →
  ∃ t w, walletStr = Some w ∧ w ≠ "" ∧
         Deliver (suffleCardsForPlayer t w next)
           ∈ (resume rpc tableId walletStr listing st).2.
Proof.
  intros H.
  destruct (resume_from_log _ _ _ _ _ _ H) as (log & Hlog & Hsub).
  destruct (processLog_shuffled _ _ _ _ _ Hlog) as (t & w & Hw & Hne & Heq).
  exists t, w. repeat split; [done..|].
  apply Hsub. rewrite Heq. apply list_elem_of_further, list_elem_of_here.
Qed.

Lemma shuffle_callback_own_wallet_witness :
  ∃ t w, Some "alice" = Some w ∧ w ≠ "" ∧
         Deliver (suffleCardsForPlayer t w "bob")
           ∈ (poll shuffleRpc "7" (Some "alice") (polling "s0")).2.
Proof.
  apply (shuffle_callback_own_wallet shuffleRpc "7" (Some "alice")
           (getSignaturesForAddress shuffleRpc (request (polling "s0")))
           (polling "s0") "bob").
  vm_compute. apply list_elem_of_here.
Defined.

Lemma processBatch_stopped rpc tableId walletStr newSigs :
  processBatch rpc tableId walletStr newSigs false = (false, []).
Proof.
  induction newSigs as [|sigInfo rest IH]; [done|].
  simpl. by rewrite orb_true_r.
Qed.

(** Nothing is delivered after a stop, yet the cursor moves: when the
    effect's cleanup runs while the listing of a cycle is pending, the
    cycle fetches and delivers nothing and still ends with the cursor at
    the newest signature listed. *)
Theorem stopped_cycle_delivers_nothing (rpc : Rpc) (tableId : string)
    (walletStr : option string) (st : PollState)
    (newest : SigInfo) (older : list SigInfo) :
  isActive st = true →
  isInitialized st = true →
  cleanupRan (getSignaturesForAddress rpc (request st)) = true →
  result (getSignaturesForAddress rpc (request st))
    = Value (newest :: older) →
  poll rpc tableId walletStr st
  = ({| isActive := false; lastSignature := Some (signature newest);
        isInitialized := true |}, []).
Proof.
  intros Hact Hinit Hstop Hlist. unfold poll, resume.
  rewrite Hact, Hinit, Hstop, Hlist. simpl.
  by rewrite processBatch_stopped.
Qed.

Lemma stopped_cycle_delivers_nothing_witness :
  poll stoppedRpc "7" None (polling "s1")
  = ({| isActive := false; lastSignature := Some "s3";
        isInitialized := true |}, []).
Proof.
  apply (stopped_cycle_delivers_nothing stoppedRpc "7" None (polling "s1")
           (mkSigInfo "s3" false) [mkSigInfo "s2" false]);
    reflexivity.
Defined.

End PollerFilterFacts.

Module HandlesFacts.
Import Js Handles.

Example buffer_of_258 :
  handleBuffer 258 = [2; 1; 0; 0; 0; 0; 0; 0; 0; 0; 0; 0; 0; 0; 0; 0].
Proof. reflexivity. Qed.

Example matches_in_log :
  logHandles "AS_EUINT128 Event: lhs=3, result=2784, result=0 result=x"
  = [2784].
Proof. vm_compute. reflexivity. Qed.

Example hex_in_log :
  logHandles "h=0x000000000000000000000000000000ff."
  = [255].
Proof. vm_compute. reflexivity. Qed.

Example hex_behind_failed_start :
  matchHex 0 "0x12340x000000000000000000000000000000ff"
  = ["000000000000000000000000000000ff"].
Proof. vm_compute. reflexivity. Qed.

Lemma byteAt_range h i : 0 ≤ byteAt h i < 256.
Proof.
  unfold byteAt. change 255 with (Z.ones 8).
  rewrite Z.land_ones by lia. apply Z.mod_pos_bound. lia.
Qed.

Lemma shiftOut_byteAt n k h :
  shiftOut n (Z.shiftr h (Z.of_nat k * 8)) = byteAt h <$> seq k n.
Proof.
  revert k. induction n as [|n IH]; intros k; [done|].
  simpl. f_equal. rewrite Z.shiftr_shiftr by lia.
  replace (Z.of_nat k * 8 + 8) with (Z.of_nat (S k) * 8) by lia.
  apply IH.
Qed.

(** The two loops that turn a handle into the sixteen seed bytes of its
    allowance address (indexing the shift by the byte position, or
    shifting the handle down byte by byte) fill the same buffer, for every
    handle, and every byte lies in 0..255. *)
Theorem handle_buffers_agree (handle : Z) :
  handleBufferShifting handle = handleBuffer handle ∧
  length (handleBuffer handle) = 16%nat ∧
  Forall (λ b, 0 ≤ b < 256) (handleBuffer handle).
Proof.
  split; [|split].
  - unfold handleBufferShifting, handleBuffer.
    rewrite <- (shiftOut_byteAt 16 0 handle). by rewrite Z.shiftr_0_r.
  - unfold handleBuffer. by rewrite length_fmap, length_seq.
  - unfold handleBuffer. apply Forall_fmap, Forall_true.
    intros i. apply byteAt_range.
Qed.

Lemma foldl_ext_in {A B} (f g : A → B → A) (l : list B) (a : A) :
  (∀ acc x, x ∈ l → f acc x = g acc x) → foldl f a l = foldl g a l.
Proof.
  revert a. induction l as [|x l IH]; intros a H; [done|].
  simpl. rewrite H by apply list_elem_of_here.
  apply IH. intros acc y Hy. apply H. by apply list_elem_of_further.
Qed.

Lemma gather_bytes h n :
  foldl (λ acc j, Z.lor acc (Z.shiftl (byteAt h j) (Z.of_nat j * 8)))
    0 (seq 0 n)
  = Z.land h (Z.ones (Z.of_nat n * 8)).
Proof.
  induction n as [|n IH]; [by rewrite Z.land_0_r|].
  rewrite seq_S, foldl_app, IH. simpl.
  apply Z.bits_inj'. intros k Hk.
  rewrite Z.lor_spec, !Z.land_spec, Z.shiftl_spec by lia.
  rewrite !Z.testbit_ones_nonneg by lia.
  unfold byteAt.
  destruct (Z.ltb_spec k (Z.of_nat n * 8)) as [Hlt|Hge].
  - rewrite (Z.testbit_neg_r _ (k - Z.of_nat n * 8)) by lia.
    rewrite orb_false_r. f_equal. symmetry. apply Z.ltb_lt. lia.
  - rewrite andb_false_r. simpl.
    rewrite Z.land_spec, Z.shiftr_spec by lia.
    replace (k - Z.of_nat n * 8 + Z.of_nat n * 8) with k by lia.
    f_equal. change 255 with (Z.ones 8).
    rewrite Z.testbit_ones_nonneg by lia.
    destruct (Z.ltb_spec (k - Z.of_nat n * 8) 8);
      destruct (Z.ltb_spec k (Z.of_nat (S n) * 8)); (done || lia).
Qed.

Lemma at_handleBuffer h j :
  (j < 16)%nat → at_ (handleBuffer h) j = byteAt h j.
Proof.
  intros Hj. unfold at_, handleBuffer.
  rewrite list_lookup_fmap, lookup_seq_lt by done. done.
Qed.

Lemma length_handleBuffer h : length (handleBuffer h) = 16%nat.
Proof. unfold handleBuffer. by rewrite length_fmap, length_seq. Qed.

(** Reading sixteen bytes at offset [i] only looks at those bytes. *)
Lemma readAt_app_l pre buffer i :
  readAt (pre ++ buffer) (length pre + i) = readAt buffer i.
Proof.
  unfold readAt. apply foldl_ext_in. intros acc j _.
  unfold at_. rewrite <- Nat.add_assoc, lookup_app_r by lia.
  do 4 f_equal. lia.
Qed.

Lemma readAt_app_r buffer post i :
  (i + 16 ≤ length buffer)%nat →
  readAt (buffer ++ post) i = readAt buffer i.
Proof.
  intros Hi. unfold readAt. apply foldl_ext_in. intros acc j Hj.
  apply elem_of_seq in Hj.
  unfold at_. rewrite lookup_app_l by lia. done.
Qed.

Lemma readAt_handleBuffer h :
  readAt (handleBuffer h) 0 = h mod 2 ^ 128.
Proof.
  unfold readAt.
  rewrite (foldl_ext_in _
             (λ acc j, Z.lor acc (Z.shiftl (byteAt h j) (Z.of_nat j * 8)))).
  - rewrite gather_bytes. by rewrite Z.land_ones.
  - intros acc j Hj. apply elem_of_seq in Hj. simpl.
    rewrite at_handleBuffer by lia. done.
Qed.

(** Writing a handle into the seed buffer and reading the buffer back as
    the return-data loop does gives the handle modulo 2^128: a 128-bit
    handle comes back unchanged, so distinct 128-bit handles never share
    their seed bytes. *)
Theorem handle_buffer_round_trip (handle : Z) :
  readAt (handleBuffer handle) 0 = handle mod 2 ^ 128 ∧
  (0 ≤ handle < 2 ^ 128 → readAt (handleBuffer handle) 0 = handle) ∧
  (∀ other, 0 ≤ handle < 2 ^ 128 → 0 ≤ other < 2 ^ 128 →
            handleBuffer handle = handleBuffer other → handle = other).
Proof.
  split; [apply readAt_handleBuffer|]. split.
  - intros Hr. rewrite readAt_handleBuffer. by apply Z.mod_small.
  - intros other Hh Ho Heq.
    rewrite <- (Z.mod_small handle (2 ^ 128)) by done.
    rewrite <- (Z.mod_small other (2 ^ 128)) by done.
    by rewrite <- !readAt_handleBuffer, Heq.
Qed.

Lemma dedupe_elem x seen l : x ∈ dedupe seen l ↔ x ∈ l ∧ x ∉ seen.
Proof.
  revert seen. induction l as [|h rest IH]; intros seen; simpl.
  - split; [by intros H; inversion H | by intros [H _]; inversion H].
  - case_bool_decide as Hseen.
    + rewrite IH, elem_of_cons. split; [by intros [? ?]; split; [right|]|].
      intros [[->|?] ?]; [done | by split].
    + rewrite !elem_of_cons, IH, elem_of_cons. split.
      * intros [->|[? Hn]]; [by split; [left|] |].
        split; [by right | intros ?; apply Hn; by right].
      * intros [[->|Hin] Hn]; [by left|].
        destruct (decide (x = h)) as [->|Hne]; [by left|].
        right. split; [done|]. by intros [?|?].
Qed.

Lemma dedupe_NoDup seen l : NoDup (dedupe seen l).
Proof.
  revert seen. induction l as [|h rest IH]; intros seen; simpl.
  - apply NoDup_nil_2.
  - case_bool_decide; [apply IH|].
    apply NoDup_cons. split; [|apply IH].
    rewrite dedupe_elem. intros [_ Hn]. apply Hn, list_elem_of_here.
Qed.

Lemma logHandles_nonzero log : 0 ∉ logHandles log.
Proof.
  unfold logHandles. rewrite elem_of_app, !list_elem_of_filter.
  by intros [[? _]|[? _]].
Qed.

Lemma returnDataHandles_nonzero buffer : 0 ∉ returnDataHandles buffer.
Proof.
  unfold returnDataHandles. rewrite list_elem_of_filter. by intros [? _].
Qed.

(** The handles parsed out of a simulation are pairwise distinct and none
    of them is zero, whatever the logs and the return data hold. *)
Theorem parsed_handles_distinct_nonzero (logs : option (list string))
    (returnData : option (list Z)) :
  NoDup (parseHandlesFromSimulation logs returnData) ∧
  0 ∉ parseHandlesFromSimulation logs returnData.
Proof.
  unfold parseHandlesFromSimulation. split; [apply dedupe_NoDup|].
  rewrite dedupe_elem, elem_of_app. intros [[H|H] _].
  - apply list_elem_of_In, in_flat_map in H as (log & _ & H).
    apply list_elem_of_In in H. by apply (logHandles_nonzero log).
  - destruct returnData as [buffer|]; [|by inversion H].
    by apply (returnDataHandles_nonzero buffer).
Qed.

End HandlesFacts.

Module ReturnDataFacts.
Import Js Handles HandlesFacts.

Lemma length_concat_buffers hs :
  length (concat (handleBuffer <$> hs)) = (16 * length hs)%nat.
Proof.
  induction hs as [|h hs IH]; [done|].
  cbn [fmap list_fmap concat]. rewrite length_app, length_handleBuffer.
  fold (fmap (M:=list) handleBuffer hs). rewrite IH. simpl. lia.
Qed.

Lemma read_concat_buffers hs :
  (λ k, readAt (concat (handleBuffer <$> hs)) (16 * k)) <$> seq 0 (length hs)
  = (λ h, h mod 2 ^ 128) <$> hs.
Proof.
  induction hs as [|h hs IH]; [done|].
  rewrite fmap_cons, concat_cons.
  change (length (h :: hs)) with (S (length hs)).
  rewrite <- cons_seq, !fmap_cons. f_equal.
  - rewrite Nat.mul_0_r, readAt_app_r
      by (rewrite length_handleBuffer; lia).
    apply readAt_handleBuffer.
  - rewrite <- IH, <- fmap_S_seq, <- list_fmap_compose.
    apply list_fmap_ext. intros _ k _. unfold compose.
    replace (16 * S k)%nat with (length (handleBuffer h) + 16 * k)%nat
      by (rewrite length_handleBuffer; lia).
    exact (readAt_app_l (handleBuffer h) _ (16 * k)).
Qed.

Lemma returnDataHandles_concat hs :
  returnDataHandles (concat (handleBuffer <$> hs))
  = filter (λ v, v ≠ 0) ((λ h, h mod 2 ^ 128) <$> hs).
Proof.
  unfold returnDataHandles. rewrite length_concat_buffers.
  replace (16 * length hs / 16)%nat with (length hs)
    by (symmetry; rewrite Nat.mul_comm; by apply Nat.div_mul).
  by rewrite read_concat_buffers.
Qed.

(** Handles returned by a simulation are found again: when the return
    data is a run of handles, each written as the sixteen bytes that the
    seed loop produces, every non-zero 128-bit handle among them is in the
    parsed result. *)
Theorem return_data_handles_found (logs : option (list string))
    (hs : list Z) (h : Z) :
  h ∈ hs →
  0 < h < 2 ^ 128 →
  h ∈ parseHandlesFromSimulation logs
        (Some (concat (handleBuffer <$> hs))).
Proof.
  intros Hin Hr. unfold parseHandlesFromSimulation.
  rewrite dedupe_elem. split; [|by intros H; inversion H].
  apply elem_of_app. right. rewrite returnDataHandles_concat.
  apply list_elem_of_filter. split; [lia|].
  apply list_elem_of_fmap. exists h. split; [|done].
  symmetry. apply Z.mod_small. lia.
Qed.

Lemma return_data_handles_found_witness :
  258 ∈ parseHandlesFromSimulation (Some ["result=7"])
          (Some (concat (handleBuffer <$> [7; 0; 258]))).
Proof.
  apply (return_data_handles_found (Some ["result=7"]) [7; 0; 258] 258).
  - do 2 apply list_elem_of_further. apply list_elem_of_here.
  - lia.
Defined.

End ReturnDataFacts.

Module CacheStoreFacts.
Import Js CardCache Text.

Example keys_collide_on_hyphen :
  getCardCacheKey "7-1" "alice" = getCardCacheKey "7" "1-alice".
Proof. reflexivity. Qed.

(** Two texts cut at the first [c] are equal part by part. *)
Lemma split_at_first c x x' r r' :
  free c x = true → free c x' = true →
  x +:+ String c r = x' +:+ String c r' → x = x' ∧ r = r'.
Proof.
  revert x'. induction x as [|d x IH]; intros [|d' x'] Hx Hx' Heq;
    simpl in *.
  - by injection Heq as ->.
  - injection Heq as -> _.
    apply andb_prop in Hx' as [Hd _]. by rewrite Ascii.eqb_refl in Hd.
  - injection Heq as -> _.
    apply andb_prop in Hx as [Hd _]. by rewrite Ascii.eqb_refl in Hd.
  - injection Heq as -> Heq.
    apply andb_prop in Hx as [_ Hx]. apply andb_prop in Hx' as [_ Hx'].
    destruct (IH x' Hx Hx' Heq) as [-> ->]. done.
Qed.

Lemma app_inv_head_string p s s' : p +:+ s = p +:+ s' → s = s'.
Proof. induction p as [|c p IH]; simpl; [done|]. intros [= H]. auto. Qed.

Lemma cache_key_inj tableId wallet tableId' wallet' :
  free hyphen tableId = true → free hyphen tableId' = true →
  getCardCacheKey tableId wallet = getCardCacheKey tableId' wallet' →
  tableId = tableId' ∧ wallet = wallet'.
Proof.
  intros Ht Ht' Heq. unfold getCardCacheKey in Heq.
  apply app_inv_head_string in Heq.
  by apply (split_at_first hyphen).
Qed.

(** What is saved can be loaded: after [saveCachedCards] with a non-empty
    list of decrypted cards, [loadCachedCards] for the same table, wallet
    and encrypted hand returns that list and leaves the entry in place; a
    saved empty list is not returned, it is deleted on load. *)
Theorem save_then_load_round_trip (tableId wallet : string)
    (encryptedCards : list EncryptedCard) (decrypted : list DecryptedCard)
    (localStorage : gmap string Stored) :
  let saved := saveCachedCards tableId wallet encryptedCards decrypted
                 localStorage in
  (decrypted ≠ [] →
   loadCachedCards tableId wallet encryptedCards saved
   = (Some decrypted, saved)) ∧
  (decrypted = [] →
   loadCachedCards tableId wallet encryptedCards saved
   = (None, delete (getCardCacheKey tableId wallet) localStorage)).
Proof.
  simpl. unfold loadCachedCards, saveCachedCards.
  rewrite lookup_insert_eq. simpl. rewrite String.eqb_refl. simpl.
  split.
  - intros Hne. destruct decrypted; [done|]. reflexivity.
  - intros ->. simpl. by rewrite delete_insert_eq.
Qed.

(** Entries of different players do not interfere: for table ids without
    a hyphen (they are decimal numbers), saving or clearing the cache of
    one (table, wallet) pair leaves what [loadCachedCards] returns for any
    other pair as it was. *)
Theorem cache_entries_independent (tableId wallet tableId' wallet' : string)
    (saved : list EncryptedCard) (decrypted : list DecryptedCard)
    (encryptedCards : list EncryptedCard)
    (localStorage : gmap string Stored) :
  free hyphen tableId = true →
  free hyphen tableId' = true →
  (tableId, wallet) ≠ (tableId', wallet') →
  (loadCachedCards tableId' wallet' encryptedCards
     (saveCachedCards tableId wallet saved decrypted localStorage)).1
  = (loadCachedCards tableId' wallet' encryptedCards localStorage).1 ∧
  (loadCachedCards tableId' wallet' encryptedCards
     (clearCardCache tableId wallet localStorage)).1
  = (loadCachedCards tableId' wallet' encryptedCards localStorage).1.
Proof.
  intros Ht Ht' Hne.
  assert (getCardCacheKey tableId wallet ≠ getCardCacheKey tableId' wallet')
    as Hkey.
  { intros Heq. apply Hne.
    destruct (cache_key_inj _ _ _ _ Ht Ht' Heq) as [-> ->]. done. }
  unfold loadCachedCards, saveCachedCards, clearCardCache.
  rewrite lookup_insert_ne, lookup_delete_ne by done.
  destruct (localStorage !! getCardCacheKey tableId' wallet')
    as [[| |c]|]; try done.
  simpl. by destruct (_ && _).
Qed.

Lemma cache_entries_independent_witness :
  (loadCachedCards "7" "bob" Samples.hand
     (saveCachedCards "7" "alice" Samples.hand Samples.plain ∅)).1
  = (loadCachedCards "7" "bob" Samples.hand ∅).1.
Proof.
  apply (cache_entries_independent "7" "alice" "7" "bob" Samples.hand
           Samples.plain Samples.hand ∅); [reflexivity | reflexivity |].
  intros [= H].
Defined.

Lemma tuple_fingerprint_length hand :
  Forall (λ c, ∃ a b, c = mkEncryptedCard (Tuple a) (Tuple b)) hand →
  getEncryptedFingerprint hand
  = String.concat "|"
      (replicate (length hand) "[object Object]:[object Object]").
Proof.
  unfold getEncryptedFingerprint. intros H. f_equal.
  induction H as [|c hand (a & b & ->) _ IH]; [done|].
  rewrite fmap_cons. cbn [length replicate]. by rewrite IH.
Qed.

(** When every handle of a hand arrives as a tuple object (the number
    under key ["0"]), whose [toString()] is the default one, the
    fingerprint depends on the number of cards only: a cache entry saved
    for one such hand is returned for any other such hand of the same
    size. *)
Theorem tuple_hands_share_fingerprint (tableId wallet : string)
    (hand hand' : list EncryptedCard) (decrypted : list DecryptedCard)
    (localStorage : gmap string Stored) :
  Forall (λ c, ∃ a b, c = mkEncryptedCard (Tuple a) (Tuple b)) hand →
  Forall (λ c, ∃ a b, c = mkEncryptedCard (Tuple a) (Tuple b)) hand' →
  length hand = length hand' →
  decrypted ≠ [] →
  getEncryptedFingerprint hand = getEncryptedFingerprint hand' ∧
  (loadCachedCards tableId wallet hand'
     (saveCachedCards tableId wallet hand decrypted localStorage)).1
  = Some decrypted.
Proof.
  intros Hh Hh' Hlen Hne.
  assert (getEncryptedFingerprint hand = getEncryptedFingerprint hand')
    as Hfp.
  { rewrite !tuple_fingerprint_length by done. by rewrite Hlen. }
  split; [exact Hfp|].
  unfold loadCachedCards, saveCachedCards.
  rewrite lookup_insert_eq. simpl. rewrite Hfp, String.eqb_refl.
  by destruct decrypted.
Qed.

Lemma tuple_hands_share_fingerprint_witness :
  (loadCachedCards "7" "alice"
     [mkEncryptedCard (Tuple 31) (Tuple 32)]
     (saveCachedCards "7" "alice" Samples.tupleHand Samples.plain ∅)).1
  = Some Samples.plain.
Proof.
  apply (tuple_hands_share_fingerprint "7" "alice" Samples.tupleHand
           [mkEncryptedCard (Tuple 31) (Tuple 32)] Samples.plain ∅).
  - repeat constructor. by exists 11%N, 12%N.
  - repeat constructor. by exists 31%N, 32%N.
  - reflexivity.
  - discriminate.
Defined.

End CacheStoreFacts.

Module PipelineFacts.
Import Js CardCache Table Pipeline Samples TableFacts.

Lemma reveal_step c m h :
  setMyCards (myCards (setCardHandleMap m h) ++ [c]) (setCardHandleMap m h)
  = setMyCards (myCards h ++ [c]) (setCardHandleMap m h).
Proof. by destruct h. Qed.

Lemma reveal_more cards c m m' h :
  setMyCards
    (myCards (setMyCards (myCards h ++ [c]) (setCardHandleMap m h)) ++ cards)
    (setCardHandleMap m'
       (setMyCards (myCards h ++ [c]) (setCardHandleMap m h)))
  = setMyCards (myCards h ++ c :: cards) (setCardHandleMap m' h).
Proof. destruct h. simpl. by rewrite <- app_assoc. Qed.

(** The loop reveals cards one by one until an answer fails. *)
Lemma decryptEach_run inco handles acc h :
  ∃ m' r,
    decryptEach inco handles acc h
    = (r,
       setMyCards (myCards h ++ revealedPrefix inco handles)
         (setCardHandleMap m' h),
       (λ hs, Decrypt hs.1 hs.2)
         <$> take (S (length (revealedPrefix inco handles))) handles)
    ∧ (allDecrypt inco handles = true →
       r = Value (acc ++ revealedPrefix inco handles)
       ∧ length (revealedPrefix inco handles) = length handles)
    ∧ (allDecrypt inco handles = false → ∃ m, r = Threw m).
Proof.
  revert acc h. induction handles as [|[s v] rest IH]; intros acc h.
  - exists (cardHandleMap h), (Value acc). simpl. split.
    + unfold mret, Async_ret. rewrite app_nil_r. by destruct h.
    + split; [by rewrite app_nil_r | done].
  - simpl. unfold plainOf. simpl.
    unfold mbind at 1, Async_bind at 1, call at 1.
    destruct (decrypt inco s v) as [m|plain] eqn:Hd.
    + exists (cardHandleMap h), (Threw m). simpl. split.
      * rewrite app_nil_r. by destruct h.
      * split; [done | by eexists].
    + unfold mbind at 1 2, Async_bind at 1 2, modify at 1 2.
      cbn beta iota zeta.
      set (c := {| shape := plain.1; value := plain.2 |}).
      rewrite reveal_step.
      destruct (IH (acc ++ [c])
                  (setMyCards (myCards h ++ [c])
                     (setCardHandleMap
                        (<[s +:+ ":" +:+ v := c]> (cardHandleMap h)) h)))
        as (m' & r & -> & Hok & Hbad).
      exists m', r. simpl. split.
      * by rewrite reveal_more.
      * split.
        -- intros Hall. destruct (Hok Hall) as [-> Hlen].
           rewrite <- app_assoc. simpl. by rewrite Hlen.
        -- exact Hbad.
Qed.

End PipelineFacts.

Module DecryptFacts.
Import Js CardCache Table Pipeline Samples TableFacts PipelineFacts.

Lemma decryptPipeline_granted tid pk chain sub inco h player held :
  fetchPlayer chain (PlayerPda tid pk) = Value player →
  p_cards player = Some held →
  held ≠ [] →
  granted sub →
  ∃ m' out h' n,
    decryptPipeline tid pk chain sub inco h
    = (Value out, setIsDecryptingCards false h',
       [FetchPlayer (PlayerPda tid pk);
        BuildTransaction "grantCardAccess"
          (flat_map
             (λ card,
                [AllowancePda (extractHandle (card_shape card)) pk;
                 AllowancePda (extractHandle (card_value card)) pk])
             held);
        GetLatestBlockhash; SignTransaction; SendRawTransaction;
        ConfirmTransaction; Sleep 3000]
       ++ ((λ hs, Decrypt hs.1 hs.2)
             <$> take n (handleStrings <$> held)))
    ∧ n = S (length (revealedPrefix inco (handleStrings <$> held)))
    ∧ (allDecrypt inco (handleStrings <$> held) = true →
       out = revealedPrefix inco (handleStrings <$> held)
       ∧ length out = length held
       ∧ h' = setLocalStorage
                (saveCachedCards tid pk held out (localStorage h))
                (setMyCards (myCards h ++ out) (setCardHandleMap m' h)))
    ∧ (allDecrypt inco (handleStrings <$> held) = false →
       out = []
       ∧ h' = setDecryptFailed true
                (setMyCards
                   (myCards h
                    ++ revealedPrefix inco (handleStrings <$> held))
                   (setCardHandleMap m' h))).
Proof.
  intros Hfetch Hcards Hne (Hb & Hl & Hs & Hse & Hc).
  unfold decryptPipeline, finally, tryCatch.
  unfold mbind at 1, Async_bind at 1, call at 1. rewrite Hfetch, Hcards.
  destruct held as [|card held]; [done|].
  unfold mbind at 1 2 3 4 5 6, Async_bind at 1 2 3 4 5 6.
  unfold call at 1 2 3 4 5 6. rewrite Hb, Hl, Hs, Hse, Hc.
  cbn beta iota zeta.
  unfold mbind at 1, Async_bind at 1.
  destruct (decryptEach_run inco (handleStrings <$> card :: held) [] h)
    as (m' & r & Hrun & Hok & Hbad).
  change ((λ card0 : EncryptedCard,
             (decimal (extractHandle (card_shape card0)),
              decimal (extractHandle (card_value card0))))
            <$> card :: held)
    with (handleStrings <$> card :: held).
  rewrite Hrun.
  destruct (allDecrypt inco (handleStrings <$> card :: held)) eqn:Hall.
  - destruct (Hok eq_refl) as [-> Hlen].
    unfold mbind, Async_bind, modify, mret, Async_ret.
    cbn beta iota zeta.
    eexists m', _, _, _. split; [|split; [reflexivity|split]].
    + rewrite !app_nil_r. reflexivity.
    + intros _. split; [done|]. split.
      * etransitivity; [exact Hlen | apply length_fmap].
      * by destruct h.
    + done.
  - destruct (Hbad eq_refl) as [m ->].
    unfold mbind, Async_bind, modify, mret, Async_ret.
    cbn beta iota zeta.
    eexists m', _, _, _. split; [|split; [reflexivity|split]].
    + rewrite !app_nil_r. reflexivity.
    + done.
    + intros _. split; reflexivity.
Qed.

End DecryptFacts.

Module DecryptTheorems.
Import Js CardCache Table Pipeline Samples MoreSamples TableFacts
  PipelineFacts DecryptFacts.

Lemma decryptMyCards_pipeline wallet pk tid chain sub inco h :
  canDecrypt wallet = true →
  publicKey wallet = Some pk →
  decryptMyCards wallet tid chain sub inco h
  = decryptPipeline tid pk chain sub inco (setIsDecryptingCards true h).
Proof.
  intros Hcan Hpk. unfold decryptMyCards. rewrite Hpk, Hcan.
  unfold mbind, Async_bind, modify.
  by destruct (decryptPipeline tid pk chain sub inco
                 (setIsDecryptingCards true h)) as [[r h'] es].
Qed.



(** A failed decrypt request stops the pipeline where it is.  When the
    grant went through and some answer of the confidential network fails,
    [decryptMyCards] returns the empty list and raises [decryptFailed];
    the cards revealed before the failure stay in [myCards]; the last
    request made is the failing one, none follows it; nothing is written
    to the cache; [isDecryptingCards] is reset. *)
Theorem decrypt_failure_keeps_revealed (wallet : Wallet)
    (pk tableIdString : string) (chain : Chain) (submission : Submission)
    (inco : Inco) (h : Hook) (player : Player)
    (held : list EncryptedCard) :
  canDecrypt wallet = true →
  publicKey wallet = Some pk →
  fetchPlayer chain (PlayerPda tableIdString pk) = Value player →
  p_cards player = Some held →
  held ≠ [] →
  granted submission →
  allDecrypt inco (handleStrings <$> held) = false →
  let r := decryptMyCards wallet tableIdString chain submission inco h in
  let revealed := revealedPrefix inco (handleStrings <$> held) in
  r.1.1 = Value [] ∧
  decryptFailed r.1.2 = true ∧
  myCards r.1.2 = myCards h ++ revealed ∧
  localStorage r.1.2 = localStorage h ∧
  isDecryptingCards r.1.2 = false ∧
  drop 7 r.2
  = (λ hs, Decrypt hs.1 hs.2)
      <$> take (S (length revealed)) (handleStrings <$> held).
Proof.
  intros Hcan Hpk Hfetch Hcards Hne Hgrant Hall. simpl.
  rewrite (decryptMyCards_pipeline _ pk) by done.
  destruct (decryptPipeline_granted tableIdString pk chain submission inco
              (setIsDecryptingCards true h) player held
              Hfetch Hcards Hne Hgrant)
    as (m' & out & h' & n & -> & -> & _ & Hbad).
  destruct (Hbad Hall) as (-> & ->). simpl.
  repeat split; by destruct h.
Qed.

Lemma decrypt_failure_keeps_revealed_witness :
  let r := decryptMyCards alice "7" (ledger twoCards) accepted
             failsOnSecond initialHook in
  r.1.1 = Value [] ∧
  decryptFailed r.1.2 = true ∧
  myCards r.1.2 = [mkDecryptedCard 2 5] ∧
  localStorage r.1.2 = ∅.
Proof.
  destruct (decrypt_failure_keeps_revealed alice "alice" "7"
              (ledger twoCards) accepted failsOnSecond initialHook
              (mkPlayer (Some "bull") (Some twoCards)) twoCards
              eq_refl eq_refl eq_refl eq_refl)
    as (Hr & Hf & Hm & Hl & _);
    [discriminate | by repeat split | reflexivity |].
  split; [exact Hr|]. split; [exact Hf|]. split; [exact Hm | exact Hl].
Defined.

End DecryptTheorems.

Module DecryptGuardFacts.
Import Js CardCache Table Pipeline Samples MoreSamples CachedSamples
  TableFacts.

Ltac no_decrypt H :=
  repeat (apply elem_of_cons in H as [H|H]; [discriminate H|]);
  by inversion H.

(** No plaintext is requested without a confirmed grant: whatever the
    wallet, the ledger and the networks answer, a decrypt request among
    the calls of [decryptMyCards] means that the access-grant transaction
    was built, signed, sent and confirmed. *)
Theorem decrypt_only_after_grant (wallet : Wallet) (tableIdString : string)
    (chain : Chain) (submission : Submission) (inco : Inco) (h : Hook)
    (shapeHandle valueHandle : string) :
  Decrypt shapeHandle valueHandle
    ∈ (decryptMyCards wallet tableIdString chain submission inco h).2 →
  granted submission.
Proof.
  unfold decryptMyCards.
  destruct (publicKey wallet) as [pk|]; [|by intros H; inversion H].
  destruct (canDecrypt wallet); [|by intros H; inversion H].
  unfold decryptPipeline, finally, tryCatch.
  unfold mbind at 1 2, Async_bind at 1 2, modify at 1, call at 1.
  destruct (fetchPlayer chain (PlayerPda tableIdString pk))
    as [m|player]; [intros H; simpl in H; no_decrypt H|].
  destruct (p_cards player) as [[|card held]|];
    [intros H; simpl in H; no_decrypt H | | intros H; simpl in H; no_decrypt H].
  unfold mbind at 1 2 3 4 5 6, Async_bind at 1 2 3 4 5 6.
  unfold call at 1 2 3 4 5 6.
  destruct submission as [b l si s se c]. unfold granted. simpl.
  destruct b as [m|[]]; [intros H; simpl in H; no_decrypt H|].
  destruct l as [m|[]]; [intros H; simpl in H; no_decrypt H|].
  destruct s as [m|[]]; [intros H; simpl in H; no_decrypt H|].
  destruct se as [m|[]]; [intros H; simpl in H; no_decrypt H|].
  destruct c as [m|[]]; [intros H; simpl in H; no_decrypt H|].
  intros _. repeat split.
Qed.

Lemma decrypt_only_after_grant_witness : granted accepted.
Proof.
  apply (decrypt_only_after_grant alice "7" (ledger tupleHand) accepted
           network initialHook "11" "12").
  vm_compute. do 7 apply list_elem_of_further. apply list_elem_of_here.
Defined.

Lemma setLocalStorage_same h : setLocalStorage (localStorage h) h = h.
Proof. by destruct h. Qed.

(** A cached hand is shown without touching the network.  When the
    render shows encrypted cards for the wallet, none revealed, no
    decryption running or failed and the game playing, and the cache
    holds a non-empty entry whose fingerprint is that of the encrypted
    cards, the hook's auto-decrypt effect sets [myCards] to the cached
    list, starts no invocation of [decryptMyCards] and makes no remote
    call. *)
Theorem auto_decrypt_uses_cache (wallet : Wallet) (pk tableIdString : string)
    (render h : Hook) (c : CardCache) :
  publicKey wallet = Some pk →
  myEncryptedCards wallet render ≠ [] →
  myCards render = [] →
  isDecryptingCards render = false →
  decryptFailed render = false →
  gameState render = playing →
  localStorage h !! getCardCacheKey tableIdString pk = Some (Json c) →
  fingerprint c = getEncryptedFingerprint (myEncryptedCards wallet render) →
  cards c ≠ [] →
  autoDecrypt wallet tableIdString render h
  = (Value None, setMyCards (cards c) h, []).
Proof.
  intros Hpk Henc Hmine Hrun Hfail Hstate Hget Hfp Hcards.
  unfold autoDecrypt.
  rewrite Hpk, Hmine, Hrun, Hfail, Hstate.
  destruct (myEncryptedCards wallet render) as [|e es] eqn:He; [done|].
  cbn [length Nat.eqb Nat.ltb Nat.leb orb negb].
  rewrite bool_decide_eq_true_2 by done. cbn [negb].
  unfold current. unfold mbind at 1, Async_bind at 1.
  unfold loadCachedCards. rewrite Hget, Hfp, String.eqb_refl.
  destruct (cards c) as [|d ds] eqn:Hc; [done|].
  cbn [length andb fst snd].
  unfold mbind, Async_bind, modify. simpl.
  by rewrite setLocalStorage_same.
Qed.

Lemma auto_decrypt_uses_cache_witness :
  autoDecrypt alice "7" cachedSession cachedSession
  = (Value None, setMyCards [mkDecryptedCard 2 5] cachedSession, []).
Proof.
  apply (auto_decrypt_uses_cache alice "alice" "7" cachedSession
           cachedSession
           (mkCardCache (getEncryptedFingerprint tupleHand)
              [mkDecryptedCard 2 5]));
    (reflexivity || discriminate).
Defined.

(** Both triggers hold back once a render shows the decryption running
    or failed: on such a render neither the hook's effect nor the page's
    effect starts an invocation, changes the state or makes a call. *)
Theorem triggers_idle_on_flagged_render (wallet : Wallet)
    (tableIdString : string) (render h : Hook) :
  isDecryptingCards render = true ∨ decryptFailed render = true →
  autoDecrypt wallet tableIdString render h = (Value None, h, []) ∧
  pageAutoDecrypt wallet render h = (Value None, h, []).
Proof.
  intros Hflag. split.
  - unfold autoDecrypt.
    destruct (publicKey wallet) as [pk|]; [|reflexivity].
    destruct ((length (myEncryptedCards wallet render) =? 0)%nat
              || (0 <? length (myCards render))%nat); [reflexivity|].
    by destruct Hflag as [-> | ->]; rewrite ?orb_true_r.
  - unfold pageAutoDecrypt.
    destruct Hflag as [-> | ->]; cbn [negb];
      by rewrite ?andb_false_r.
Qed.

Lemma triggers_idle_on_flagged_render_witness :
  autoDecrypt alice "7" (setIsDecryptingCards true dealt)
    (setIsDecryptingCards true dealt)
  = (Value None, setIsDecryptingCards true dealt, []) ∧
  pageAutoDecrypt alice (setIsDecryptingCards true dealt)
    (setIsDecryptingCards true dealt)
  = (Value None, setIsDecryptingCards true dealt, []).
Proof.
  apply (triggers_idle_on_flagged_render alice "7"
           (setIsDecryptingCards true dealt)
           (setIsDecryptingCards true dealt)).
  left. reflexivity.
Defined.

End DecryptGuardFacts.

Module RefetchFacts.
Import Js CardCache Table Refetch Samples TableFacts.

Lemma fetchPlayerInfo_is tid chain a h :
  fetchPlayerInfo tid chain a h
  = (Value (playerInfoOf tid chain a), h, [FetchPlayer (PlayerPda tid a)]).
Proof.
  unfold fetchPlayerInfo, playerInfoOf, tryCatch, call, mbind, Async_bind,
    mret, Async_ret.
  by destruct (fetchPlayer chain (PlayerPda tid a)).
Qed.

Lemma forEach_fetchPlayerInfo_is tid chain l h :
  forEach (fetchPlayerInfo tid chain) l h
  = (Value (playerInfoOf tid chain <$> l), h,
     (λ a, FetchPlayer (PlayerPda tid a)) <$> l).
Proof.
  induction l as [|a l IH]; [done|].
  cbn [forEach]. unfold mbind at 1, Async_bind at 1.
  rewrite fetchPlayerInfo_is.
  unfold mbind at 1, Async_bind at 1. rewrite IH.
  unfold mret, Async_ret. by rewrite app_nil_r.
Qed.

(** [fetchTable] in direct style, case by case. *)
Lemma fetchTable_cases wallet tid chain (b : bool) h :
  let h0 := if b then setIsLoading true h else h in
  let fin := λ x : Hook, if b then setIsLoading false x else x in
  fetchTable wallet tid chain b h
  = match getAccountInfo chain (TablePda tid) with
    | Threw m =>
        (Value (), fin (setError (failure m "Failed to fetch table") h0),
         [GetAccountInfo (TablePda tid)])
    | Value false =>
        (Value (),
         fin (setTableData None (setError (Some "Table not found") h0)),
         [GetAccountInfo (TablePda tid)])
    | Value true =>
        if negb (anchorWallet wallet)
        then (Value (), fin h0, [GetAccountInfo (TablePda tid)])
        else
          match fetchLiarsTable chain (TablePda tid) with
          | Threw m =>
              (Value (),
               fin (setError (failure m "Failed to fetch table") h0),
               [GetAccountInfo (TablePda tid);
                FetchLiarsTable (TablePda tid)])
          | Value t =>
              (Value (), fin (applyTable tid chain t h0),
               GetAccountInfo (TablePda tid)
               :: FetchLiarsTable (TablePda tid)
               :: ((λ a, FetchPlayer (PlayerPda tid a)) <$> t_players t))
          end
    end.
Proof.
  simpl. unfold fetchTable, finally, tryCatch.
  unfold mbind at 1 2, Async_bind at 1 2.
  assert ((if b then modify (setIsLoading true) else mret ()) h
          = (Value (), if b then setIsLoading true h else h, [])) as ->.
  { by destruct b. }
  unfold call at 1.
  destruct (getAccountInfo chain (TablePda tid)) as [m|[|]]; try done.
  cbn [negb].
  destruct (anchorWallet wallet); cbn [negb]; [|done].
  unfold mbind at 1, Async_bind at 1, call at 1.
  destruct (fetchLiarsTable chain (TablePda tid)) as [m|t]; [done|].
  unfold mbind at 1, Async_bind at 1.
  rewrite forEach_fetchPlayerInfo_is.
  unfold applyTable, phaseOf, tableDataOf.
  unfold modify, mbind, Async_bind, mret, Async_ret.
  destruct (t_isOver t), (t_isOpen t),
    (0 <? Z.of_nat (length (t_players t))),
    ((0 <=? t_trunToPlay t)
     && (t_trunToPlay t <? Z.of_nat (length (t_players t))));
    cbn beta iota zeta; by rewrite ?app_nil_r.
Qed.

End RefetchFacts.

Module RefetchTheorems.
Import Js CardCache Table Refetch Samples MoreSamples TableFacts
  RefetchFacts.

Lemma orElse_nonempty message fallback :
  fallback ≠ "" → orElse message fallback ≠ "".
Proof.
  unfold orElse, truthy. intros Hf.
  destruct (String.eqb_spec message ""); simpl; done.
Qed.

Lemma reads_of_players tid (l : list string) :
  Forall (λ e, isRead e = true)
    ((λ a, FetchPlayer (PlayerPda tid a)) <$> l).
Proof. by apply Forall_fmap, Forall_true. Qed.

Lemma phaseOf_keeps t h :
  myCards (phaseOf t h) = myCards h
  ∧ cardHandleMap (phaseOf t h) = cardHandleMap h
  ∧ localStorage (phaseOf t h) = localStorage h
  ∧ isDecryptingCards (phaseOf t h) = isDecryptingCards h
  ∧ decryptFailed (phaseOf t h) = decryptFailed h
  ∧ isJoining (phaseOf t h) = isJoining h
  ∧ isLoading (phaseOf t h) = isLoading h
  ∧ tableData (phaseOf t h) = tableData h
  ∧ tableDataRef (phaseOf t h) = tableDataRef h
  ∧ error (phaseOf t h) = error h
  ∧ isOver (phaseOf t h) = isOver h
  ∧ shuffleTurn (phaseOf t h) = shuffleTurn h.
Proof. unfold phaseOf. repeat case_match; by destruct h. Qed.

Lemma fetchTable_settles wallet tableIdString chain
    (isInitialFetch : bool) h :
  let r := fetchTable wallet tableIdString chain isInitialFetch h in
  r.1.1 = Value () ∧
  Forall (λ e, isRead e = true) r.2 ∧
  isLoading r.1.2 = (if isInitialFetch then false else isLoading h) ∧
  myCards r.1.2 = myCards h ∧
  cardHandleMap r.1.2 = cardHandleMap h ∧
  localStorage r.1.2 = localStorage h ∧
  isDecryptingCards r.1.2 = isDecryptingCards h ∧
  decryptFailed r.1.2 = decryptFailed h ∧
  isJoining r.1.2 = isJoining h.
Proof.
  cbv zeta. rewrite fetchTable_cases.
  destruct (getAccountInfo chain (TablePda tableIdString)) as [m|[|]].
  - destruct isInitialFetch, h; repeat split; by repeat constructor.
  - destruct (anchorWallet wallet); cbn [negb].
    + destruct (fetchLiarsTable chain (TablePda tableIdString)) as [m|t].
      * destruct isInitialFetch, h; repeat split; by repeat constructor.
      * cbn [fst snd]. split; [done|]. split.
        { repeat (apply Forall_cons; split; [done|]).
          apply reads_of_players. }
        unfold applyTable.
        set (h1 := setIsOver _ _).
        destruct (phaseOf_keeps t h1)
          as (H1 & H2 & H3 & H4 & H5 & H6 & H7 & _).
        destruct isInitialFetch.
        -- repeat split;
             [ by destruct (phaseOf t h1)
             | destruct (phaseOf t h1) eqn:E; simpl in *; subst;
               by destruct h .. ].
        -- repeat split;
             destruct (phaseOf t h1) eqn:E; simpl in *; subst;
             by destruct h.
    + destruct isInitialFetch, h; repeat split; by repeat constructor.
  - destruct isInitialFetch, h; repeat split; by repeat constructor.
Qed.

(** A refetch never throws and never writes.  Whatever the ledger
    answers, [fetchTable] returns normally, makes only read calls, leaves
    the revealed cards, the handle map, the cache and the decryption and
    joining flags as they were, and an initial fetch always ends with
    [isLoading] false. *)
Theorem fetch_table_settles (wallet : Wallet) (tableIdString : string)
    (chain : Chain) (isInitialFetch : bool) (h : Hook) :
  let r := fetchTable wallet tableIdString chain isInitialFetch h in
  r.1.1 = Value () ∧
  Forall (λ e, isRead e = true) r.2 ∧
  isLoading r.1.2 = (if isInitialFetch then false else isLoading h) ∧
  myCards r.1.2 = myCards h ∧
  cardHandleMap r.1.2 = cardHandleMap h ∧
  localStorage r.1.2 = localStorage h ∧
  isDecryptingCards r.1.2 = isDecryptingCards h ∧
  decryptFailed r.1.2 = decryptFailed h ∧
  isJoining r.1.2 = isJoining h.
Proof.
  exact (fetchTable_settles wallet tableIdString chain isInitialFetch h).
Qed.

End RefetchTheorems.

Module RefetchOutcomes.
Import Js CardCache Table Refetch Samples MoreSamples TableFacts
  RefetchFacts RefetchTheorems.

Lemma fetchTable_success wallet tid chain b h t :
  anchorWallet wallet = true →
  getAccountInfo chain (TablePda tid) = Value true →
  fetchLiarsTable chain (TablePda tid) = Value t →
  (fetchTable wallet tid chain b h).1.2
  = (if b then setIsLoading false else id)
      (applyTable tid chain t (if b then setIsLoading true h else h)).
Proof.
  intros Hw Hacc Ht. rewrite fetchTable_cases, Hacc, Hw, Ht.
  by destruct b.
Qed.

(** A transient failure keeps the last good table.  When the lookup of
    the table account or the decoding of the table throws, [fetchTable]
    stores a non-empty message in [error] and leaves [tableData], the game
    phase, the turn and the shuffle turn as they were. *)
Theorem fetch_failure_keeps_table (wallet : Wallet)
    (tableIdString : string) (chain : Chain) (isInitialFetch : bool)
    (h : Hook) (message : string) :
  getAccountInfo chain (TablePda tableIdString) = Threw message
  ∨ (getAccountInfo chain (TablePda tableIdString) = Value true
     ∧ anchorWallet wallet = true
     ∧ fetchLiarsTable chain (TablePda tableIdString) = Threw message) →
  let h' := (fetchTable wallet tableIdString chain isInitialFetch h).1.2 in
  error h' = Some (orElse message "Failed to fetch table") ∧
  error h' ≠ Some "" ∧
  tableData h' = tableData h ∧
  gameState h' = gameState h ∧
  currentTurnPlayer h' = currentTurnPlayer h ∧
  shuffleTurn h' = shuffleTurn h.
Proof.
  intros Hfail. cbv zeta. rewrite fetchTable_cases.
  assert (Some (orElse message "Failed to fetch table") ≠ Some "") as Hne.
  { intros [= H]. by apply (orElse_nonempty message) in H. }
  destruct Hfail as [->|(-> & -> & ->)]; cbn [negb];
    destruct isInitialFetch, h; repeat split; exact Hne.
Qed.

Lemma fetch_failure_keeps_table_witness :
  let h := (fetchTable alice "7" (ledger tupleHand) true
              initialHook).1.2 in
  let h' := (fetchTable alice "7" throttled false h).1.2 in
  error h' = Some "429 Too Many Requests" ∧ tableData h' = tableData h.
Proof.
  destruct (fetch_failure_keeps_table alice "7" throttled false
              (fetchTable alice "7" (ledger tupleHand) true
                 initialHook).1.2
              "429 Too Many Requests" (or_introl eq_refl))
    as (He & _ & Ht & _).
  split; [exact He | exact Ht].
Defined.

(** A refetch lists every player of the table, in the table's order, even
    when some player accounts cannot be fetched: when the table account
    is found and decoded, [tableData] and [tableDataRef] hold the same
    data, [error] is cleared, the player infos carry the players'
    addresses one for one, and a player whose account fetch throws is
    listed with no character and no cards. *)
Theorem fetch_lists_every_player (wallet : Wallet) (tableIdString : string)
    (chain : Chain) (isInitialFetch : bool) (h : Hook) (t : LiarsTable) :
  anchorWallet wallet = true →
  getAccountInfo chain (TablePda tableIdString) = Value true →
  fetchLiarsTable chain (TablePda tableIdString) = Value t →
  let h' := (fetchTable wallet tableIdString chain isInitialFetch h).1.2 in
  ∃ td,
    tableData h' = Some td ∧ tableDataRef h' = Some td ∧
    error h' = None ∧
    players td = t_players t ∧
    address <$> playerInfos td = t_players t ∧
    (∀ a m, a ∈ t_players t →
            fetchPlayer chain (PlayerPda tableIdString a) = Threw m →
            mkPlayerInfo a None [] ∈ playerInfos td).
Proof.
  intros Hw Hacc Ht. cbv zeta.
  rewrite (fetchTable_success _ _ _ _ _ t) by done.
  exists (tableDataOf tableIdString chain t).
  unfold applyTable.
  set (h1 := setIsOver _ _).
  destruct (phaseOf_keeps t h1)
    as (_ & _ & _ & _ & _ & _ & _ & Htd & Href & _).
  assert (tableData h1 = Some (tableDataOf tableIdString chain t)
          ∧ tableDataRef h1 = Some (tableDataOf tableIdString chain t))
    as [Hd Hr].
  { subst h1. by destruct isInitialFetch, h. }
  rewrite Hd in Htd. rewrite Hr in Href.
  split; [|split; [|split; [|split; [|split]]]].
  - destruct isInitialFetch; destruct (phaseOf t h1); simpl in *; done.
  - destruct isInitialFetch; destruct (phaseOf t h1); simpl in *; done.
  - destruct isInitialFetch; by destruct (phaseOf t h1).
  - done.
  - simpl. rewrite <- list_fmap_compose.
    rewrite <- (list_fmap_id (t_players t)) at 2.
    apply list_fmap_ext. intros _ a _. simpl. unfold playerInfoOf.
    by destruct (fetchPlayer chain (PlayerPda tableIdString a)).
  - intros a m Ha Hthrow. simpl. apply list_elem_of_fmap.
    exists a. split; [|done]. unfold playerInfoOf. by rewrite Hthrow.
Qed.

Lemma fetch_lists_every_player_witness :
  ∃ td,
    tableData (fetchTable alice "7" (ledger tupleHand) true
                 initialHook).1.2 = Some td ∧
    address <$> playerInfos td = ["alice"; "bob"].
Proof.
  destruct (fetch_lists_every_player alice "7" (ledger tupleHand) true
              initialHook
              (mkLiarsTable "7" ["alice"; "bob"] false false 1 0
                 (Some (-1)) (Some 0))
              eq_refl eq_refl eq_refl)
    as (td & Htd & _ & _ & _ & Haddr & _).
  exists td. split; [exact Htd | exact Haddr].
Defined.

(** The turn that a refetch shows is a player of the table.  After a
    successful refetch the game phase is [ended] when the table is over,
    [lobby] when it is open; the current-turn player is either left as it
    was or set, during play, to the member of the fetched players list at
    the table's turn index. *)
Theorem fetch_turn_within_players (wallet : Wallet)
    (tableIdString : string) (chain : Chain) (isInitialFetch : bool)
    (h : Hook) (t : LiarsTable) :
  anchorWallet wallet = true →
  getAccountInfo chain (TablePda tableIdString) = Value true →
  fetchLiarsTable chain (TablePda tableIdString) = Value t →
  let h' := (fetchTable wallet tableIdString chain isInitialFetch h).1.2 in
  (t_isOver t = true → gameState h' = ended) ∧
  (t_isOver t = false → t_isOpen t = true → gameState h' = lobby) ∧
  isOver h' = t_isOver t ∧
  (currentTurnPlayer h' = currentTurnPlayer h
   ∨ ∃ p, currentTurnPlayer h' = Some p ∧ p ∈ t_players t
          ∧ t_players t !! Z.to_nat (t_trunToPlay t) = Some p
          ∧ gameState h' = playing).
Proof.
  intros Hw Hacc Ht. cbv zeta.
  rewrite (fetchTable_success _ _ _ _ _ t) by done.
  unfold applyTable, phaseOf.
  destruct (t_isOver t) eqn:Hover.
  { destruct isInitialFetch, h; repeat split; try done; by left. }
  destruct (t_isOpen t) eqn:Hopen.
  { destruct isInitialFetch, h; repeat split; try done; by left. }
  destruct (0 <? Z.of_nat (length (t_players t))) eqn:Hlen;
    [|destruct isInitialFetch, h; repeat split; try done; by left].
  destruct ((0 <=? t_trunToPlay t)
            && (t_trunToPlay t <? Z.of_nat (length (t_players t))))
    eqn:Hrange;
    [|destruct isInitialFetch, h; repeat split; try done; by left].
  apply andb_prop in Hrange as [Hlo Hhi].
  apply Z.leb_le in Hlo. apply Z.ltb_lt in Hhi.
  destruct (lookup_lt_is_Some_2 (t_players t) (Z.to_nat (t_trunToPlay t)))
    as [p Hp]; [lia|].
  repeat split; try done;
    try (by destruct isInitialFetch, h).
  right. exists p. rewrite Hp.
  repeat split; try (by destruct isInitialFetch, h).
  by apply list_elem_of_lookup_2 in Hp.
Qed.

Lemma fetch_turn_within_players_witness :
  let h' := (fetchTable alice "7" (ledger tupleHand) true
               initialHook).1.2 in
  isOver h' = false ∧
  (currentTurnPlayer h' = None
   ∨ ∃ p, currentTurnPlayer h' = Some p ∧ p ∈ ["alice"; "bob"]
          ∧ ["alice"; "bob"] !! Z.to_nat 0 = Some p
          ∧ gameState h' = playing).
Proof.
  destruct (fetch_turn_within_players alice "7" (ledger tupleHand) true
              initialHook
              (mkLiarsTable "7" ["alice"; "bob"] false false 1 0
                 (Some (-1)) (Some 0))
              eq_refl eq_refl eq_refl)
    as (_ & _ & Hover & Hturn).
  split; [exact Hover | exact Hturn].
Defined.

End RefetchOutcomes.

Module JoinFacts.
Import Js CardCache Table Refetch Samples MoreSamples TableFacts
  RefetchFacts RefetchTheorems.

Lemma fetchTable_triple wallet tid chain b h :
  ∃ h' es, fetchTable wallet tid chain b h = (Value (), h', es)
           ∧ Forall (λ e, isRead e = true) es
           ∧ isJoining h' = isJoining h.
Proof.
  pose proof (fetchTable_settles wallet tid chain b h) as H.
  cbv zeta in H.
  destruct (fetchTable wallet tid chain b h) as [[r h'] es].
  simpl in H. destruct H as (-> & Hreads & _ & _ & _ & _ & _ & _ & Hj).
  by exists h', es.
Qed.

Lemma not_read_not_in e es :
  isRead e = false → Forall (λ e, isRead e = true) es → e ∉ es.
Proof.
  intros He Hall Hin. rewrite Forall_forall in Hall.
  specialize (Hall e Hin). congruence.
Qed.

Lemma joinTable_refused wallet tableIdString chain submission chainAfter
    characterId h :
  publicKey wallet = None ∨ anchorWallet wallet = false
  ∨ sendTransaction wallet = false ∨ characterId = ""
  ∨ characterId ∈ takenCharacters h →
  ∃ message,
    message ≠ "" ∧
    joinTable wallet tableIdString chain submission chainAfter
      characterId h
    = (Value false, setError (Some message) h, []).
Proof.
  intros Hpre. unfold joinTable.
  destruct (publicKey wallet) as [pk|];
    [|by exists "Wallet not connected"].
  destruct (anchorWallet wallet && sendTransaction wallet) eqn:Hw;
    cbn [negb]; [|by exists "Wallet not connected"].
  destruct (truthy characterId) eqn:Hid; cbn [negb];
    [|by exists "Please select a character"].
  unfold current. unfold mbind at 1, Async_bind at 1.
  case_bool_decide as Htaken; [by exists characterTaken|].
  exfalso. apply andb_prop in Hw as [Ha Hs].
  destruct Hpre as [?|[?|[?|[->|?]]]]; try congruence; try done.
Qed.

(** The checks made before any remote call: without a connected wallet,
    without a character id, or with a character that is already taken,
    [joinTable] returns false, stores the reason in [error] and makes no
    call at all. *)
Theorem join_refused_before_any_call (wallet : Wallet)
    (tableIdString : string) (chain : Chain) (submission : Submission)
    (chainAfter : Chain) (characterId : string) (h : Hook) :
  publicKey wallet = None ∨ anchorWallet wallet = false
  ∨ sendTransaction wallet = false ∨ characterId = ""
  ∨ characterId ∈ takenCharacters h →
  ∃ message,
    message ≠ "" ∧
    joinTable wallet tableIdString chain submission chainAfter
      characterId h
    = (Value false, setError (Some message) h, []).
Proof.
  exact (joinTable_refused wallet tableIdString chain submission chainAfter
           characterId h).
Qed.

Lemma join_refused_before_any_call_witness :
  ∃ message,
    message ≠ "" ∧
    joinTable alice "7" (ledger tupleHand) accepted (ledger tupleHand) ""
      initialHook
    = (Value false, setError (Some message) initialHook, []).
Proof.
  apply (join_refused_before_any_call alice "7" (ledger tupleHand) accepted
           (ledger tupleHand) "" initialHook).
  do 3 right. by left.
Defined.

End JoinFacts.

Module JoinSafety.
Import Js CardCache Table Refetch Samples MoreSamples TableFacts
  RefetchFacts RefetchTheorems JoinFacts.

Lemma simulationFailure_none r :
  simulationFailure r = None → sim_err r = None.
Proof. unfold simulationFailure. by destruct (sim_err r). Qed.

Lemma simulationFailure_nonempty r message :
  simulationFailure r = Some message → message ≠ "".
Proof.
  unfold simulationFailure. destruct (sim_err r); [|done].
  by intros [= <-].
Qed.

Ltac absent H :=
  repeat (apply elem_of_cons in H as [H|H]; [discriminate H|]);
  try (by inversion H).

(** [joinTable] past its checks, with the two refetches named. *)
Lemma joinTable_checked wallet pk tid chain sub chainAfter characterId h :
  publicKey wallet = Some pk →
  anchorWallet wallet = true →
  sendTransaction wallet = true →
  truthy characterId = true →
  characterId ∉ takenCharacters h →
  ∃ hx ex hy ey,
    fetchTable wallet tid chain false (setError None (setIsJoining true h))
    = (Value (), hx, ex)
    ∧ fetchTable wallet tid chainAfter false
        (setError None (setIsJoining true h))
      = (Value (), hy, ey)
    ∧ Forall (λ e, isRead e = true) ex
    ∧ Forall (λ e, isRead e = true) ey
    ∧ joinTable wallet tid chain sub chainAfter characterId h
      = let h1 := setError None (setIsJoining true h) in
        let fail m es :=
          (Value false,
           setIsJoining false
             (setError (failure m "Failed to join table") h1), es) in
        let lookup := GetAccountInfo (PlayerPda tid pk) in
        match getAccountInfo chain (PlayerPda tid pk) with
        | Threw m => fail m [lookup]
        | Value true => (Value true, setIsJoining false hx, lookup :: ex)
        | Value false =>
            match built sub with
            | Threw m => fail m [lookup; BuildTransaction "joinTable" []]
            | Value _ =>
            match latestBlockhash sub with
            | Threw m =>
                fail m [lookup; BuildTransaction "joinTable" [];
                        GetLatestBlockhash]
            | Value _ =>
            match simulated sub with
            | Threw m =>
                fail m [lookup; BuildTransaction "joinTable" [];
                        GetLatestBlockhash; SimulateTransaction]
            | Value r =>
            match simulationFailure r with
            | Some m =>
                fail m [lookup; BuildTransaction "joinTable" [];
                        GetLatestBlockhash; SimulateTransaction]
            | None =>
            match (if signTransaction wallet then signed sub
                   else Threw "signTransaction is not a function") with
            | Threw m =>
                fail m [lookup; BuildTransaction "joinTable" [];
                        GetLatestBlockhash; SimulateTransaction;
                        SignTransaction]
            | Value _ =>
            match sent sub with
            | Threw m =>
                fail m [lookup; BuildTransaction "joinTable" [];
                        GetLatestBlockhash; SimulateTransaction;
                        SignTransaction; SendRawTransaction]
            | Value _ =>
            match confirmed sub with
            | Threw m =>
                fail m [lookup; BuildTransaction "joinTable" [];
                        GetLatestBlockhash; SimulateTransaction;
                        SignTransaction; SendRawTransaction;
                        ConfirmTransaction]
            | Value _ =>
                (Value true, setIsJoining false hy,
                 [lookup; BuildTransaction "joinTable" [];
                  GetLatestBlockhash; SimulateTransaction;
                  SignTransaction; SendRawTransaction;
                  ConfirmTransaction] ++ ey)
            end end end end end end end
        end.
Proof.
  intros Hpk Hw Hs Hid Hfree.
  destruct (fetchTable_triple wallet tid chain false
              (setError None (setIsJoining true h)))
    as (hx & ex & Hx & Hrx & _).
  destruct (fetchTable_triple wallet tid chainAfter false
              (setError None (setIsJoining true h)))
    as (hy & ey & Hy & Hry & _).
  exists hx, ex, hy, ey. repeat split; try done.
  unfold joinTable. rewrite Hpk, Hw, Hs, Hid. cbn [negb andb].
  unfold current, modify, finally, tryCatch, call, throw, mbind,
    Async_bind, mret, Async_ret, failure.
  rewrite bool_decide_eq_false_2 by done.
  cbn beta iota zeta.
  destruct (getAccountInfo chain (PlayerPda tid pk)) as [m|[|]];
    cbn beta iota zeta; [done| |].
  - rewrite Hx. cbn beta iota zeta. cbn [app]. by rewrite app_nil_r.
  - destruct (built sub) as [m|[]]; cbn beta iota zeta; [done|].
    destruct (latestBlockhash sub) as [m|[]]; cbn beta iota zeta; [done|].
    destruct (simulated sub) as [m|r]; cbn beta iota zeta; [done|].
    destruct (simulationFailure r) as [m|]; cbn beta iota zeta; [done|].
    destruct (if signTransaction wallet then signed sub else _) as [m|[]];
      cbn beta iota zeta; [done|].
    destruct (sent sub) as [m|[]]; cbn beta iota zeta; [done|].
    destruct (confirmed sub) as [m|[]]; cbn beta iota zeta; [done|].
    rewrite Hy. cbn beta iota zeta. cbn [app]. by rewrite app_nil_r.
Qed.

End JoinSafety.

Module JoinTheorems.
Import Js CardCache Table Refetch Samples MoreSamples JoinSamples
  TableFacts RefetchFacts RefetchTheorems JoinFacts JoinSafety.

Lemma join_prechecks wallet characterId h :
  (publicKey wallet = None ∨ anchorWallet wallet = false
   ∨ sendTransaction wallet = false ∨ characterId = ""
   ∨ characterId ∈ takenCharacters h)
  ∨ (∃ pk, publicKey wallet = Some pk ∧ anchorWallet wallet = true
           ∧ sendTransaction wallet = true ∧ truthy characterId = true
           ∧ characterId ∉ takenCharacters h).
Proof.
  destruct (publicKey wallet) as [pk|]; [|left; by left].
  destruct (anchorWallet wallet); [|left; right; by left].
  destruct (sendTransaction wallet); [|left; do 2 right; by left].
  destruct (String.eqb_spec characterId "") as [->|Hne];
    [left; do 3 right; by left|].
  destruct (decide (characterId ∈ takenCharacters h));
    [left; by do 4 right|].
  right. exists pk. repeat split; try done.
  unfold truthy. by apply negb_true_iff, String.eqb_neq.
Qed.

Lemma error_after_fail m h1 :
  ∃ msg, error (setIsJoining false
                  (setError (failure m "Failed to join table") h1))
         = Some msg ∧ msg ≠ "".
Proof.
  exists (orElse m "Failed to join table"). split; [by destruct h1|].
  by apply orElse_nonempty.
Qed.

(** What the result of [joinTable] means.  It never throws.  When it
    returns false, [error] holds a non-empty message.  When it returns
    true, the caller's player account was found on chain or the join
    transaction was confirmed, and [isJoining] is reset. *)
Theorem join_result_meaning (wallet : Wallet) (tableIdString : string)
    (chain : Chain) (submission : Submission) (chainAfter : Chain)
    (characterId : string) (h : Hook) :
  let r := joinTable wallet tableIdString chain submission chainAfter
             characterId h in
  ∃ b, r.1.1 = Value b ∧
       (b = false → ∃ msg, error r.1.2 = Some msg ∧ msg ≠ "") ∧
       (b = true →
        isJoining r.1.2 = false ∧
        ∃ pk, publicKey wallet = Some pk ∧
              (getAccountInfo chain (PlayerPda tableIdString pk)
               = Value true
               ∨ confirmed submission = Value ())).
Proof.
  cbv zeta.
  destruct (join_prechecks wallet characterId h)
    as [Hpre|(pk & Hpk & Hw & Hs & Hid & Hfree)].
  - destruct (joinTable_refused wallet tableIdString chain
                submission chainAfter characterId h Hpre)
      as (msg & Hne & ->).
    exists false. split; [done|]. split; [|done].
    intros _. exists msg. split; [by destruct h | done].
  - destruct (joinTable_checked wallet pk tableIdString chain submission
                chainAfter characterId h Hpk Hw Hs Hid Hfree)
      as (hx & ex & hy & ey & _ & _ & _ & _ & ->).
    cbv zeta.
    destruct (getAccountInfo chain (PlayerPda tableIdString pk))
      as [m|[|]] eqn:Hacc.
    + exists false. split; [done|]. split; [|done].
      intros _. apply error_after_fail.
    + exists true. split; [done|]. split; [done|]. intros _.
      split; [by destruct hx|]. exists pk. split; [done | by left].
    + repeat match goal with
             | |- context [match ?x with Threw _ => _ | Value _ => _ end] =>
                 destruct x as [?m|?v] eqn:?;
                 [ exists false; split; [done|]; split; [|done];
                   intros _; apply error_after_fail |]
             | |- context [match simulationFailure ?r with _ => _ end] =>
                 destruct (simulationFailure r) eqn:?;
                 [ exists false; split; [done|]; split; [|done];
                   intros _; apply error_after_fail |]
             end.
      exists true. split; [done|]. split; [done|]. intros _.
      split; [by destruct hy|]. exists pk. split; [done|]. right.
      match goal with H : confirmed submission = Value ?u |- _ =>
        by destruct u end.
Qed.

(** Nothing is signed that was not simulated, nothing is sent that was
    not signed: among the calls of [joinTable], a signing request means
    the transaction was built and its simulation reported no error, and a
    submission means the wallet signed it. *)
Theorem join_signs_only_simulated (wallet : Wallet)
    (tableIdString : string) (chain : Chain) (submission : Submission)
    (chainAfter : Chain) (characterId : string) (h : Hook) :
  let r := joinTable wallet tableIdString chain submission chainAfter
             characterId h in
  (SignTransaction ∈ r.2 →
   built submission = Value () ∧
   ∃ sim, simulated submission = Value sim ∧ sim_err sim = None) ∧
  (SendRawTransaction ∈ r.2 →
   signTransaction wallet = true ∧ signed submission = Value ()).
Proof.
  cbv zeta.
  destruct (join_prechecks wallet characterId h)
    as [Hpre|(pk & Hpk & Hw & Hs & Hid & Hfree)].
  - destruct (joinTable_refused wallet tableIdString chain
                submission chainAfter characterId h Hpre)
      as (msg & Hne & ->).
    split; intros H; by inversion H.
  - destruct (joinTable_checked wallet pk tableIdString chain submission
                chainAfter characterId h Hpk Hw Hs Hid Hfree)
      as (hx & ex & hy & ey & _ & _ & Hrx & Hry & ->).
    cbv zeta.
    destruct (getAccountInfo chain (PlayerPda tableIdString pk))
      as [m|[|]].
    + split; intros H; absent H.
    + split; intros H; simpl in H;
        (apply elem_of_cons in H as [H|H]; [discriminate H|]);
        by apply not_read_not_in in H.
    + destruct (built submission) as [m|[]];
        [split; intros H; absent H|].
      destruct (latestBlockhash submission) as [m|[]];
        [split; intros H; absent H|].
      destruct (simulated submission) as [m|sim];
        [split; intros H; absent H|].
      destruct (simulationFailure sim) as [m|] eqn:Hsim;
        [split; intros H; absent H|].
      apply simulationFailure_none in Hsim.
      split; [intros _; split; [done|]; by exists sim|].
      destruct (signTransaction wallet);
        [|intros H; absent H].
      destruct (signed submission) as [m|[]];
        [intros H; absent H|].
      done.
Qed.

Lemma join_signs_only_simulated_witness :
  built accepted = Value () ∧
  ∃ sim, simulated accepted = Value sim ∧ sim_err sim = None.
Proof.
  apply (join_signs_only_simulated alice "7" newcomerLedger accepted
           (ledger tupleHand) "lion" initialHook).
  vm_compute. do 4 apply list_elem_of_further. apply list_elem_of_here.
Defined.

End JoinTheorems.

Module WrittenStoreFacts.
Import Js CardCache Table Pipeline Samples CardCacheFacts TableFacts
  PipelineFacts DecryptFacts.

(** Under a card-cache key, a written store holds nothing or a parsed
    entry with at least one card. *)
Lemma written_entries store :
  Written store →
  ∀ tableId wallet entry,
    store !! getCardCacheKey tableId wallet = Some entry →
    ∃ c, entry = Json c ∧ cards c ≠ [].
Proof.
  induction 1 as [store Hnone
                 |t w held decrypted store _ IH Hheld Hlen
                 |t w encryptedCards store _ IH
                 |t w store _ IH];
    intros tableId wallet entry Hget.
  - by rewrite Hnone in Hget.
  - unfold saveCachedCards in Hget.
    apply lookup_insert_Some in Hget as [[_ <-]|[_ Hget]];
      [|by apply (IH tableId wallet)].
    eexists. split; [reflexivity|]. simpl.
    destruct decrypted; [|done]. by destruct held.
  - unfold loadCachedCards in Hget.
    destruct (store !! getCardCacheKey t w) as [[| |cached]|];
      try (by apply (IH tableId wallet)).
    destruct (String.eqb _ _ && _); simpl in Hget;
      [by apply (IH tableId wallet)|].
    apply lookup_delete_Some in Hget as [_ Hget].
    by apply (IH tableId wallet).
  - unfold clearCardCache in Hget.
    apply lookup_delete_Some in Hget as [_ Hget].
    by apply (IH tableId wallet).
Qed.

Lemma decryptPipeline_store tid pk chain sub inco h :
  let store := localStorage (decryptPipeline tid pk chain sub inco h).1.2 in
  store = localStorage h
  ∨ ∃ held out, held ≠ [] ∧ length out = length held
                ∧ store = saveCachedCards tid pk held out (localStorage h).
Proof.
  cbv zeta.
  destruct (fetchPlayer chain (PlayerPda tid pk)) as [m|player] eqn:Hfetch.
  { left. unfold decryptPipeline, finally, tryCatch.
    unfold mbind at 1, Async_bind at 1, call at 1. rewrite Hfetch.
    by destruct h. }
  destruct (p_cards player) as [[|card held]|] eqn:Hcards.
  1, 3: left; unfold decryptPipeline, finally, tryCatch;
        unfold mbind at 1, Async_bind at 1, call at 1;
        rewrite Hfetch, Hcards; by destruct h.
  destruct sub as [b l si s se c].
  destruct b as [m|[]], l as [m'|[]], s as [m''|[]], se as [m3|[]],
    c as [m4|[]];
    try (left; unfold decryptPipeline, finally, tryCatch;
         unfold mbind at 1, Async_bind at 1, call at 1;
         rewrite Hfetch, Hcards;
         unfold mbind, Async_bind, call, modify, mret, Async_ret;
         cbn beta iota zeta; cbn [built latestBlockhash signed sent
                                    confirmed];
         by destruct h).
  destruct (decryptPipeline_granted tid pk chain
              {| built := Value (); latestBlockhash := Value ();
                 simulated := si; signed := Value (); sent := Value ();
                 confirmed := Value () |}
              inco h player (card :: held) Hfetch Hcards)
    as (m' & out & h' & n & -> & _ & Hok & Hbad); [done | by repeat split |].
  cbn [fst snd].
  destruct (allDecrypt inco (handleStrings <$> card :: held)).
  - destruct (Hok eq_refl) as (_ & Hlen & ->).
    right. exists (card :: held), out.
    split; [done|]. split; [done|]. by destruct h.
  - destruct (Hbad eq_refl) as (_ & ->). left. by destruct h.
Qed.

(** [decryptMyCards] leaves a written store written. *)
Lemma decryptMyCards_written wallet tid chain sub inco h :
  Written (localStorage h) →
  Written (localStorage
             (decryptMyCards wallet tid chain sub inco h).1.2).
Proof.
  intros Hw. unfold decryptMyCards.
  destruct (publicKey wallet) as [pk|]; [|done].
  destruct (canDecrypt wallet); [|done].
  unfold mbind, Async_bind, modify.
  pose proof (decryptPipeline_store tid pk chain sub inco
                (setIsDecryptingCards true h)) as Hstore.
  cbv zeta in Hstore.
  destruct (decryptPipeline tid pk chain sub inco
              (setIsDecryptingCards true h)) as [[r h'] es].
  cbn [fst snd] in *.
  assert (localStorage (setIsDecryptingCards true h) = localStorage h)
    as Hsame by by destruct h.
  rewrite Hsame in Hstore.
  destruct Hstore as [-> | (held & out & Hne & Hlen & ->)]; [done|].
  by apply written_save.
Qed.

(** So does the hook's auto-decrypt effect, which may evict an entry. *)
Lemma autoDecrypt_written wallet tid render h :
  Written (localStorage h) →
  Written (localStorage (autoDecrypt wallet tid render h).1.2).
Proof.
  intros Hw. unfold autoDecrypt.
  destruct (publicKey wallet) as [pk|] eqn:Hpk; [|done].
  repeat (case_match; [done|]).
  unfold current. unfold mbind at 1, Async_bind at 1.
  unfold mbind at 1, Async_bind at 1, modify at 1. cbn beta iota zeta.
  pose proof (written_load tid pk (myEncryptedCards wallet render) _ Hw)
    as Hload.
  destruct (loadCachedCards tid pk (myEncryptedCards wallet render)
              (localStorage h)) as [[cached|] store]; cbn [fst snd] in *.
  - unfold mbind, Async_bind, modify, mret, Async_ret. simpl.
    by destruct h.
  - unfold decryptCall. rewrite Hpk.
    destruct (canDecrypt wallet);
      unfold mbind, Async_bind, modify, mret, Async_ret; simpl;
      by destruct h.
Qed.

(** C6.  On every store that the hook can have written: when the entry
    stored for (table, wallet) carries the fingerprint computed from the
    current handles, [loadCachedCards] returns its card list and keeps
    it; when the fingerprints differ it returns none and the entry is
    deleted; when there is no entry it returns none, and none is there
    afterwards.  Such a store holds nothing else under the key. *)
Theorem load_from_written_store (tableId wallet : string)
    (encryptedCards : list EncryptedCard)
    (localStorage : gmap string Stored) :
  Written localStorage →
  let key := getCardCacheKey tableId wallet in
  let r := loadCachedCards tableId wallet encryptedCards localStorage in
  (∀ c, localStorage !! key = Some (Json c) →
        fingerprint c = getEncryptedFingerprint encryptedCards →
        r = (Some (cards c), localStorage)) ∧
  (∀ c, localStorage !! key = Some (Json c) →
        fingerprint c ≠ getEncryptedFingerprint encryptedCards →
        r = (None, delete key localStorage) ∧ r.2 !! key = None) ∧
  (localStorage !! key = None →
   r = (None, localStorage) ∧ r.2 !! key = None) ∧
  (localStorage !! key = None
   ∨ ∃ c, localStorage !! key = Some (Json c)).
Proof.
  intros Hw. cbv zeta.
  pose proof (written_entries _ Hw tableId wallet) as Hentry.
  unfold loadCachedCards.
  destruct (localStorage !! getCardCacheKey tableId wallet)
    as [entry|] eqn:Hget.
  - destruct (Hentry entry eq_refl) as (c & -> & Hcards).
    apply nonempty_length in Hcards.
    split; [|split; [|split]].
    + intros c' [= <-] Hfp.
      by rewrite Hfp, String.eqb_refl, Hcards.
    + intros c' [= <-] Hfp.
      apply String.eqb_neq in Hfp. rewrite Hfp. cbn [andb fst snd].
      split; [done | apply lookup_delete_eq].
    + done.
    + right. by exists c.
  - split; [|split; [|split]]; try done. by left.
Qed.

Lemma load_from_written_store_witness :
  loadCachedCards "7" "alice" hand
    (saveCachedCards "7" "alice" hand plain ∅)
  = (Some plain, saveCachedCards "7" "alice" hand plain ∅) ∧
  loadCachedCards "7" "alice" otherHand
    (saveCachedCards "7" "alice" hand plain ∅)
  = (None, delete (getCardCacheKey "7" "alice")
             (saveCachedCards "7" "alice" hand plain ∅)) ∧
  loadCachedCards "7" "alice" hand ∅ = (None, ∅).
Proof.
  assert (Written (saveCachedCards "7" "alice" hand plain ∅)) as Hw.
  { apply written_save; [|discriminate|reflexivity].
    apply written_start. intros t w. apply lookup_empty. }
  assert (Written (∅ : gmap string Stored)) as Hempty.
  { apply written_start. intros t w. apply lookup_empty. }
  destruct (load_from_written_store "7" "alice" hand _ Hw)
    as (Hhit & _).
  destruct (load_from_written_store "7" "alice" otherHand _ Hw)
    as (_ & Hmiss & _).
  destruct (load_from_written_store "7" "alice" hand _ Hempty)
    as (_ & _ & Hnone & _).
  split; [|split].
  - apply (Hhit (mkCardCache (getEncryptedFingerprint hand) plain));
      reflexivity.
  - apply (Hmiss (mkCardCache (getEncryptedFingerprint hand) plain));
      [reflexivity | discriminate].
  - apply Hnone. apply lookup_empty.
Defined.

End WrittenStoreFacts.

Module ActionFacts.
Import Js Reducer CardCache Table Refetch EventLog Actions Samples TableFacts
  RefetchFacts RefetchTheorems.

Lemma hooked_not_send (es : list Effect) :
  filter (λ c, isSend c = true) (Hooked <$> es) = [].
Proof.
  induction es as [|e es IH]; [done|].
  rewrite fmap_cons, filter_cons_False; [exact IH | by simpl].
Qed.

Lemma filter_send_hooked e (l : list Call) :
  filter (λ c, isSend c = true) (Hooked e :: l)
  = filter (λ c, isSend c = true) l.
Proof. by rewrite filter_cons_False. Qed.

Lemma filter_send_send (l : list Call) :
  filter (λ c, isSend c = true) (SendTransaction :: l)
  = SendTransaction :: filter (λ c, isSend c = true) l.
Proof. by rewrite filter_cons_True. Qed.

Lemma isShufflingRef_released s :
  isShufflingRef (setIsShuffling false (setIsShufflingRef false s)) = false.
Proof. by destruct s. Qed.

(** A refetch run on the session's hook. *)
Lemma lift_fetchTable wallet tid chain s :
  ∃ h' es,
    lift (fetchTable wallet tid chain false) s
    = (Value (), setHook h' s, Hooked <$> es)
    ∧ fetchTable wallet tid chain false (hook s) = (Value (), h', es)
    ∧ Forall (λ e, isRead e = true) es.
Proof.
  pose proof (fetchTable_settles wallet tid chain false (hook s)) as H.
  cbv zeta in H. unfold lift.
  destruct (fetchTable wallet tid chain false (hook s)) as [[r h'] es].
  cbn [fst snd] in H. destruct H as (-> & Hreads & _).
  by exists h', es.
Qed.

Lemma session_fields_setHook h s :
  isShufflingRef (setHook h s) = isShufflingRef s
  ∧ isShuffling (setHook h s) = isShuffling s
  ∧ isPlacingCards (setHook h s) = isPlacingCards s
  ∧ hook (setHook h s) = h.
Proof. by destruct s. Qed.

(** One shuffle at a time.  [shuffleCards] never throws.  Called while
    [isShufflingRef] is set it returns false at once, makes no call and
    changes nothing.  Otherwise it leaves the ref as it found it,
    released whatever happened in between, sends at most one transaction
    through the wallet, and returns true only when that transaction was
    sent and its confirmation reported no error. *)
Theorem shuffle_lock (wallet : Wallet) (tableIdString : string)
    (chain : Chain) (answers : ShuffleAnswers) (s : Session) :
  let r := shuffleCards wallet tableIdString chain answers s in
  (∃ b, r.1.1 = Value b) ∧
  isShufflingRef r.1.2 = isShufflingRef s ∧
  (isShufflingRef s = true → r = (Value false, s, [])) ∧
  (r.1.1 = Value true →
   confirmation answers = Value false ∧ tx_sent answers = Value ()) ∧
  (length (filter (λ c, isSend c = true) r.2) ≤ 1)%nat.
Proof.
  cbv zeta.
  destruct (shuffleCards wallet tableIdString chain answers s)
    as [[res s'] es] eqn:Hrun.
  cbn [fst snd]. unfold shuffleCards in Hrun.
  destruct (negb _) eqn:Hguard.
  { injection Hrun as <- <- <-.
    split; [by exists false|]. split; [reflexivity|]. split; [reflexivity|].
    split; [intros [=]|]. simpl. lia. }
  unfold session in Hrun. unfold mbind at 1, Act_bind at 1 in Hrun.
  cbn beta iota zeta in Hrun.
  destruct (isShufflingRef s) eqn:Href.
  { injection Hrun as <- <- <-.
    split; [by exists false|]. split; [done|]. split; [reflexivity|].
    split; [intros [=]|]. simpl. lia. }
  destruct answers as [sb sbh sim tb tbh sent conf exp].
  unfold ensuring, attempt, request, update in Hrun.
  unfold mbind, Act_bind in Hrun. cbn beta iota zeta in Hrun.
  cbn [sim_built sim_blockhash simulation tx_built tx_blockhash tx_sent
       confirmation expired] in *.
  set (s0 := setIsShuffling true (setIsShufflingRef true s)) in *.
  destruct (lift_fetchTable wallet tableIdString chain s0)
    as (h' & es' & Hlift & _ & _).
  destruct sb as [?|[]], sbh as [?|[]], sim as [?|[]], tb as [?|[]],
    tbh as [?|[]], sent as [?|[]], conf as [?|[|]], exp;
    repeat (cbn beta iota zeta in Hrun; unfold mret, Act_ret in Hrun;
            rewrite ?Hlift in Hrun);
    injection Hrun as <- <- <-;
    (split; [by eexists|]);
    (split; [apply isShufflingRef_released|]);
    (split; [intros [=]|]);
    (split; [try (by intros [=]); done|]);
    cbn [app];
    rewrite ?filter_send_hooked, ?filter_send_send, ?filter_send_hooked,
      ?filter_app, ?hooked_not_send, ?filter_nil; simpl; lia.
Qed.
End ActionFacts.

Module PlaceFacts.
Import Js Reducer CardCache Table Refetch EventLog Actions Samples TableFacts
  RefetchFacts RefetchTheorems ActionFacts.

Lemma read_not_hooked e (es : list Effect) :
  isRead e = false →
  Forall (λ e, isRead e = true) es →
  Hooked e ∉ Hooked <$> es.
Proof.
  intros He Hall Hin. apply list_elem_of_fmap in Hin as (e' & [= <-] & Hin).
  rewrite Forall_forall in Hall. specialize (Hall e Hin). congruence.
Qed.

Lemma isPlacingCards_reset s :
  isPlacingCards (setIsPlacingCards false s) = false.
Proof. by destruct s. Qed.

Lemma isPlacingCards_inHook f s :
  isPlacingCards (inHook f s) = isPlacingCards s.
Proof. by destruct s. Qed.

(** No placement is built from a selection that the chain cannot
    honour.  [placeCards] never throws and, entered with
    [isPlacingCards] clear, leaves it clear.  A [placeCards] transaction
    is built only when the selection is not empty, no shuffle is pending,
    and the player record fetched just before holds at least as many
    cards as are selected, every selected index lying below that number.
    It returns true only once the transaction is confirmed. *)
Theorem place_cards_guarded (wallet : Wallet) (tableIdString : string)
    (chain : Chain) (submission : Submission) (chainAfter : Chain)
    (pickedIndices : list Z) (s : Session) :
  let r := placeCards wallet tableIdString chain submission chainAfter
             pickedIndices s in
  (∃ b, r.1.1 = Value b) ∧
  (isPlacingCards s = false → isPlacingCards r.1.2 = false) ∧
  (Hooked (BuildTransaction "placeCards" []) ∈ r.2 →
   pickedIndices ≠ [] ∧ shufflePending (hook s) = false ∧
   ∃ pk player held,
     publicKey wallet = Some pk ∧
     fetchPlayer chain (PlayerPda tableIdString pk) = Value player ∧
     p_cards player = Some held ∧
     (length pickedIndices ≤ length held)%nat ∧
     Forall (λ idx, idx < Z.of_nat (length held)) pickedIndices) ∧
  (r.1.1 = Value true → confirmed submission = Value ()).
Proof.
  cbv zeta.
  destruct (placeCards wallet tableIdString chain submission chainAfter
              pickedIndices s) as [[res s'] es] eqn:Hrun.
  cbn [fst snd]. unfold placeCards in Hrun.
  destruct (publicKey wallet) as [pk|] eqn:Hpk.
  2: { unfold mbind, Act_bind, update, mret, Act_ret in Hrun.
       injection Hrun as <- <- <-.
       split; [by eexists|]. split; [by rewrite isPlacingCards_inHook|].
       split; [by intros H; inversion H|]. by intros [=]. }
  destruct (negb _) eqn:Hguard.
  { unfold mbind, Act_bind, update, mret, Act_ret in Hrun.
    injection Hrun as <- <- <-.
    split; [by eexists|]. split; [by rewrite isPlacingCards_inHook|].
    split; [by intros H; inversion H|]. by intros [=]. }
  destruct (length pickedIndices =? 0)%nat eqn:Hlen.
  { unfold mbind, Act_bind, update, mret, Act_ret in Hrun.
    injection Hrun as <- <- <-.
    split; [by eexists|]. split; [by rewrite isPlacingCards_inHook|].
    split; [by intros H; inversion H|]. by intros [=]. }
  unfold session in Hrun. unfold mbind at 1, Act_bind at 1 in Hrun.
  cbn beta iota zeta in Hrun.
  destruct (shufflePending (hook s)) eqn:Hpending.
  { unfold mbind, Act_bind, update, mret, Act_ret in Hrun.
    injection Hrun as <- <- <-.
    split; [by eexists|]. split; [by rewrite isPlacingCards_inHook|].
    split; [by intros H; inversion H|]. by intros [=]. }
  unfold ensuring, attempt, request, update, session in Hrun.
  unfold mbind, Act_bind in Hrun. cbn beta iota zeta in Hrun.
  set (s0 := inHook (setError None) (setIsPlacingCards true s)) in *.
  destruct (fetchPlayer chain (PlayerPda tableIdString pk))
    as [m|player] eqn:Hfetch.
  { cbn beta iota zeta in Hrun. unfold mret, Act_ret in Hrun.
    injection Hrun as <- <- <-.
    split; [by eexists|]. split; [intros _; by destruct s|].
    split; [|by intros [=]].
    intros H. repeat (apply elem_of_cons in H as [H|H]; [discriminate H|]).
    by inversion H. }
  destruct (p_cards player) as [[|card held]|] eqn:Hcards.
  1, 3: cbn beta iota zeta in Hrun; unfold mret, Act_ret in Hrun;
        injection Hrun as <- <- <-;
        (split; [by eexists|]);
        (split; [intros _; apply isPlacingCards_reset|]);
        (split; [|by intros [=]]);
        intros H;
        repeat (apply elem_of_cons in H as [H|H]; [discriminate H|]);
        by inversion H.
  destruct ((Z.of_nat (length (card :: held))
               <? Z.of_nat (length pickedIndices))
            || existsb (λ idx, Z.of_nat (length (card :: held)) <=? idx)
                 pickedIndices) eqn:Hbounds.
  { match type of Hrun with
    | context [lift (fetchTable ?w ?t ?c false) ?x] =>
        destruct (lift_fetchTable w t c x) as (h' & es' & Hl & _ & Hreads);
        rewrite Hl in Hrun
    end.
    cbn beta iota zeta in Hrun. unfold mret, Act_ret in Hrun.
    injection Hrun as <- <- <-.
    split; [by eexists|].
    split; [intros _; apply isPlacingCards_reset|].
    split; [|by intros [=]].
    cbn [app]. rewrite !app_nil_r. intros H.
    apply elem_of_cons in H as [H|H]; [discriminate H|].
    by apply read_not_hooked in H. }
  apply orb_false_elim in Hbounds as [Hcount Hsome].
  assert (pickedIndices ≠ []
          ∧ (length pickedIndices ≤ length (card :: held))%nat
          ∧ Forall (λ idx, idx < Z.of_nat (length (card :: held)))
              pickedIndices) as Hfacts.
  { split; [by destruct pickedIndices|]. split.
    - apply Z.ltb_ge in Hcount. lia.
    - apply Forall_forall. intros idx Hin.
      destruct (Z.leb_spec (Z.of_nat (length (card :: held))) idx)
        as [Hle|Hlt]; [|done].
      assert (existsb (λ idx, Z.of_nat (length (card :: held)) <=? idx)
                pickedIndices = true) as Hex; [|congruence].
      apply existsb_exists. exists idx.
      split; [by apply list_elem_of_In | by apply Z.leb_le]. }
  assert (pickedIndices ≠ [] ∧ false = false
          ∧ ∃ pk0 player0 held0,
              Some pk = Some pk0
              ∧ fetchPlayer chain (PlayerPda tableIdString pk0)
                = Value player0
              ∧ p_cards player0 = Some held0
              ∧ (length pickedIndices ≤ length held0)%nat
              ∧ Forall (λ idx, idx < Z.of_nat (length held0))
                  pickedIndices) as Hgoal.
  { destruct Hfacts as (Hne & Hle & Hall).
    split; [done|]. split; [done|].
    by exists pk, player, (card :: held). }
  destruct submission as [b l si sg se c].
  cbn [built latestBlockhash signed sent confirmed] in *.
  destruct b as [?|[]], l as [?|[]], sg as [?|[]], se as [?|[]],
    c as [?|[]];
    try (cbn beta iota zeta in Hrun; unfold mret, Act_ret in Hrun;
         injection Hrun as <- <- <-;
         (split; [by eexists|]);
         (split; [intros _; apply isPlacingCards_reset|]);
         (split; [by intros _|by intros [=]])).
  destruct (fetchPlayer chainAfter (PlayerPda tableIdString pk))
    as [?|fresh].
  { cbn beta iota zeta in Hrun; unfold mret, Act_ret in Hrun.
    injection Hrun as <- <- <-.
    split; [by eexists|].
    split; [intros _; apply isPlacingCards_reset|].
    split; [by intros _|by intros [=]]. }
  cbn beta iota zeta in Hrun.
  match type of Hrun with
  | context [lift (fetchTable ?w ?t ?c false) ?x] =>
      destruct (lift_fetchTable w t c x) as (h' & es' & Hl & _ & Hreads);
      rewrite Hl in Hrun
  end.
  cbn beta iota zeta in Hrun. unfold mret, Act_ret in Hrun.
  injection Hrun as <- <- <-.
  split; [by eexists|].
  split; [intros _; apply isPlacingCards_reset|].
  split; [by intros _|done].
Qed.
End PlaceFacts.

Module HookEventFacts.
Import Js Reducer Listener CardCache Table Refetch EventLog Actions Samples
  TableFacts EventLogFacts.

Lemma handleGameEvents_snoc wallet tid evs e s :
  handleGameEvents wallet tid (evs ++ [e]) s
  = handleGameEvent wallet tid e.1 e.2 (handleGameEvents wallet tid evs s).
Proof. unfold handleGameEvents. by rewrite foldl_app. Qed.

Lemma eventLog_inHook f s :
  Actions.eventLog (inHook f s) = Actions.eventLog s.
Proof. by destruct s. Qed.

(** What one handled event does to the hook's log and to the pending
    refetch. *)
Lemma handleGameEvent_log wallet tid now e s :
  (λ x, (entry_type x, entry_player x))
    <$> Actions.eventLog (handleGameEvent wallet tid now e s)
  = lastN 49 ((λ x, (entry_type x, entry_player x)) <$> Actions.eventLog s)
    ++ [(typeOf e, (describe e).1.2)]
  ∧ fetchDebounce (handleGameEvent wallet tid now e s) = Some (now + 400).
Proof.
  destruct e; unfold handleGameEvent; try destruct (publicKey wallet);
    destruct s; simpl; by rewrite fmap_app, lastN_fmap.
Qed.

Lemma handleEvent_entries now nowAnimation e panel :
  (λ x, (entry_type x, entry_player x))
    <$> EventLog.eventLog (handleEvent now nowAnimation e panel)
  = lastN 49 ((λ x, (entry_type x, entry_player x))
                <$> EventLog.eventLog panel)
    ++ [(typeOf e, (describe e).1.2)].
Proof.
  unfold handleEvent. destruct (describe e) as [[message player] anim].
  simpl. by rewrite fmap_app, lastN_fmap.
Qed.

(** The hook's own log mirrors the panel's.  [handleEvent] forwards every
    event it logs to the hook's [handleGameEvent]; after any sequence of
    events the two logs list the same events with the same players, and
    one refetch is pending, due 400 ms after the last event. *)
Theorem hook_log_mirrors_panel (wallet : Wallet) (tableIdString : string)
    (evs : list (Z * Z * GameEventPayload)) :
  let panel := handleAll evs (mkPanel [] None) in
  let s := handleGameEvents wallet tableIdString
             ((λ e, (e.1.1, e.2)) <$> evs) initialSession in
  (λ x, (entry_type x, entry_player x)) <$> Actions.eventLog s
  = (λ x, (entry_type x, entry_player x)) <$> EventLog.eventLog panel
  ∧ fetchDebounce s = (λ e, e.1.1 + 400) <$> last evs.
Proof.
  cbv zeta. induction evs as [|e evs [IHlog IHtimer]] using rev_ind;
    [done|].
  rewrite fmap_app, handleAll_snoc. cbn [fmap list_fmap].
  rewrite handleGameEvents_snoc. cbn [fst snd].
  destruct (handleGameEvent_log wallet tableIdString e.1.1 e.2
              (handleGameEvents wallet tableIdString
                 ((λ e, (e.1.1, e.2)) <$> evs) initialSession))
    as [-> ->].
  rewrite handleEvent_entries, IHlog, last_snoc. done.
Qed.

End HookEventFacts.

Module RoundStartFacts.
Import Js Reducer CardCache Table Refetch EventLog Actions Samples
  CachedSamples TableFacts.




End RoundStartFacts.

Module ShuffleButtonFacts.
Import Js Reducer CardCache Table Refetch EventLog Actions Samples
  TableFacts.

Lemma findIndex_first (pk : string) (l : list string) (i : nat) :
  NoDup l → l !! i = Some pk →
  list_find (λ p, p = pk) l = Some (i, pk).
Proof.
  intros Hnd Hi. apply list_find_Some. split; [done|]. split; [done|].
  intros j y Hj Hlt ->.
  assert (j = i) by by eapply NoDup_lookup. lia.
Qed.

(** The shuffle button is offered to the player whose turn it is to
    shuffle, and to nobody else: when it shows, the wallet is the player
    at index [shuffleTurn]; and while the player list has no duplicate,
    it shows for that player. *)
Theorem shuffle_button_for_turn_holder (wallet : Wallet) (h : Hook) :
  (shouldShowShuffleButton wallet h = true →
   ∃ pk td, publicKey wallet = Some pk ∧ tableData h = Some td ∧
            0 ≤ shuffleTurn h ∧
            players td !! Z.to_nat (shuffleTurn h) = Some pk) ∧
  (∀ pk td, publicKey wallet = Some pk → tableData h = Some td →
            NoDup (players td) →
            0 ≤ shuffleTurn h →
            players td !! Z.to_nat (shuffleTurn h) = Some pk →
            shouldShowShuffleButton wallet h = true).
Proof.
  unfold shouldShowShuffleButton, myPlayerIndex. split.
  - intros H. repeat (apply andb_prop in H as [H ?]).
    apply Z.leb_le in H.
    destruct (publicKey wallet) as [pk|]; [|done].
    destruct (tableData h) as [td|]; [|done].
    destruct (list_find (λ p, p = pk) (players td)) as [[i p]|] eqn:Hfind;
      [|done].
    apply list_find_Some in Hfind as (Hi & -> & _).
    exists pk, td. repeat split; try done.
    match goal with Heq : (Z.of_nat i =? _) = true |- _ =>
      apply Z.eqb_eq in Heq; rewrite <- Heq end.
    by rewrite Nat2Z.id.
  - intros pk td -> -> Hnd Hturn Hi.
    rewrite (findIndex_first pk (players td) _ Hnd Hi).
    apply lookup_lt_Some in Hi as Hlt.
    rewrite Z2Nat.id by done.
    repeat (apply andb_true_intro; split);
      try apply Z.leb_le; try apply Z.ltb_lt; try apply Z.eqb_eq; lia.
Qed.

End ShuffleButtonFacts.

Module StoreInvariantFacts.
Import Js Reducer CardCache Table Refetch EventLog Actions Samples
  CachedSamples TableFacts RefetchFacts RefetchTheorems WrittenStoreFacts.

Lemma handleGameEvent_store wallet tid now e s :
  localStorage (hook (handleGameEvent wallet tid now e s))
  = match e, publicKey wallet with
    | roundStarted _, Some pk =>
        clearCardCache tid pk (localStorage (hook s))
    | _, _ => localStorage (hook s)
    end.
Proof.
  destruct e; unfold handleGameEvent; try destruct (publicKey wallet);
    destruct s as [h ? ? ? ? ? ? ?]; destruct h; reflexivity.
Qed.

(** The card cache only ever holds what a completed decryption wrote.
    Starting from a written store, a run of [decryptMyCards], the hook's
    auto-decrypt effect, a refetch and the handling of any game event each
    leave a written store; so every entry found under a card-cache key
    parses and holds at least one card. *)
Theorem hook_keeps_store_written (wallet : Wallet) (tableIdString : string)
    (chain : Chain) (submission : Submission) (inco : Inco)
    (render : Hook) (isInitialFetch : bool) (now : Z)
    (event : GameEventPayload) (s : Session) :
  Written (localStorage (hook s)) →
  let h := hook s in
  Written (localStorage
             (decryptMyCards wallet tableIdString chain submission inco
                h).1.2) ∧
  Written (localStorage (autoDecrypt wallet tableIdString render h).1.2) ∧
  Written (localStorage
             (fetchTable wallet tableIdString chain isInitialFetch h).1.2) ∧
  Written (localStorage
             (hook (handleGameEvent wallet tableIdString now event s))) ∧
  (∀ tableId pk entry,
     localStorage h !! getCardCacheKey tableId pk = Some entry →
     ∃ c, entry = Json c ∧ cards c ≠ []).
Proof.
  intros Hw. cbv zeta. split; [by apply decryptMyCards_written|].
  split; [by apply autoDecrypt_written|]. split; [|split].
  - pose proof (fetchTable_settles wallet tableIdString chain
                  isInitialFetch (hook s)) as H.
    cbv zeta in H. destruct H as (_ & _ & _ & _ & _ & -> & _). done.
  - rewrite handleGameEvent_store.
    destruct event; try done.
    destruct (publicKey wallet); [by apply written_clear | done].
  - by apply written_entries.
Qed.

Lemma hook_keeps_store_written_witness :
  Written (localStorage
             (decryptMyCards alice "7" (ledger tupleHand) accepted network
                cachedSession).1.2).
Proof.
  destruct (hook_keeps_store_written alice "7" (ledger tupleHand) accepted
              network cachedSession false 0 (roundStarted "7")
              (setHook cachedSession initialSession))
    as (H & _).
  - apply written_save; [|discriminate|reflexivity].
    apply written_start. intros t w. apply lookup_empty.
  - exact H.
Defined.

End StoreInvariantFacts.

Module UseTableFacts.
Import Js CardCache Table Pipeline Samples UseTableSamples TableFacts
  PipelineFacts.

Lemma old_decryptEach_run inco handles h :
  ∃ r,
    UseTable.decryptEach inco handles h
    = (r, setMyCards (myCards h ++ revealedPrefix inco handles) h,
       (λ hs, Decrypt hs.1 hs.2)
         <$> take (S (length (revealedPrefix inco handles))) handles)
    ∧ (allDecrypt inco handles = true → r = Value ())
    ∧ (allDecrypt inco handles = false → ∃ m, r = Threw m).
Proof.
  revert h. induction handles as [|[s v] rest IH]; intros h.
  - exists (Value ()). simpl. split; [|done].
    unfold mret, Async_ret. rewrite app_nil_r. by destruct h.
  - simpl. unfold plainOf. simpl.
    unfold mbind at 1, Async_bind at 1, call at 1.
    destruct (decrypt inco s v) as [m|plain] eqn:Hd.
    + exists (Threw m). simpl. split.
      * rewrite app_nil_r. by destruct h.
      * split; [done | by eexists].
    + unfold mbind at 1, Async_bind at 1, modify at 1.
      cbn beta iota zeta.
      set (c := {| shape := plain.1; value := plain.2 |}).
      destruct (IH (setMyCards (myCards h ++ [c]) h))
        as (r & -> & Hok & Hbad).
      exists r. simpl. split; [|by split].
      f_equal. f_equal. destruct h. simpl. by rewrite <- app_assoc.
Qed.

(** The two variants of [decryptMyCards] part ways on a player record
    without a card list: the hook of [gameTypes.ts] returns the empty
    list and raises no flag, the one of [useTable.ts] reads the length of
    the missing list, lands in its [catch] and raises [decryptFailed].
    Both make that one fetch only and reset [isDecryptingCards]. *)
Theorem missing_list_variants_differ (wallet : Wallet)
    (pk tableIdString : string) (chain : Chain) (submission : Submission)
    (inco : Inco) (closedOver : list DecryptedCard) (h : Hook)
    (player : Player) :
  canDecrypt wallet = true →
  publicKey wallet = Some pk →
  fetchPlayer chain (PlayerPda tableIdString pk) = Value player →
  p_cards player = None →
  decryptMyCards wallet tableIdString chain submission inco h
  = (Value [], setIsDecryptingCards false h,
     [FetchPlayer (PlayerPda tableIdString pk)]) ∧
  UseTable.decryptMyCards wallet tableIdString chain submission inco
    closedOver h
  = (Value [], setIsDecryptingCards false (setDecryptFailed true h),
     [FetchPlayer (PlayerPda tableIdString pk)]).
Proof.
  intros Hcan Hpk Hfetch Hnone. split.
  - unfold decryptMyCards. rewrite Hpk, Hcan.
    unfold decryptPipeline, finally, tryCatch, call, modify, mbind,
      Async_bind.
    rewrite Hfetch, Hnone. simpl. by rewrite setIsDecryptingCards_twice.
  - unfold UseTable.decryptMyCards. rewrite Hpk, Hcan.
    unfold finally, tryCatch, call, modify, throw, mbind, Async_bind.
    rewrite Hfetch, Hnone. simpl. by destruct h.
Qed.

Example old_second_invocation_runs :
  let r := UseTable.decryptMyCards alice "7" (ledger tupleHand) accepted
             network [] inFlight in
  myCards r.1.2 = [mkDecryptedCard 2 5] ∧ SendRawTransaction ∈ r.2.
Proof.
  vm_compute. split; [reflexivity|].
  do 4 apply list_elem_of_further. apply list_elem_of_here.
Qed.

Lemma missing_list_variants_differ_witness :
  decryptFailed
    (decryptMyCards alice "7" unlisted accepted network initialHook).1.2
  = false ∧
  decryptFailed
    (UseTable.decryptMyCards alice "7" unlisted accepted network []
       initialHook).1.2
  = true.
Proof.
  destruct (missing_list_variants_differ alice "alice" "7" unlisted
              accepted network [] initialHook (mkPlayer (Some "bull") None)
              eq_refl eq_refl eq_refl eq_refl) as [-> ->].
  split; reflexivity.
Defined.

(** What the hook of [useTable.ts] gives back after a full run.  When
    the grant goes through and every decrypt request is answered, it
    appends one card per held card to [myCards], leaves the cache and the
    handle map untouched, and returns the [myCards] that the callback
    closed over, not the cards it has just decrypted. *)
Theorem old_hook_returns_closed_over (wallet : Wallet)
    (pk tableIdString : string) (chain : Chain) (submission : Submission)
    (inco : Inco) (closedOver : list DecryptedCard) (h : Hook)
    (player : Player) (held : list EncryptedCard) :
  canDecrypt wallet = true →
  publicKey wallet = Some pk →
  fetchPlayer chain (PlayerPda tableIdString pk) = Value player →
  p_cards player = Some held →
  held ≠ [] →
  granted submission →
  allDecrypt inco (handleStrings <$> held) = true →
  let r := UseTable.decryptMyCards wallet tableIdString chain submission
             inco closedOver h in
  let plains := revealedPrefix inco (handleStrings <$> held) in
  r.1.1 = Value closedOver ∧
  myCards r.1.2 = myCards h ++ plains ∧
  length plains = length held ∧
  localStorage r.1.2 = localStorage h ∧
  cardHandleMap r.1.2 = cardHandleMap h ∧
  decryptFailed r.1.2 = decryptFailed h ∧
  isDecryptingCards r.1.2 = false.
Proof.
  intros Hcan Hpk Hfetch Hcards Hne (Hb & Hl & Hs & Hse & Hc) Hall.
  cbv zeta.
  destruct (decryptEach_run inco (handleStrings <$> held) []
              (setIsDecryptingCards true h)) as (m' & r' & _ & Hlen & _).
  destruct (Hlen Hall) as [_ Hlength]. rewrite length_fmap in Hlength.
  assert (∃ es,
            UseTable.decryptMyCards wallet tableIdString chain submission
              inco closedOver h
            = (Value closedOver,
               setIsDecryptingCards false
                 (setMyCards
                    (myCards h
                     ++ revealedPrefix inco (handleStrings <$> held))
                    (setIsDecryptingCards true h)), es)) as [es ->].
  { unfold UseTable.decryptMyCards. rewrite Hpk, Hcan.
    unfold finally, tryCatch.
    unfold mbind at 1 2, Async_bind at 1 2, modify at 1, call at 1.
    rewrite Hfetch, Hcards.
    destruct held as [|card held]; [done|].
    unfold mbind at 1 2 3 4 5 6, Async_bind at 1 2 3 4 5 6.
    unfold call at 1 2 3 4 5 6. rewrite Hb, Hl, Hs, Hse, Hc.
    cbn beta iota zeta.
    unfold mbind at 1, Async_bind at 1.
    destruct (old_decryptEach_run inco (handleStrings <$> card :: held)
                (setIsDecryptingCards true h)) as (r & Hrun & Hok & _).
    change ((λ card0 : EncryptedCard,
               (decimal (extractHandle (card_shape card0)),
                decimal (extractHandle (card_value card0))))
              <$> card :: held)
      with (handleStrings <$> card :: held).
    rewrite Hrun, (Hok Hall).
    unfold mret, Async_ret. cbn beta iota zeta.
    eexists. f_equal. f_equal. by destruct h. }
  cbn [fst snd]. repeat split; by destruct h.
Qed.

Lemma old_hook_returns_closed_over_witness :
  let r := UseTable.decryptMyCards alice "7" (ledger tupleHand) accepted
             network [] initialHook in
  r.1.1 = Value [] ∧ myCards r.1.2 = [mkDecryptedCard 2 5].
Proof.
  destruct (old_hook_returns_closed_over alice "alice" "7"
              (ledger tupleHand) accepted network [] initialHook
              (mkPlayer (Some "bull") (Some tupleHand)) tupleHand
              eq_refl eq_refl eq_refl eq_refl)
    as (Hr & Hcards & _);
    [discriminate | by repeat split | reflexivity |].
  split; [exact Hr | exact Hcards].
Defined.

End UseTableFacts.
